(** * git-dumper: a shallow embedding of [git-dumper.py] and its properties

    Part I is the embedding, one module per layer of the script:

    - [Py]          the Python string primitives the script relies on;
    - [Re]          the three regular expressions the script searches with;
    - [OS]          the output directory: files, directories, [os.path];
    - [Http]        responses, the remote server and the event trace;
    - [ObjectRefs]  [get_referenced_sha1] over dulwich's object kinds;
    - [Listing]     [is_html] and [get_indexed_files];
    - [Pool]        [Worker.run] and [process_tasks], as a transition system
                    over the two queues;
    - [Workers]     the four [do_task] bodies;
    - [Dumper]      [url_get] and [fetch_git];
    - [Main]        the command line, lines 562-623.

    [Samples] holds small instances to run the definitions on; [Ledger],
    [Effects], [Reach], [Ids] and [Paths] hold what the properties of Part II
    are stated with.

    Part II states and proves the properties, layer by layer.

    External libraries (requests, bs4, urllib, dulwich) are not part of the
    script: what the script needs from them is a [Variable] of the section
    that uses it. Line numbers refer to [git-dumper.py]. *)

From Stdlib Require Import String Ascii List ZArith Lia Permutation.
From stdpp Require Import base gmap sets list strings relations.

Local Open Scope string_scope.
Local Open Scope list_scope.

(** * Part I: the embedding *)

(** ** Python string primitives *)

Module Py.

(** [s.startswith(p)] *)
Definition startswith (s p : string) : bool := String.prefix p s.

(** [s.endswith(p)] *)
Definition endswith (s p : string) : bool :=
  String.prefix (String.rev p) (String.rev s).

(** Truthiness of a [str]: it is not empty. *)
Definition truthy (s : string) : bool := negb (String.eqb s "").

(** [needle in s] *)
Definition contains (needle s : string) : bool :=
  match String.index 0 needle s with Some _ => true | None => false end.

Fixpoint lstrip_slash (s : string) : string :=
  match s with
  | String "/" s' => lstrip_slash s'
  | _ => s
  end.

(** [s.rstrip('/')] *)
Definition rstrip_slash (s : string) : string :=
  String.rev (lstrip_slash (String.rev s)).

(** [s[:-n]], for [0 < n] *)
Definition drop_last (n : nat) (s : string) : string :=
  String.substring 0 (String.length s - n) s.

(** [s[:n]] and [s[n:]] *)
Definition slice_to (n : nat) (s : string) : string :=
  String.substring 0 n s.

Definition slice_from (n : nat) (s : string) : string :=
  String.substring n (String.length s - n) s.

(** [s.lower()] on the ASCII letters, those a header name is made of. *)
Definition lower_ascii (c : ascii) : ascii :=
  if (65 <=? nat_of_ascii c)%nat && (nat_of_ascii c <=? 90)%nat
  then ascii_of_nat (nat_of_ascii c + 32) else c.

Fixpoint lower (s : string) : string :=
  match s with
  | EmptyString => EmptyString
  | String c s' => String (lower_ascii c) (lower s')
  end.

(** The outcome of a call that may end the process through [sys.exit]. *)
Inductive result (A : Type) : Type :=
| Ok (a : A)
| Exit (code : Z).
Arguments Ok {A} a.
Arguments Exit {A} code.

(** String concatenation: Python's [+] and the [%s] of a format. *)
Notation "s +++ t" := (String.append s t)
  (at level 60, right associativity) : string_scope.

(** The newline and the double quote of the messages. *)
Definition nl : string := String "010" "".
Definition dq : string := String "034" "".

End Py.

(** ** Regular expressions

    [re.findall] scans the text from left to right; at each position it tries
    the pattern and, on success, records the match and resumes after it, so
    matches never overlap. The three patterns of the script are deterministic
    enough for a matcher that returns, for the text left at a position, how
    many characters the match takes and what the script reads from its
    groups. *)

Module Re.

Definition chars := list ascii.

(** A matcher: [at_start] tells whether the position is the start of the
    text (for [^]); the result is the length of the match and the capture. *)
Definition matcher := bool -> chars -> option (nat * chars).

(** [skip] counts the characters of the last match still to be passed. *)
Fixpoint findall_go (m : matcher) (at_start : bool) (skip : nat) (s : chars)
  : list chars :=
  match s with
  | [] => []
  | _ :: s' =>
      match skip with
      | S k => findall_go m false k s'
      | O =>
          match m at_start s with
          | Some (n, capture) => capture :: findall_go m false (pred n) s'
          | None => findall_go m false 0 s'
          end
      end
  end.

Definition findall (m : matcher) (text : string) : list string :=
  map string_of_list_ascii (findall_go m true 0 (list_ascii_of_string text)).

Definition between (lo hi c : ascii) : bool :=
  (nat_of_ascii lo <=? nat_of_ascii c)%nat && (nat_of_ascii c <=? nat_of_ascii hi)%nat.

(** [[a-zA-Z0-9\-\.\_\*]] *)
Definition is_ref_char (c : ascii) : bool :=
  between "a" "z" c || between "A" "Z" c || between "0" "9" c ||
  Ascii.eqb c "-" || Ascii.eqb c "." || Ascii.eqb c "_" || Ascii.eqb c "*".

(** [[a-f0-9]] *)
Definition is_hex (c : ascii) : bool :=
  between "a" "f" c || between "0" "9" c.

(** [\s] of a [str] pattern, on a text of code points below 256: space,
    tab, newline, vertical tab, form feed, carriage return, the four
    separators 28-31, the next-line character 133 and the no-break space
    160. *)
Definition is_space (c : ascii) : bool :=
  Ascii.eqb c " " || between "009" "013" c || between "028" "031" c
  || Ascii.eqb c "133" || Ascii.eqb c "160".

(** [(/[a-zA-Z0-9\-\.\_\*]+)*], greedy: the number of characters taken.
    [in_segment] holds after a character of the class; a slash opens a
    segment only when a character of the class follows it. *)
Fixpoint segments (in_segment : bool) (s : chars) : nat :=
  match s with
  | [] => 0
  | c :: s' =>
      if is_ref_char c then
        if in_segment then S (segments true s') else 0
      else if Ascii.eqb c "/" then
        match s' with
        | c' :: _ => if is_ref_char c' then S (segments true s') else 0
        | [] => 0
        end
      else 0
  end.

Fixpoint starts_with (p s : chars) : option chars :=
  match p, s with
  | [], _ => Some s
  | a :: p', b :: s' => if Ascii.eqb a b then starts_with p' s' else None
  | _ :: _, [] => None
  end.

(** [(refs(/[a-zA-Z0-9\-\.\_\*]+)+)] (line 307); the script reads group 1,
    the whole match. *)
Definition ref_matcher : matcher := fun _ s =>
  match starts_with (list_ascii_of_string "refs") s with
  | Some rest =>
      match segments false rest with
      | O => None
      | S n => Some (4 + S n, take (4 + S n) s)
      end
  | None => None
  end.

Definition find_refs (text : string) : list string := findall ref_matcher text.

(** The words of the pattern [refs(/[a-zA-Z0-9\-\.\_\*]+)+], read off the
    pattern: [refs], then one group or more, a group being a slash and one
    character of the class or more. *)
Definition ref_group (g : chars) : Prop :=
  exists run, g = "/"%char :: run /\ run <> [] /\ forallb is_ref_char run = true.

Definition ref_word (m : chars) : Prop :=
  exists groups,
    groups <> [] /\ Forall ref_group groups /\
    m = list_ascii_of_string "refs" ++ concat groups.

(** [m] reports, wherever it is tried, the longest of the words of [word]
    that start the text there, and fails where there is none. *)
Definition reports_longest (word : chars -> Prop) (m : matcher) : Prop :=
  forall at_start s,
    match m at_start s with
    | Some (n, capture) =>
        capture = take n s /\ length capture = n /\ 0 < n /\ word capture /\
        forall w, word w -> w `prefix_of` s -> length w <= n
    | None => forall w, word w -> ~ w `prefix_of` s
    end.

(** What [re.findall] reports for a matcher, told without a counter: where
    the matcher fails the scan moves on by one character, where it succeeds
    the capture is reported and the scan resumes after the match. *)
Inductive scans (m : matcher) : bool -> chars -> list chars -> Prop :=
| scans_end at_start : scans m at_start [] []
| scans_miss at_start c s found :
    m at_start (c :: s) = None ->
    scans m false s found ->
    scans m at_start (c :: s) found
| scans_hit at_start c s n capture found :
    m at_start (c :: s) = Some (S n, capture) ->
    scans m false (drop n s) found ->
    scans m at_start (c :: s) (capture :: found).

(** [[a-f0-9]{40}]: the forty characters and what follows them. *)
Definition hex40 (s : chars) : option (chars * chars) :=
  let h := take 40 s in
  if (length h =? 40)%nat && forallb is_hex h then Some (h, drop 40 s) else None.

(** [pack-([a-f0-9]{40})\.pack] (line 481); the script reads group 1. *)
Definition pack_matcher : matcher := fun _ s =>
  match starts_with (list_ascii_of_string "pack-") s with
  | Some rest =>
      match hex40 rest with
      | Some (h, rest') =>
          match starts_with (list_ascii_of_string ".pack") rest' with
          | Some _ => Some (50, h)
          | None => None
          end
      | None => None
      end
  | None => None
  end.

Definition find_packs (text : string) : list string := findall pack_matcher text.

(** [($|\s)]: [$] holds at the end of the text and before a final newline,
    and takes nothing; otherwise one blank is taken. *)
Definition oid_end (s : chars) : option nat :=
  match s with
  | [] => Some 0
  | c :: s' =>
      if Ascii.eqb c "010" && bool_decide (s' = []) then Some 0
      else if is_space c then Some 1
      else None
  end.

Definition oid_body (s : chars) : option (nat * chars) :=
  match hex40 s with
  | Some (h, rest) =>
      match oid_end rest with
      | Some n => Some (40 + n, h)
      | None => None
      end
  | None => None
  end.

(** [(^|\s)([a-f0-9]{40})($|\s)] (line 516); the script reads group 2. *)
Definition oid_matcher : matcher := fun at_start s =>
  let blank :=
    match s with
    | c :: s' =>
        if is_space c then
          match oid_body s' with
          | Some (n, h) => Some (S n, h)
          | None => None
          end
        else None
    | [] => None
    end in
  if at_start then
    match oid_body s with
    | Some r => Some r
    | None => blank
    end
  else blank.

Definition find_oids (text : string) : list string := findall oid_matcher text.

End Re.

(** ** The output directory *)

Module OS.
Import Py.

(** Regular files with their content, and directories, by absolute path. *)
Record FS := {
  files : gmap string string;
  dirs : gset string
}.

(** [os.path.exists] *)
Definition path_exists (p : string) (fs : FS) : bool :=
  bool_decide (is_Some (files fs !! p)) || bool_decide (p ∈ dirs fs).

(** [os.path.isdir] *)
Definition isdir (p : string) (fs : FS) : bool := bool_decide (p ∈ dirs fs).

(** [open(p).read()]; [None] when [p] is not a regular file. The content
    is the text of the file: what a file holds is taken to decode, and its
    newlines are left as they are. *)
Definition read (p : string) (fs : FS) : option string := files fs !! p.

(** [open(p, 'w').write(data)] where [open] succeeds: the file is created
    or replaced. [open] raises where a path above [p] is not a directory;
    [clear_above] below is the condition under which it does not. *)
Definition write (p data : string) (fs : FS) : FS :=
  {| files := <[p := data]> (files fs); dirs := dirs fs |}.

Fixpoint span_not_slash (s : string) : string * string :=
  match s with
  | EmptyString => ("", "")
  | String c s' =>
      if Ascii.eqb c "/" then ("", s)
      else let '(a, b) := span_not_slash s' in (String c a, b)
  end.

(** [os.path.split] (posixpath): the tail is what follows the last slash;
    the head is the rest, without its trailing slashes unless it is made of
    slashes only. *)
Definition split (p : string) : string * string :=
  let '(tail, head) := span_not_slash (String.rev p) in
  let head := String.rev head in
  let head := if truthy (rstrip_slash head) then rstrip_slash head else head in
  (head, String.rev tail).

Definition mkdir (name : string) (fs : FS) : FS :=
  if path_exists name fs then fs
  else {| files := files fs; dirs := {[name]} ∪ dirs fs |}.

(** [os.makedirs] where it succeeds, with the [FileExistsError] the script
    swallows: the missing ancestors are created, outermost first, then
    [name]. [mkdir] raises where a path above [name] is a regular file;
    [clear_above] below is the condition under which it does not. [fuel]
    bounds the depth of [name]. *)
Fixpoint makedirs (fuel : nat) (name : string) (fs : FS) : FS :=
  match fuel with
  | O => mkdir name fs
  | S fuel =>
      let '(head, tail) := split name in
      let '(head, tail) := if truthy tail then (head, tail) else split head in
      let fs :=
        if truthy head && truthy tail && negb (path_exists head fs)
        then makedirs fuel head fs else fs in
      mkdir name fs
  end.

(** Lines 55-64. *)
Definition create_intermediate_dirs (path : string) (fs : FS) : FS :=
  let '(dirname, basename) := split path in
  if truthy dirname && negb (path_exists dirname fs)
  then makedirs (String.length dirname) dirname fs
  else fs.

(** [q] is above [p]: [p] is [q], a slash and more. *)
Definition above (q p : string) : Prop := exists rest, p = q +++ "/" +++ rest.

(** No path above [p] is a regular file: the condition under which
    [os.makedirs] can create the directories above [p] that are missing and
    [open] can create [p] in a file system without other obstacles. *)
Definition clear_above (p : string) (fs : FS) : Prop :=
  forall q, above q p -> files fs !! q = None.

(** Nothing that exists in [before] is missing in [after]. *)
Definition keeps (before after : FS) : Prop :=
  forall p, path_exists p before = true -> path_exists p after = true.

(** The regular files below [top], as [os.walk] followed by the inner loop
    over [filenames] enumerates them (in no particular order). *)
Definition walk_files (top : string) (fs : FS) : list string :=
  List.filter (fun p => startswith p (top +++ "/")) (elements (dom (files fs))).

(** [os.listdir]: the names of the entries directly inside [d]. *)
Definition listdir (d : string) (fs : FS) : list string :=
  omap (fun p =>
          if startswith p (d +++ "/") then
            let name := slice_from (String.length d + 1) p in
            if contains "/" name then None else Some name
          else None)
       (elements (dom (files fs) ∪ dirs fs)).

End OS.

(** ** HTTP and the observable trace *)

Module Http.
Import Py.

(** [requests.Response], as far as the script reads it. [text] stands for
    the body, whether the script reads it as [.text], as [.content] or in
    chunks through [iter_content]. *)
Record Response := {
  status_code : Z;
  headers : list (string * string);
  text : string
}.

(** [name in response.headers] and [response.headers[name]]: the names of
    headers are compared without regard to case. *)
Definition header (name : string) (response : Response) : option string :=
  snd <$> List.find (fun kv => String.eqb (lower (fst kv)) (lower name))
                    (headers response).

(** What the script prints: the four lines it formats with a number or
    more than one string, by their arguments, and the other lines by their
    text, on stdout ([Info]) or on stderr ([Error]; the object that follows
    [unexpected object type:] is left out). *)
Inductive Line :=
| Fetching (count : Z) (url filepath : string) (status : Z)
| AlreadyFetched (url filepath : string)
| Testing (url : string)
| Status (status : Z)
| Info (message : string)
| Error (message : string).

(** What a run does that can be seen from outside the process. *)
Inductive Event :=
| Get (url : string)        (** [self.session.get], by a worker *)
| Probe (url : string)      (** [requests.get], by [url_get] *)
| Init                      (** [self.init] after a 403: a new session *)
| Sleep (seconds : Z)       (** [time.sleep] *)
| Print (line : Line).

(** The URLs the workers requested, in order. *)
Definition gets (events : list Event) : list string :=
  omap (fun e => match e with Get u => Some u | _ => None end) events.

(** The URLs [url_get] requested, in order. *)
Definition probes (events : list Event) : list string :=
  omap (fun e => match e with Probe u => Some u | _ => None end) events.

(** The number of sessions started anew. *)
Definition inits (events : list Event) : nat :=
  length (List.filter (fun e => match e with Init => true | _ => false end) events).

(** The seconds slept in all. *)
Definition slept (events : list Event) : Z :=
  fold_right (fun e total => match e with Sleep n => (n + total)%Z | _ => total end)
             0%Z events.

End Http.

(** ** [get_referenced_sha1] *)

Module ObjectRefs.
Import Py.

(** [dulwich.objects.TreeEntry]: a named tuple (path, mode, sha). *)
Record TreeEntry := { te_path : string; te_mode : Z; te_sha : string }.

(** The classes of the objects dulwich decodes. Object ids are hex strings;
    dulwich keeps them as [bytes] and the script calls [.decode()] on each,
    which leaves hex digits as they are. *)
Inductive ShaFile :=
| Commit (tree : string) (parents : list string) (message : string)
| Tree (items : list TreeEntry)
| Blob (data : string)
| Tag (object_type : string) (object_sha : string) (name : string).

(** Lines 67-85. The result is [objs], or the exit status of [sys.exit]
    together with the object the error line reports on stderr. *)
Definition get_referenced_sha1 (obj_file : ShaFile)
  : result (list string) * option ShaFile :=
  let objs := [] in
  match obj_file with
  | Commit tree parents _ =>
      let objs := objs ++ [tree] in
      let objs := fold_left (fun objs parent => objs ++ [parent]) parents objs in
      (Ok objs, None)
  | Tree items =>
      let objs := fold_left (fun objs item => objs ++ [te_sha item]) items objs in
      (Ok objs, None)
  | Blob _ => (Ok objs, None)
  | _ => (Exit 1%Z, Some obj_file)
  end.

End ObjectRefs.

(** ** [is_html] and [get_indexed_files] *)

Module Listing.
Import Py Http.

(** [urllib.parse.ParseResult] *)
Record ParseResult := {
  scheme : string; netloc : string; path : string;
  params : string; query : string; fragment : string
}.

(** Lines 31-33. *)
Definition is_html (response : Response) : bool :=
  contains "<html>" (text response).

Section Parser.

(** [bs4.BeautifulSoup(text, 'html.parser').find_all('a')] with
    [link.get('href')] applied to each: the href of every anchor, in document
    order, [None] for an anchor without one. *)
Variable find_all_a_href : string -> list (option string).

(** [urllib.parse.urlparse] *)
Variable urlparse : option string -> ParseResult.

(** The condition of lines 44-49. *)
Definition keep (url : ParseResult) : bool :=
  truthy (path url) &&
  negb (String.eqb (path url) ".") &&
  negb (String.eqb (path url) "..") &&
  negb (startswith (path url) "/") &&
  negb (truthy (scheme url)) &&
  negb (truthy (netloc url)).

(** Lines 36-52. *)
Definition get_indexed_files (response : Response) : list string :=
  let html := find_all_a_href (text response) in
  fold_left
    (fun files link =>
       let url := urlparse link in
       if keep url then files ++ [path url] else files)
    html [].

End Parser.

End Listing.

(** ** [Worker.run] and [process_tasks]

    The parent process and its [jobs] worker processes share two queues and
    nothing else. A state of the pool holds the parent's local variables, its
    position in [process_tasks], the content of both queues and what every
    worker is doing; a step is one move of one process. [do_task] runs on the
    world in one step. *)

Module Pool.

Section Machine.

Context {Task : Type} `{Countable Task}.
Context {World : Type}.

(** [do_task] of the worker class in use: the list it returns, or [None]
    when the call raises and ends the worker process, and the world it
    leaves. *)
Variable do_task : Task -> World -> option (list Task) * World.

(** [jobs] *)
Variable jobs : nat.

(** What the parent does to the pending queue and to [tasks_seen], in the
    order it does it. *)
Inductive Action :=
| Put (task : Task)     (** [pending_tasks.put(task)] *)
| Add (task : Task).    (** [tasks_seen.add(task)] *)

(** Where the parent is in lines 150-168. *)
Inductive Control :=
| Collecting (task_result : list Task)
    (** in the [while] loop, with what is left of [task_result] to go
        through; [[]] is the loop test *)
| Joining      (** end signals sent, waiting in [p.join()] *)
| Returned.

Record State := {
  tasks_seen : gset Task;
  pending_tasks : list (option Task);  (** oldest first; [None] is the end signal *)
  tasks_done : list (list Task);       (** the result queue, oldest first *)
  num_pending_tasks : nat;
  control : Control;
  idle : nat;             (** workers at [pending_tasks.get] *)
  busy : list Task;       (** workers inside [do_task], by task *)
  world : World;
  journal : list Action;  (** the parent's actions so far *)
  calls : list Task       (** the tasks [do_task] was called on, in order *)
}.

(** Lines 138-140 and 158-160. *)
Definition enqueue (task : Task) (s : State) : State :=
  {| tasks_seen := tasks_seen s ∪ {[task]};
     pending_tasks := pending_tasks s ++ [Some task];
     tasks_done := tasks_done s;
     num_pending_tasks := S (num_pending_tasks s);
     control := control s;
     idle := idle s;
     busy := busy s;
     world := world s;
     journal := journal s ++ [Put task; Add task];
     calls := calls s |}.

(** Lines 137-140 and 157-160. *)
Definition offer (task : Task) (s : State) : State :=
  if decide (task ∈ tasks_seen s) then s else enqueue task s.

Definition with_control (c : Control) (s : State) : State :=
  {| tasks_seen := tasks_seen s;
     pending_tasks := pending_tasks s;
     tasks_done := tasks_done s;
     num_pending_tasks := num_pending_tasks s;
     control := c;
     idle := idle s;
     busy := busy s;
     world := world s;
     journal := journal s;
     calls := calls s |}.

(** Line 128: [set(tasks_done) if tasks_done else set()]. *)
Definition given (done : option (gset Task)) : gset Task :=
  match done with Some d => d | None => ∅ end.

(** Lines 128-131. *)
Definition blank (done : option (gset Task)) (w : World) : State :=
  {| tasks_seen := given done;
     pending_tasks := [];
     tasks_done := [];
     num_pending_tasks := 0;
     control := Collecting [];
     idle := jobs;
     busy := [];
     world := w;
     journal := [];
     calls := [] |}.

(** Lines 133-147: the state when the workers have been started. *)
Definition start (initial_tasks : list Task) (done : option (gset Task))
    (w : World) : State :=
  fold_left (fun s task => offer task s) initial_tasks (blank done w).

Inductive step : State -> State -> Prop :=
| worker_get s task rest n :
    (** line 104, a task *)
    pending_tasks s = Some task :: rest ->
    idle s = S n ->
    step s {| tasks_seen := tasks_seen s;
              pending_tasks := rest;
              tasks_done := tasks_done s;
              num_pending_tasks := num_pending_tasks s;
              control := control s;
              idle := n;
              busy := busy s ++ [task];
              world := world s;
              journal := journal s;
              calls := calls s ++ [task] |}
| worker_put s before task after result w :
    (** lines 109-113 *)
    busy s = before ++ task :: after ->
    do_task task (world s) = (Some result, w) ->
    step s {| tasks_seen := tasks_seen s;
              pending_tasks := pending_tasks s;
              tasks_done := tasks_done s ++ [result];
              num_pending_tasks := num_pending_tasks s;
              control := control s;
              idle := S (idle s);
              busy := before ++ after;
              world := w;
              journal := journal s;
              calls := calls s |}
| worker_raise s before task after w :
    (** line 109, when [do_task] raises: the process ends *)
    busy s = before ++ task :: after ->
    do_task task (world s) = (None, w) ->
    step s {| tasks_seen := tasks_seen s;
              pending_tasks := pending_tasks s;
              tasks_done := tasks_done s;
              num_pending_tasks := num_pending_tasks s;
              control := control s;
              idle := idle s;
              busy := before ++ after;
              world := w;
              journal := journal s;
              calls := calls s |}
| worker_return s rest n :
    (** lines 104-107, the end signal *)
    pending_tasks s = None :: rest ->
    idle s = S n ->
    step s {| tasks_seen := tasks_seen s;
              pending_tasks := rest;
              tasks_done := tasks_done s;
              num_pending_tasks := num_pending_tasks s;
              control := control s;
              idle := n;
              busy := busy s;
              world := world s;
              journal := journal s;
              calls := calls s |}
| parent_get s task_result rest n :
    (** lines 150-152 *)
    control s = Collecting [] ->
    num_pending_tasks s = S n ->
    tasks_done s = task_result :: rest ->
    step s {| tasks_seen := tasks_seen s;
              pending_tasks := pending_tasks s;
              tasks_done := rest;
              num_pending_tasks := n;
              control := Collecting task_result;
              idle := idle s;
              busy := busy s;
              world := world s;
              journal := journal s;
              calls := calls s |}
| parent_offer s task rest :
    (** lines 154-160, one iteration *)
    control s = Collecting (task :: rest) ->
    step s (with_control (Collecting rest) (offer task s))
| parent_signal s :
    (** lines 150 and 163-164 *)
    control s = Collecting [] ->
    num_pending_tasks s = 0 ->
    step s {| tasks_seen := tasks_seen s;
              pending_tasks := pending_tasks s ++ replicate jobs None;
              tasks_done := tasks_done s;
              num_pending_tasks := num_pending_tasks s;
              control := Joining;
              idle := idle s;
              busy := busy s;
              world := world s;
              journal := journal s;
              calls := calls s |}
| parent_join s :
    (** lines 167-168: every worker process has ended *)
    control s = Joining ->
    idle s = 0 ->
    busy s = [] ->
    step s (with_control Returned s).

(** How a call of [process_tasks] ends: at line 126, or at line 168 in a
    final state of the pool. *)
Inductive Run :=
| Skipped (w : World)
| Completed (final : State).

(** Lines 122-168. *)
Inductive process_tasks (initial_tasks : list Task) (done : option (gset Task))
    (w : World) : Run -> Prop :=
| process_nothing :
    initial_tasks = [] ->
    process_tasks initial_tasks done w (Skipped w)
| process_all final :
    initial_tasks <> [] ->
    rtc step (start initial_tasks done w) final ->
    control final = Returned ->
    process_tasks initial_tasks done w (Completed final).

Definition run_world (r : Run) : World :=
  match r with Skipped w => w | Completed s => world s end.

(** The tasks [do_task] was called on. *)
Definition run_calls (r : Run) : list Task :=
  match r with Skipped _ => [] | Completed s => calls s end.

Definition run_journal (r : Run) : list Action :=
  match r with Skipped _ => [] | Completed s => journal s end.

(** The worker processes created (line 143). *)
Definition run_workers (r : Run) : nat :=
  match r with Skipped _ => 0 | Completed _ => jobs end.

(** The tasks put on the pending queue, in order. *)
Definition puts (j : list Action) : list Task :=
  omap (fun a => match a with Put t => Some t | Add _ => None end) j.

(** The tasks waiting in the pending queue, in order. *)
Definition waiting (q : list (option Task)) : list Task := omap id q.

End Machine.

(** *** Closures of a follow-up function *)

Section Closure.

Context {Task : Type} `{Countable Task}.

Variable follow_ups : Task -> list Task.

(** The reachable closure of the seeds. *)
Inductive closure (seeds : list Task) : Task -> Prop :=
| closure_seed t : t ∈ seeds -> closure seeds t
| closure_next t u : closure seeds t -> u ∈ follow_ups t -> closure seeds u.

(** What is reached from the seeds without going through a task of
    [done]. *)
Inductive explored (done : gset Task) (seeds : list Task) : Task -> Prop :=
| explored_seed t : t ∈ seeds -> t ∉ done -> explored done seeds t
| explored_next t u :
    explored done seeds t -> u ∈ follow_ups t -> u ∉ done ->
    explored done seeds u.

End Closure.

(** *** Invariants of the pool, and a measure that every step lowers *)

Section Invariants.

Context {Task : Type} `{Countable Task}.
Context {World : Type}.

Variable jobs : nat.
Variable follow_ups : Task -> list Task.
Variable done : gset Task.
Variable seeds : list Task.

(** The bookkeeping of [tasks_seen]: it holds the tasks given as done and
    the tasks put so far; the tasks put are the tasks called followed by the
    tasks waiting; no task was put twice. *)
Record dedup (s : @State Task _ _ World) : Prop := {
  dedup_seen : tasks_seen s = done ∪ list_to_set (puts (journal s));
  dedup_fifo : puts (journal s) = calls s ++ waiting (pending_tasks s);
  dedup_once : NoDup (puts (journal s));
  dedup_new : forall t, t ∈ puts (journal s) -> t ∉ done;
  dedup_pairs :
    journal s = flat_map (fun t => [Put t; Add t]) (puts (journal s))
}.

(** Where the follow-ups of a called task are: the call is running, or its
    result is in the queue, or each follow-up is seen or still ahead in the
    batch the parent goes through. *)
Definition settled (s : @State Task _ _ World) (t : Task) : Prop :=
  t ∈ busy s \/
  follow_ups t ∈ tasks_done s \/
  forall u, u ∈ follow_ups t ->
    u ∈ tasks_seen s \/ exists rest, control s = Collecting rest /\ u ∈ rest.

Record explores (s : @State Task _ _ World) : Prop := {
  explores_puts :
    forall t, t ∈ puts (journal s) -> explored follow_ups done seeds t;
  explores_seeds :
    forall t, t ∈ seeds ->
      t ∈ tasks_seen s \/ exists rest, control s = Collecting rest /\ t ∈ rest;
  explores_results :
    forall r u, r ∈ tasks_done s -> u ∈ r ->
      exists t, t ∈ calls s /\ u ∈ follow_ups t;
  explores_batch :
    forall rest u, control s = Collecting rest -> u ∈ rest ->
      u ∈ seeds \/ exists t, t ∈ calls s /\ u ∈ follow_ups t;
  explores_busy : forall t, t ∈ busy s -> t ∈ calls s;
  explores_settled : forall t, t ∈ calls s -> settled s t;
  explores_count :
    forall rest, control s = Collecting rest ->
      num_pending_tasks s
      = length (waiting (pending_tasks s)) + length (busy s) + length (tasks_done s) /\
      pending_tasks s = Some <$> waiting (pending_tasks s) /\
      idle s + length (busy s) = jobs;
  explores_joining :
    control s = Joining ->
    pending_tasks s = replicate (idle s) None /\ busy s = [] /\ tasks_done s = [];
  explores_returned :
    control s = Returned ->
    pending_tasks s = [] /\ busy s = [] /\ tasks_done s = [] /\ idle s = 0
}.

Definition pending_weight (x : option Task) : nat :=
  match x with
  | Some t => length (follow_ups t) + 5
  | None => 1
  end.

Definition control_weight (c : @Control Task) : nat :=
  match c with
  | Collecting rest => length rest + jobs + 3
  | Joining => 1
  | Returned => 0
  end.

(** [bound] holds every task that can be put. *)
Definition weight (bound : gset Task) (s : @State Task _ _ World) : nat :=
  (6 + sum_list ((fun t => length (follow_ups t)) <$> elements bound))
    * size (bound ∖ tasks_seen s)
  + sum_list (pending_weight <$> pending_tasks s)
  + sum_list ((fun t => length (follow_ups t) + 4) <$> busy s)
  + sum_list ((fun r => length r + 3) <$> tasks_done s)
  + control_weight (control s).

End Invariants.

End Pool.

(** ** The four worker classes *)

Module Workers.
Import Py Re OS Http ObjectRefs Listing.

(** The subclasses of [Worker]. *)
Inductive Kind :=
| DownloadWorker
| RecursiveDownloadWorker
| FindRefsWorker
| FindObjectsWorker.

Section Bodies.

(** The remote server: its state, and its answer to a GET of a URL. *)
Variable Server : Type.
Variable serve : Server -> string -> Response * Server.

(** [os.path.abspath(os.path.join(directory, filepath))] *)
Variable abspath_join : string -> string -> string.

(** bs4 and urllib, as in [Listing]. *)
Variable find_all_a_href : string -> list (option string).
Variable urlparse : option string -> ParseResult.

(** [dulwich.objects.ShaFile.from_path], on the content of the file; [None]
    when dulwich raises. *)
Variable from_path : string -> option ShaFile.

(** What a worker acts on. *)
Record World := {
  fs : FS;
  server : Server;
  trace : list Event
}.

Definition emit (events : list Event) (w : World) : World :=
  {| fs := fs w; server := server w; trace := trace w ++ events |}.

Definition on_fs (f : FS -> FS) (w : World) : World :=
  {| fs := f (fs w); server := server w; trace := trace w |}.

(** One GET: the event [sent] is recorded and the server moves on. *)
Definition request (sent : string -> Event) (u : string) (w : World)
  : Response * World :=
  let '(response, srv) := serve (server w) u in
  (response, {| fs := fs w; server := srv; trace := trace w ++ [sent u] |}).

(** The answers to the next [n] GETs of [u]. *)
Fixpoint replies (n : nat) (srv : Server) (u : string) : list Response :=
  match n with
  | O => []
  | S n => let '(response, srv) := serve srv u in response :: replies n srv u
  end.

(** The arguments every [do_task] receives. [retry] and [timeout] configure
    the transport (connection retries, time allowed to a request) and play
    no part below. *)
Variable url : string.
Variable directory : string.

(** The [while] loops below run at most five times; [fuel] is what lets
    them be written by recursion, and [loop_fuel] is more than they use. *)
Definition loop_fuel : nat := 6.

(** Lines 186-213. *)
Fixpoint download_loop (fuel : nat) (count : Z) (filepath abspath : string)
    (w : World) : option (list string) * World :=
  match fuel with
  | O => (Some [], w)
  | S fuel =>
      if (count <? 5)%Z then
        let count := (count + 1)%Z in
        let '(response, w) := request Get (url +++ "/" +++ filepath) w in
        let w := emit [Print (Fetching count url filepath (status_code response))] w in
        if (status_code response =? 403)%Z then
          let w := emit [Init; Sleep 10] w in
          download_loop fuel count filepath abspath w
        else if negb (status_code response =? 200)%Z then (Some [], w)
        else
          let w := on_fs (create_intermediate_dirs abspath) w in
          let w := on_fs (write abspath (text response)) w in
          (Some [], w)
      else (Some [], w)
  end.

(** [DownloadWorker.do_task], lines 179-213. *)
Definition download_do_task (filepath : string) (w : World)
  : option (list string) * World :=
  let abspath := abspath_join directory filepath in
  if path_exists abspath (fs w) then
    (Some [], emit [Print (AlreadyFetched url filepath)] w)
  else download_loop loop_fuel 0 filepath abspath w.

(** Lines 227-264. A failed [assert] raises. *)
Fixpoint recursive_loop (fuel : nat) (count : Z) (filepath abspath : string)
    (w : World) : option (list string) * World :=
  match fuel with
  | O => (Some [], w)
  | S fuel =>
      if (count <? 5)%Z then
        let count := (count + 1)%Z in
        let '(response, w) := request Get (url +++ "/" +++ filepath) w in
        let w := emit [Print (Fetching count url filepath (status_code response))] w in
        if ((status_code response =? 301)%Z || (status_code response =? 302)%Z) &&
           match header "Location" response with
           | Some location => endswith location (filepath +++ "/")
           | None => false
           end
        then (Some [filepath +++ "/"], w)
        else if (status_code response =? 403)%Z then
          let w := emit [Init; Sleep 10] w in
          recursive_loop fuel count filepath abspath w
        else if negb (status_code response =? 200)%Z then (Some [], w)
        else if endswith filepath "/" then
          if is_html response then
            (Some (map (fun filename => filepath +++ filename)
                       (get_indexed_files find_all_a_href urlparse response)), w)
          else (None, w)
        else
          let w := on_fs (create_intermediate_dirs abspath) w in
          let w := on_fs (write abspath (text response)) w in
          (Some [], w)
      else (Some [], w)
  end.

(** [RecursiveDownloadWorker.do_task], lines 219-264. *)
Definition recursive_do_task (filepath : string) (w : World)
  : option (list string) * World :=
  let abspath := abspath_join directory filepath in
  if negb (endswith filepath "/") && path_exists abspath (fs w) then
    (Some [], emit [Print (AlreadyFetched url filepath)] w)
  else recursive_loop loop_fuel 0 filepath abspath w.

(** Lines 278-292 and 326-340: the loop leaves the last [response]. *)
Fixpoint get_loop (fuel : nat) (count : Z) (filepath : string)
    (response : option Response) (w : World) : option Response * World :=
  match fuel with
  | O => (response, w)
  | S fuel =>
      if (count <? 5)%Z then
        let count := (count + 1)%Z in
        let '(response, w) := request Get (url +++ "/" +++ filepath) w in
        let w := emit [Print (Fetching count url filepath (status_code response))] w in
        if (status_code response =? 403)%Z then
          let w := emit [Init; Sleep 10] w in
          get_loop fuel count filepath (Some response) w
        else (Some response, w)
      else (response, w)
  end.

(** The two paths the refs worker is to emit for a match of the pattern,
    none when the match ends with a star. *)
Definition ref_paths (ref : string) : list string :=
  if endswith ref "*" then [] else [".git/" +++ ref; ".git/logs/" +++ ref].

(** Lines 304-313. *)
Definition ref_tasks (response_text : string) : list string :=
  fold_left
    (fun tasks ref =>
       if negb (endswith ref "*")
       then (tasks ++ [".git/" +++ ref]) ++ [".git/logs/" +++ ref]
       else tasks)
    (find_refs response_text) [].

(** [FindRefsWorker.do_task], lines 270-313. [open] raises on what is not a
    regular file. *)
Definition find_refs_do_task (filepath : string) (w : World)
  : option (list string) * World :=
  let abspath := abspath_join directory filepath in
  if path_exists abspath (fs w) then
    let w := emit [Print (AlreadyFetched url filepath)] w in
    match read abspath (fs w) with
    | Some response_text => (Some (ref_tasks response_text), w)
    | None => (None, w)
    end
  else
    let '(response, w) := get_loop loop_fuel 0 filepath None w in
    match response with
    | None => (None, w)
    | Some response =>
        if negb (status_code response =? 200)%Z then (Some [], w)
        else
          let w := on_fs (create_intermediate_dirs abspath) w in
          let w := on_fs (write abspath (text response)) w in
          (Some (ref_tasks (text response)), w)
    end.

(** Line 320. *)
Definition object_path (obj : string) : string :=
  ".git/objects/" +++ slice_to 2 obj +++ "/" +++ slice_from 2 obj.

(** Lines 351-353. [sys.exit] in a worker ends that worker process. *)
Definition parse_object (abspath : string) (w : World)
  : option (list string) * World :=
  match read abspath (fs w) ≫= from_path with
  | None => (None, w)
  | Some obj_file =>
      match get_referenced_sha1 obj_file with
      | (Ok objs, _) => (Some objs, w)
      | (Exit _, _) => (None, emit [Print (Error "error: unexpected object type")] w)
      end
  end.

(** [FindObjectsWorker.do_task], lines 319-353. *)
Definition find_objects_do_task (obj : string) (w : World)
  : option (list string) * World :=
  let filepath := object_path obj in
  let abspath := abspath_join directory filepath in
  if path_exists abspath (fs w) then
    parse_object abspath (emit [Print (AlreadyFetched url filepath)] w)
  else
    let '(response, w) := get_loop loop_fuel 0 filepath None w in
    match response with
    | None => (None, w)
    | Some response =>
        if negb (status_code response =? 200)%Z then (Some [], w)
        else
          let w := on_fs (create_intermediate_dirs abspath) w in
          let w := on_fs (write abspath (text response)) w in
          parse_object abspath w
    end.

(** From [w] to [w']: nothing on disk is lost, and every GET of a worker in
    between is of a URL in [allowed]. *)
Definition advances (allowed : string -> Prop) (w w' : World) : Prop :=
  keeps (fs w) (fs w') /\
  exists events,
    trace w' = trace w ++ events /\
    forall u, u ∈ gets events -> allowed u.

Definition do_task (kind : Kind) : string -> World -> option (list string) * World :=
  match kind with
  | DownloadWorker => download_do_task
  | RecursiveDownloadWorker => recursive_do_task
  | FindRefsWorker => find_refs_do_task
  | FindObjectsWorker => find_objects_do_task
  end.

(** The file a task of a worker of [kind] stores, relative to the base URL
    and to the output directory. *)
Definition task_path (kind : Kind) (task : string) : string :=
  match kind with
  | FindObjectsWorker => object_path task
  | _ => task
  end.

(** The requests a task may cause: GETs of the URL of its file, and only
    when the file is not in the output directory, or when the task of a
    recursive worker names a directory. *)
Definition task_request (kind : Kind) (task : string) (w : World) (u : string) : Prop :=
  u = url +++ "/" +++ task_path kind task /\
  (path_exists (abspath_join directory (task_path kind task)) (fs w) = false \/
   kind = RecursiveDownloadWorker /\ endswith task "/" = true).

(** The requests a run that starts in [w] may cause. *)
Definition run_request (w : World) (u : string) : Prop :=
  exists p,
    u = url +++ "/" +++ p /\
    (path_exists (abspath_join directory p) (fs w) = false \/ endswith p "/" = true).

End Bodies.

Arguments fs {Server} w.
Arguments server {Server} w.
Arguments trace {Server} w.

End Workers.

(** ** [url_get] and [fetch_git] *)

Module Dumper.
Import Py Re OS Http ObjectRefs Listing Workers.

(** How a call of [fetch_git] ends. *)
Inductive Outcome :=
| Return (code : Z)     (** handed to [sys.exit] by line 623 *)
| SysExit (code : Z)    (** [sys.exit] called below [fetch_git] *)
| Raise.                (** an exception nothing catches: a failed [assert],
                            an error of [open] or of dulwich *)

(** Lines 417-438. *)
Definition common_files : list string :=
  [ ".gitignore";
    ".git/COMMIT_EDITMSG";
    ".git/description";
    ".git/hooks/applypatch-msg.sample";
    ".git/hooks/applypatch-msg.sample";
    ".git/hooks/applypatch-msg.sample";
    ".git/hooks/commit-msg.sample";
    ".git/hooks/post-commit.sample";
    ".git/hooks/post-receive.sample";
    ".git/hooks/post-update.sample";
    ".git/hooks/pre-applypatch.sample";
    ".git/hooks/pre-commit.sample";
    ".git/hooks/pre-push.sample";
    ".git/hooks/pre-rebase.sample";
    ".git/hooks/pre-receive.sample";
    ".git/hooks/prepare-commit-msg.sample";
    ".git/hooks/update.sample";
    ".git/index";
    ".git/info/exclude";
    ".git/objects/info/packs" ].

(** Lines 446-464. *)
Definition ref_files : list string :=
  [ ".git/FETCH_HEAD";
    ".git/HEAD";
    ".git/ORIG_HEAD";
    ".git/config";
    ".git/info/refs";
    ".git/logs/HEAD";
    ".git/logs/refs/heads/master";
    ".git/logs/refs/remotes/origin/HEAD";
    ".git/logs/refs/remotes/origin/master";
    ".git/logs/refs/stash";
    ".git/packed-refs";
    ".git/refs/heads/master";
    ".git/refs/remotes/origin/HEAD";
    ".git/refs/remotes/origin/master";
    ".git/refs/stash";
    ".git/refs/wip/wtree/refs/heads/master";
    ".git/refs/wip/index/refs/heads/master" ].

(** Lines 381-387. *)
Definition base_url (url : string) : string :=
  let url := rstrip_slash url in
  let url := if endswith url "HEAD" then drop_last 4 url else url in
  let url := rstrip_slash url in
  let url := if endswith url ".git" then drop_last 4 url else url in
  rstrip_slash url.

Section Phases.

Variable Server : Type.
Variable serve : Server -> string -> Response * Server.
Variable abspath_join : string -> string -> string.
Variable find_all_a_href : string -> list (option string).
Variable urlparse : option string -> ParseResult.
Variable from_path : string -> option ShaFile.

(** [dulwich.index.Index(path).iterblobs()], on the content of the index
    file: (path, sha, mode) for every entry; [None] when dulwich raises. *)
Variable index_iterblobs : string -> option (list (string * string * Z)).

(** [dulwich.pack.Pack.from_objects(data, idx).iterobjects()], on the content
    of the pack and of its index: every object, with
    [obj_file.sha().hexdigest()]; [None] when dulwich raises, as it does when
    one of the two files is missing. *)
Variable pack_iterobjects
  : option string -> option string -> option (list (string * ShaFile)).

Local Abbreviation World := (World Server).
Local Abbreviation emit := (@emit Server).
Local Abbreviation request := (request Server serve).

(** Lines 356-368. *)
Fixpoint url_get_loop (fuel : nat) (count : Z) (u : string)
    (response : option Response) (w : World) : option Response * World :=
  match fuel with
  | O => (response, w)
  | S fuel =>
      if (count <? 5)%Z then
        let count := (count + 1)%Z in
        let w := emit [Print (Testing u)] w in
        let '(response, w) := request Probe u w in
        let w := emit [Print (Status (status_code response))] w in
        if (status_code response =? 403)%Z then
          let w := emit [Sleep 10] w in
          url_get_loop fuel count u (Some response) w
        else (Some response, w)
      else (response, w)
  end.

Definition url_get (u : string) (w : World) : option Response * World :=
  url_get_loop loop_fuel 0 u None w.

(** From [w] to [w'] nothing happened but between one and five GETs of [u]
    by [url_get], with the lines it prints and the seconds it sleeps. *)
Definition probed (u : string) (w w' : World) : Prop :=
  fs w' = fs w /\
  exists events,
    trace w' = trace w ++ events /\
    gets events = [] /\
    (forall u', u' ∈ probes events -> u' = u) /\
    (1 <= length (probes events) <= 5)%nat.

Variable directory : string.

(** [os.path.join(directory, ...)], as the key of the file in [FS]. *)
Definition local (relative : string) : string := abspath_join directory relative.

(** Lines 473-483; [None] when [open] raises, on what is not a regular
    file. *)
Definition pack_tasks (disk : FS) : option (list string) :=
  let info_packs_path := local ".git/objects/info/packs" in
  if path_exists info_packs_path disk then
    match read info_packs_path disk with
    | Some info_packs =>
        Some (fold_left
                (fun tasks sha1 =>
                   (tasks ++ [".git/objects/pack/pack-" +++ sha1 +++ ".idx"])
                          ++ [".git/objects/pack/pack-" +++ sha1 +++ ".pack"])
                (find_packs info_packs) [])
    | None => None
    end
  else Some [].

(** Lines 496-507. *)
Definition scanned_files (disk : FS) : list string :=
  [ local ".git/packed-refs";
    local ".git/info/refs";
    local ".git/FETCH_HEAD";
    local ".git/ORIG_HEAD" ]
  ++ walk_files (local ".git/refs") disk
  ++ walk_files (local ".git/logs") disk.

(** Lines 509-518; [None] when [open] raises. *)
Definition scan_files (disk : FS) (objs : gset string) : option (gset string) :=
  fold_left
    (fun acc filepath =>
       match acc with
       | None => None
       | Some objs =>
           if negb (path_exists filepath disk) then Some objs
           else
             match read filepath disk with
             | Some content =>
                 Some (fold_left (fun objs obj => objs ∪ {[obj]})
                                 (find_oids content) objs)
             | None => None
             end
       end)
    (scanned_files disk) (Some objs).

(** Lines 520-526; [None] when dulwich raises. *)
Definition scan_index (disk : FS) (objs : gset string) : option (gset string) :=
  let index_path := local ".git/index" in
  if path_exists index_path disk then
    match read index_path disk ≫= index_iterblobs with
    | Some entries =>
        Some (fold_left (fun objs entry => objs ∪ {[snd (fst entry)]}) entries objs)
    | None => None
    end
  else Some objs.

(** Lines 539-541, one object of a pack. *)
Definition pack_object (acc : result (gset string * gset string))
    (entry : string * ShaFile) : result (gset string * gset string) :=
  match acc with
  | Exit code => Exit code
  | Ok (objs, packed_objs) =>
      let packed_objs := packed_objs ∪ {[fst entry]} in
      match get_referenced_sha1 (snd entry) with
      | (Ok referenced, _) => Ok (objs ∪ list_to_set referenced, packed_objs)
      | (Exit code, _) => Exit code
      end
  end.

(** Lines 528-541; [None] when dulwich raises. *)
Definition scan_packs (disk : FS) (objs : gset string)
  : option (result (gset string * gset string)) :=
  let pack_file_dir := local ".git/objects/pack" in
  if isdir pack_file_dir disk then
    fold_left
      (fun acc filename =>
         match acc with
         | Some (Ok found) =>
             if startswith filename "pack-" && endswith filename ".pack" then
               let pack_data_path := pack_file_dir +++ "/" +++ filename in
               let pack_idx_path :=
                 pack_file_dir +++ "/" +++ drop_last 5 filename +++ ".idx" in
               match pack_iterobjects (read pack_data_path disk)
                                      (read pack_idx_path disk) with
               | Some objects => Some (fold_left pack_object objects (Ok found))
               | None => None
               end
             else acc
         | _ => acc
         end)
      (listdir pack_file_dir disk) (Some (Ok (objs, ∅)))
  else Some (Ok (objs, ∅)).

(** Lines 492-541: [objs] and [packed_objs], or the exit status of
    [sys.exit]; [None] when [open] or dulwich raises. *)
Definition find_objects (disk : FS) : option (result (gset string * gset string)) :=
  match scan_files disk ∅ ≫= scan_index disk with
  | Some objs => scan_packs disk objs
  | None => None
  end.

(** The condition of line 402. *)
Definition has_listing (response : Response) : bool :=
  (status_code response =? 200)%Z && is_html response &&
  bool_decide ("HEAD" ∈ get_indexed_files find_all_a_href urlparse response).

(** The asserts of lines 374-378. *)
Definition preconditions (jobs retry timeout : Z) (w : World) : bool :=
  isdir (local "") (fs w) && (1 <=? jobs)%Z && (1 <=? retry)%Z && (1 <=? timeout)%Z.

(** [process_tasks(tasks, worker, jobs, args=(url, directory, retry, timeout),
    tasks_done)] *)
Definition phase (base : string) (jobs : Z) (kind : Kind) (tasks : list string)
    (done : option (gset string)) (w : World) (r : Pool.Run) : Prop :=
  Pool.process_tasks
    (do_task Server serve abspath_join find_all_a_href urlparse from_path
             base directory kind)
    (Z.to_nat jobs) tasks done w r.

(** Lines 371-559. A set is iterated in an order that is not specified:
    the seeds of the last phase are [objs] in any order. A call in which a
    pool never returns has no outcome. *)
Inductive fetch_git (url : string) (jobs retry timeout : Z) (w0 : World)
  : Outcome -> World -> Prop :=
| fetch_git_assert :
    preconditions jobs retry timeout w0 = false ->
    fetch_git url jobs retry timeout w0 Raise w0
| fetch_git_no_head response w1 :
    preconditions jobs retry timeout w0 = true ->
    url_get (base_url url +++ "/.git/HEAD") w0 = (Some response, w1) ->
    (status_code response =? 200)%Z = false ->
    fetch_git url jobs retry timeout w0 (Return 1)
      (emit [Print (Error ("error: " +++ base_url url +++ "/.git/HEAD does not exist" +++ nl))] w1)
| fetch_git_not_head response w1 :
    preconditions jobs retry timeout w0 = true ->
    url_get (base_url url +++ "/.git/HEAD") w0 = (Some response, w1) ->
    (status_code response =? 200)%Z = true ->
    startswith (text response) "ref:" = false ->
    fetch_git url jobs retry timeout w0 (Return 1)
      (emit [Print (Error ("error: " +++ base_url url +++ "/.git/HEAD is not a git HEAD file" +++ nl))] w1)
| fetch_git_listing head w1 listing w2 r :
    preconditions jobs retry timeout w0 = true ->
    url_get (base_url url +++ "/.git/HEAD") w0 = (Some head, w1) ->
    (status_code head =? 200)%Z = true ->
    startswith (text head) "ref:" = true ->
    url_get (base_url url +++ "/.git/") w1 = (Some listing, w2) ->
    has_listing listing = true ->
    phase (base_url url) jobs RecursiveDownloadWorker [".git/"; ".gitignore"] None
      (emit [Print (Info ("[-] Fetching .git recursively" +++ nl))] w2) r ->
    fetch_git url jobs retry timeout w0 (Return 0)
      (emit [Print (Info ("[-] Please run  " +++ dq +++ "git checkout ." +++ dq +++ " in "
                          +++ directory +++ nl))]
            (Pool.run_world r))
| fetch_git_objects head w1 listing w2 r2 r3 tasks r4 found seeds r5 :
    preconditions jobs retry timeout w0 = true ->
    url_get (base_url url +++ "/.git/HEAD") w0 = (Some head, w1) ->
    (status_code head =? 200)%Z = true ->
    startswith (text head) "ref:" = true ->
    url_get (base_url url +++ "/.git/") w1 = (Some listing, w2) ->
    has_listing listing = false ->
    phase (base_url url) jobs DownloadWorker common_files None
      (emit [Print (Info ("[-] Fetching common files" +++ nl))] w2) r2 ->
    phase (base_url url) jobs FindRefsWorker ref_files None
      (emit [Print (Info ("[-] Finding refs/" +++ nl))] (Pool.run_world r2)) r3 ->
    pack_tasks (fs (Pool.run_world r3)) = Some tasks ->
    phase (base_url url) jobs DownloadWorker tasks None
      (emit [Print (Info ("[-] Finding packs" +++ nl))] (Pool.run_world r3)) r4 ->
    find_objects (fs (Pool.run_world r4)) = Some (Ok found) ->
    Permutation seeds (elements (fst found)) ->
    phase (base_url url) jobs FindObjectsWorker seeds (Some (snd found))
      (emit [Print (Info ("[-] Finding objects" +++ nl));
             Print (Info ("[-] Fetching objects" +++ nl))]
            (Pool.run_world r4)) r5 ->
    fetch_git url jobs retry timeout w0 (Return 0)
      (emit [Print (Info ("[-] Please run " +++ dq +++ "git checkout ." +++ dq +++ " in "
                          +++ directory +++ nl))]
            (Pool.run_world r5))
| fetch_git_unexpected head w1 listing w2 r2 r3 tasks r4 code :
    preconditions jobs retry timeout w0 = true ->
    url_get (base_url url +++ "/.git/HEAD") w0 = (Some head, w1) ->
    (status_code head =? 200)%Z = true ->
    startswith (text head) "ref:" = true ->
    url_get (base_url url +++ "/.git/") w1 = (Some listing, w2) ->
    has_listing listing = false ->
    phase (base_url url) jobs DownloadWorker common_files None
      (emit [Print (Info ("[-] Fetching common files" +++ nl))] w2) r2 ->
    phase (base_url url) jobs FindRefsWorker ref_files None
      (emit [Print (Info ("[-] Finding refs/" +++ nl))] (Pool.run_world r2)) r3 ->
    pack_tasks (fs (Pool.run_world r3)) = Some tasks ->
    phase (base_url url) jobs DownloadWorker tasks None
      (emit [Print (Info ("[-] Finding packs" +++ nl))] (Pool.run_world r3)) r4 ->
    find_objects (fs (Pool.run_world r4)) = Some (Exit code) ->
    fetch_git url jobs retry timeout w0 (SysExit code)
      (emit [Print (Info ("[-] Finding objects" +++ nl));
             Print (Error "error: unexpected object type")]
            (Pool.run_world r4))
| fetch_git_packs_raise head w1 listing w2 r2 r3 :
    preconditions jobs retry timeout w0 = true ->
    url_get (base_url url +++ "/.git/HEAD") w0 = (Some head, w1) ->
    (status_code head =? 200)%Z = true ->
    startswith (text head) "ref:" = true ->
    url_get (base_url url +++ "/.git/") w1 = (Some listing, w2) ->
    has_listing listing = false ->
    phase (base_url url) jobs DownloadWorker common_files None
      (emit [Print (Info ("[-] Fetching common files" +++ nl))] w2) r2 ->
    phase (base_url url) jobs FindRefsWorker ref_files None
      (emit [Print (Info ("[-] Finding refs/" +++ nl))] (Pool.run_world r2)) r3 ->
    pack_tasks (fs (Pool.run_world r3)) = None ->
    fetch_git url jobs retry timeout w0 Raise
      (emit [Print (Info ("[-] Finding packs" +++ nl))] (Pool.run_world r3))
| fetch_git_objects_raise head w1 listing w2 r2 r3 tasks r4 :
    preconditions jobs retry timeout w0 = true ->
    url_get (base_url url +++ "/.git/HEAD") w0 = (Some head, w1) ->
    (status_code head =? 200)%Z = true ->
    startswith (text head) "ref:" = true ->
    url_get (base_url url +++ "/.git/") w1 = (Some listing, w2) ->
    has_listing listing = false ->
    phase (base_url url) jobs DownloadWorker common_files None
      (emit [Print (Info ("[-] Fetching common files" +++ nl))] w2) r2 ->
    phase (base_url url) jobs FindRefsWorker ref_files None
      (emit [Print (Info ("[-] Finding refs/" +++ nl))] (Pool.run_world r2)) r3 ->
    pack_tasks (fs (Pool.run_world r3)) = Some tasks ->
    phase (base_url url) jobs DownloadWorker tasks None
      (emit [Print (Info ("[-] Finding packs" +++ nl))] (Pool.run_world r3)) r4 ->
    find_objects (fs (Pool.run_world r4)) = None ->
    fetch_git url jobs retry timeout w0 Raise
      (emit [Print (Info ("[-] Finding objects" +++ nl))] (Pool.run_world r4)).

End Phases.

End Dumper.

(** ** Small instances to run the definitions on *)

Module Samples.
Import Py Http Listing.

(** A chain of follow-ups: a, then b, then c. *)
Definition chain (t : string) : list string :=
  if String.eqb t "a" then ["b"]
  else if String.eqb t "b" then ["c"]
  else [].

(** A worker that computes [chain] and leaves the world alone. *)
Definition chain_task (t : string) (w : unit) : option (list string) * unit :=
  (Some (chain t), w).

(** A page of six anchors, the last without [href], with the hrefs bs4 finds
    in it, and a parser that splits an href at its scheme and host as urllib
    does for the simplest URLs. *)
Definition sample_page : Response :=
  {| status_code := 200%Z; headers := [];
     text := "<html><a href='HEAD'>HEAD</a><a href='/'>/</a><a href='..'>..</a>"
             +++ "<a href='http://h/x'>x</a><a href='refs/'>refs/</a><a>top</a></html>" |}.

Definition sample_hrefs (page : string) : list (option string) :=
  if String.eqb page (text sample_page)
  then [Some "HEAD"; Some "/"; Some ".."; Some "http://h/x"; Some "refs/"; None]
  else [].

Definition sample_urlparse (href : option string) : ParseResult :=
  match href with
  | None =>
      {| scheme := ""; netloc := ""; path := "";
         params := ""; query := ""; fragment := "" |}
  | Some h =>
      if startswith h "http://h"
      then {| scheme := "http"; netloc := "h"; path := slice_from 8 h;
              params := ""; query := ""; fragment := "" |}
      else {| scheme := ""; netloc := ""; path := h;
              params := ""; query := ""; fragment := "" |}
  end.

(** [os.path.abspath(os.path.join(directory, filepath))] for a directory
    given by its absolute path and a plain relative path. *)
Definition sample_abspath (directory filepath : string) : string :=
  if String.eqb filepath "" then directory else directory +++ "/" +++ filepath.

(** A server that counts the requests it has answered: 403 to the first
    four, 200 from the fifth on. *)
Definition throttling (n : nat) (u : string) : Response * nat :=
  ({| status_code := if (n <? 4)%nat then 403%Z else 200%Z;
      headers := []; text := "[core]" |}, S n).

(** A server that answers 403 to everything. *)
Definition forbidding (n : nat) (u : string) : Response * nat :=
  ({| status_code := 403%Z; headers := []; text := "" |}, S n).

(** A server where nothing is found. *)
Definition nothing (n : nat) (u : string) : Response * nat :=
  ({| status_code := 404%Z; headers := []; text := "" |}, S n).

(** A decoder that knows no object, an index without entries, and packs
    without objects. *)
Definition no_object (content : string) : option ObjectRefs.ShaFile := None.

Definition no_blobs (content : string) : option (list (string * string * Z)) :=
  Some [].

Definition no_packed (data idx : option string)
  : option (list (string * ObjectRefs.ShaFile)) := Some [].

(** The line of [.git/info/refs] for a branch. *)
Definition info_refs : string :=
  "0123456789abcdef0123456789abcdef01234567"
  +++ String "009" ("refs/heads/feature/x" +++ String "010" "").

(** An output directory that is empty, and one left by an earlier run. *)
Definition empty_out : OS.FS := {| OS.files := ∅; OS.dirs := {["/out"]} |}.

Definition earlier_out : OS.FS :=
  {| OS.files := {[ "/out/.git/config" := "old"; "/out/.git/info/refs" := info_refs ]};
     OS.dirs := {[ "/out"; "/out/.git"; "/out/.git/info" ]} |}.

(** An output directory with the list of one pack, and one where a
    directory stands where [packed-refs] is expected. *)
Definition packs_out : OS.FS :=
  {| OS.files := {[ "/out/.git/objects/info/packs" :=
                      "P pack-0123456789abcdef0123456789abcdef01234567.pack" +++ nl ]};
     OS.dirs := {[ "/out"; "/out/.git"; "/out/.git/objects";
                   "/out/.git/objects/info" ]} |}.

Definition blocked_out : OS.FS :=
  {| OS.files := ∅; OS.dirs := {[ "/out"; "/out/.git"; "/out/.git/packed-refs" ]} |}.

Definition first_run : Workers.World nat :=
  {| Workers.fs := empty_out; Workers.server := 0; Workers.trace := [] |}.

Definition second_run : Workers.World nat :=
  {| Workers.fs := earlier_out; Workers.server := 0; Workers.trace := [] |}.

(** A server that lists [.git/], where it has [HEAD] and an empty [refs/],
    and the follow-ups of a recursive worker on it. *)
Definition listing (n : nat) (u : string) : Response * nat :=
  (if String.eqb u "http://h/.git/HEAD"
   then {| status_code := 200%Z; headers := [];
           text := "ref: refs/heads/master" +++ nl |}
   else if String.eqb u "http://h/.git/" then sample_page
   else {| status_code := 404%Z; headers := []; text := "" |},
   S n).

Definition listed (task : string) : list string :=
  if String.eqb task ".git/" then [".git/HEAD"; ".git/refs/"] else [].

(** The same server behind a limiter: the first request it gets is answered
    with 403. *)
Definition hesitant (n : nat) (u : string) : Response * nat :=
  match n with
  | O => ({| status_code := 403%Z; headers := []; text := "" |}, 1)
  | S _ => listing n u
  end.

(** The output directory after a run against that server. *)
Definition mirrored_out : OS.FS :=
  {| OS.files := {[ "/out/.git/HEAD" := "ref: refs/heads/master" +++ nl ]};
     OS.dirs := {[ "/out"; "/out/.git" ]} |}.

Definition mirrored_run : Workers.World nat :=
  {| Workers.fs := mirrored_out; Workers.server := 0; Workers.trace := [] |}.

End Samples.

(** ** The counter of pending tasks, and what tasks carry

    More about [process_tasks]: what its counter counts, what an exception
    in a worker does to it, and what holds of every task when it holds of
    the seeds. *)

Module Ledger.
Import Pool.

Section Machine.

Context {Task : Type} `{Countable Task}.
Context {World : Type}.

Variable jobs : nat.

(** The results the parent can still get: one for every task that waits in
    the pending queue, runs in a worker or lies answered in the result
    queue. *)
Definition backlog (s : @State Task _ _ World) : nat :=
  length (waiting (pending_tasks s)) + length (busy s) + length (tasks_done s).

(** The state line 109 leaves when [do_task] raises in the worker that runs
    the task between [before] and [after]: the worker process is gone and
    nothing is put on the result queue. *)
Definition crash (before after : list Task) (w : World)
    (s : @State Task _ _ World) : @State Task _ _ World :=
  {| tasks_seen := tasks_seen s;
     pending_tasks := pending_tasks s;
     tasks_done := tasks_done s;
     num_pending_tasks := num_pending_tasks s;
     control := control s;
     idle := idle s;
     busy := before ++ after;
     world := w;
     journal := journal s;
     calls := calls s |}.

(** The counter of line 131 against the queues and the workers. *)
Record accounts (s : @State Task _ _ World) : Prop := {
  accounts_backlog : backlog s <= num_pending_tasks s;
  accounts_collecting :
    forall rest, control s = Collecting rest ->
      pending_tasks s = Some <$> waiting (pending_tasks s) /\
      idle s + length (busy s) + (num_pending_tasks s - backlog s) = jobs;
  accounts_joining :
    control s = Joining ->
    num_pending_tasks s = 0 /\ pending_tasks s = replicate (idle s) None;
  accounts_returned :
    control s = Returned ->
    num_pending_tasks s = 0 /\ pending_tasks s = [] /\ idle s = 0
}.

(** What every task in the pool satisfies when the seeds do and [do_task]
    carries it over to the follow-ups. *)
Record carries (P : Task -> Prop) (s : @State Task _ _ World) : Prop := {
  carries_pending : forall t, Some t ∈ pending_tasks s -> P t;
  carries_busy : forall t, t ∈ busy s -> P t;
  carries_done : forall r t, r ∈ tasks_done s -> t ∈ r -> P t;
  carries_batch : forall rest t, control s = Collecting rest -> t ∈ rest -> P t;
  carries_calls : forall t, t ∈ calls s -> P t
}.

End Machine.

End Ledger.

Module Cases.
Import Samples.

(** A worker that computes [chain] and raises on b. *)
Definition brittle (t : string) (w : unit) : option (list string) * unit :=
  if String.eqb t "b" then (None, w) else (Some (chain t), w).

(** The pool of one such worker when it has taken the seed b. *)
Definition taken_b : @Pool.State string _ _ unit :=
  {| Pool.tasks_seen := {["b"]};
     Pool.pending_tasks := [];
     Pool.tasks_done := [];
     Pool.num_pending_tasks := 1;
     Pool.control := Pool.Collecting [];
     Pool.idle := 0;
     Pool.busy := ["b"];
     Pool.world := ();
     Pool.journal := [Pool.Put "b"; Pool.Add "b"];
     Pool.calls := ["b"] |}.

End Cases.

(** ** What a task does to the trace and to the output directory *)

Module Effects.
Import Py OS Http.

(** Every regular file of [before] is a regular file of [after], with the
    content it had. *)
Definition retains (before after : FS) : Prop :=
  forall p content, read p before = Some content -> read p after = Some content.

(** The events a task causes whose file has the URL [u]: GETs of [u], new
    sessions, sleeps of ten seconds and lines printed; no request of
    [url_get]. *)
Definition task_event (u : string) (e : Event) : Prop :=
  match e with
  | Get u' => u' = u
  | Probe _ => False
  | Sleep seconds => seconds = 10%Z
  | Init | Print _ => True
  end.

(** The events of a trace that are not lines printed. *)
Definition unprinted (events : list Event) : list Event :=
  List.filter (fun e => match e with Print _ => false | _ => true end) events.

(** What one attempt of a worker adds to the trace besides the line it
    prints: the GET and, when the answer has status 403, a new session and a
    sleep of ten seconds. *)
Definition attempt (u : string) (response : Response) : list Event :=
  Get u :: if (status_code response =? 403)%Z then [Init; Sleep 10] else [].

Section Bodies.

Variable Server : Type.
Variable serve : Server -> string -> Response * Server.
Variable abspath_join : string -> string -> string.
Variable directory : string.

Local Abbreviation World := (Workers.World Server).
Local Abbreviation replies := (Workers.replies Server serve).

(** The answers a loop of a worker gets when it may ask [budget] times: it
    asks again after an answer of 403 and after no other. *)
Fixpoint asked (budget : nat) (srv : Server) (u : string) : list Response :=
  match budget with
  | O => []
  | S budget =>
      let '(response, srv) := serve srv u in
      response :: if (status_code response =? 403)%Z then asked budget srv u else []
  end.

(** The guards of lines 182, 223, 273 and 323: the file of the task is in
    the output directory, and the task is not a directory of the recursive
    worker. *)
Definition cached (kind : Workers.Kind) (task : string) (w : World) : bool :=
  match kind with
  | Workers.RecursiveDownloadWorker =>
      negb (endswith task "/") && path_exists (abspath_join directory task) (Workers.fs w)
  | _ => path_exists (abspath_join directory (Workers.task_path kind task)) (Workers.fs w)
  end.

(** From [w] to [w'] the trace grew by the attempts for [answers] and by
    lines printed. *)
Definition attempted (u : string) (answers : list Response) (w w' : World) : Prop :=
  exists events,
    Workers.trace w' = Workers.trace w ++ events /\
    unprinted events = flat_map (attempt u) answers.

(** What a task adds to the trace: [events], with at most [budget] GETs. *)
Definition traced (u : string) (budget : nat) (w w' : World) : Prop :=
  exists events,
    Workers.trace w' = Workers.trace w ++ events /\
    Forall (task_event u) events /\
    length (gets events) <= budget /\
    inits events <= length (gets events) /\
    slept events = (10 * Z.of_nat (inits events))%Z.

(** What a task does to the output directory: nothing, or it stores the body
    of one of the next [budget] answers, one with status 200, in a file that
    was not there. *)
Definition stored (u abspath : string) (budget : nat) (w w' : World) : Prop :=
  Workers.fs w' = Workers.fs w \/
  exists response,
    response ∈ replies budget (Workers.server w) u /\
    status_code response = 200%Z /\
    path_exists abspath (Workers.fs w) = false /\
    Workers.fs w'
    = write abspath (text response) (create_intermediate_dirs abspath (Workers.fs w)).

End Bodies.

End Effects.

(** ** Where a run sends its requests *)

Module Reach.
Import Py OS Http Workers Effects.

(** A request of a URL below [base/.git]: of the [.git] directory, or of a
    file beside it whose name starts with [.git]. *)
Definition below_git (base : string) (e : Event) : Prop :=
  match e with
  | Get u | Probe u => exists rest, u = base +++ "/.git" +++ rest
  | _ => True
  end.

(** From [w] to [w']: every file is kept with its content, and every
    request in between is of a URL below [base/.git]. *)
Definition confined {Server : Type} (base : string) (w w' : World Server) : Prop :=
  retains (fs w) (fs w') /\
  exists events,
    trace w' = trace w ++ events /\ Forall (below_git base) events.

(** The tasks whose file is below [.git]. *)
Definition git_task (kind : Kind) (task : string) : Prop :=
  exists rest, task_path kind task = ".git" +++ rest.

End Reach.

(** ** Object ids *)

Module Ids.
Import Py Re.

(** A SHA-1 in hexadecimal as the two patterns take it: forty characters
    among [0-9] and [a-f]. *)
Definition is_sha1 (s : string) : Prop :=
  String.length s = 40 /\ forallb is_hex (list_ascii_of_string s) = true.

(** The text [pack-<h>.pack] followed by [rest]. *)
Definition pack_name (h rest : chars) : chars :=
  list_ascii_of_string "pack-" ++ h ++ list_ascii_of_string ".pack" ++ rest.

(** What [re.findall] reports for [pack-([a-f0-9]{40})\.pack] (line 481),
    told from the pattern: where the text left is [pack-], forty characters
    among [0-9] and [a-f] and [.pack], the forty characters are reported and
    the scan resumes after [.pack]; elsewhere it moves on by one
    character. *)
Inductive listed_packs : chars -> list string -> Prop :=
| listed_packs_end : listed_packs [] []
| listed_packs_hit h rest ids :
    length h = 40 -> forallb is_hex h = true ->
    listed_packs rest ids ->
    listed_packs (pack_name h rest) (string_of_list_ascii h :: ids)
| listed_packs_miss c s ids :
    (forall h rest, length h = 40 -> forallb is_hex h = true ->
                    c :: s <> pack_name h rest) ->
    listed_packs s ids ->
    listed_packs (c :: s) ids.

End Ids.

(** ** Relative paths *)

Module Paths.
Import Py.

(** The parts of a path between its slashes. *)
Fixpoint parts (p : string) : list string :=
  match p with
  | EmptyString => [""]
  | String c p' =>
      if Ascii.eqb c "/" then "" :: parts p'
      else match parts p' with
           | part :: rest => String c part :: rest
           | [] => [String c ""]
           end
  end.

(** A relative path in which [os.path.abspath] finds nothing to resolve: no
    part of it is empty, [.] or [..]. *)
Definition plain (p : string) : Prop :=
  Forall (fun part => part <> "" /\ part <> "." /\ part <> "..") (parts p).

(** [os.path.abspath(os.path.join(directory, p))] gives two plain paths that
    differ two files that differ. *)
Definition separates (abspath_join : string -> string -> string)
    (directory : string) : Prop :=
  forall p q, plain p -> plain q ->
    abspath_join directory p = abspath_join directory q -> p = q.

(** A text without a slash. *)
Definition no_slash (s : string) : Prop :=
  forallb (fun c => negb (Ascii.eqb c "/")) (list_ascii_of_string s) = true.

End Paths.

(** ** The command line *)

Module Main.
Import Py Re OS.

(** [args], as [parse_args] leaves it: [-j], [-r] and [-t] are integers,
    [--proxy] is a string or [None]. *)
Record Args := {
  url : string;
  directory : string;
  proxy : option string;
  jobs : Z;
  retry : Z;
  timeout : Z
}.

(** The proxy types of PySocks the script names. *)
Inductive ProxyType :=
| PROXY_TYPE_SOCKS5
| PROXY_TYPE_SOCKS4
| PROXY_TYPE_HTTP.

(** [\d] on a text of code points below 256: the digits 0 to 9. *)
Definition is_digit (c : ascii) : bool := between "0" "9" c.

(** The texts the dot of a pattern can run over, and those [\d+] matches
    in full. *)
Definition no_newline (host : string) : Prop :=
  forallb (fun c => negb (Ascii.eqb c "010")) (list_ascii_of_string host) = true.

Definition all_digits (port : string) : Prop :=
  port <> "" /\ forallb is_digit (list_ascii_of_string port) = true.

(** The number a text of digits spells. *)
Definition int_of_digits (s : chars) : Z :=
  fold_left (fun n c => (10 * n + (Z.of_nat (nat_of_ascii c) - 48))%Z) s 0%Z.

(** The text before the last colon and the text after it. *)
Fixpoint rsplit_colon (s : chars) : option (chars * chars) :=
  match s with
  | [] => None
  | c :: s' =>
      match rsplit_colon s' with
      | Some (before, after) => Some (c :: before, after)
      | None => if Ascii.eqb c ":" then Some ([], s') else None
      end
  end.

(** The text without its final newline, if it has one: [$] holds at the
    end of the text and before a final newline. *)
Fixpoint chomp (s : chars) : chars :=
  match s with
  | [] => []
  | c :: s' =>
      match s' with
      | [] => if Ascii.eqb c "010" then [] else [c]
      | _ :: _ => c :: chomp s'
      end
  end.

(** The tail the four patterns of lines 596-599 share, where the text left
    is [s]: a group of any characters, a colon, a group of one digit or more
    and [$]; the result is groups 1 and 2. The digits of group 2 hold no
    colon, so the colon of the pattern is the last colon of the text; the
    dot takes no newline. *)
Definition host_port (s : chars) : option (chars * chars) :=
  match rsplit_colon (chomp s) with
  | Some (host, port) =>
      if forallb (fun c => negb (Ascii.eqb c "010")) host
         && negb (bool_decide (port = [])) && forallb is_digit port
      then Some (host, port)
      else None
  | None => None
  end.

(** [re.match] of the text [s] against [^], [prefix] and that tail, for a
    prefix without special characters: [m.group(1)] and [m.group(2)]. *)
Definition match_proxy (prefix s : string) : option (string * string) :=
  match starts_with (list_ascii_of_string prefix) (list_ascii_of_string s) with
  | Some rest =>
      match host_port rest with
      | Some (host, port) => Some (string_of_list_ascii host, string_of_list_ascii port)
      | None => None
      end
  | None => None
  end.

(** Lines 595-599. *)
Definition proxy_patterns : list (string * ProxyType) :=
  [ ("socks5:", PROXY_TYPE_SOCKS5);
    ("socks4:", PROXY_TYPE_SOCKS4);
    ("http://", PROXY_TYPE_HTTP);
    ("", PROXY_TYPE_SOCKS5) ].

(** What lines 592-608 come to: the arguments of [socks.setdefaultproxy],
    or none when no proxy is asked for; [parser.error('invalid proxy')]; or
    the [ValueError] of [int] at line 602. *)
Inductive Proxy :=
| ProxySet (setting : option (ProxyType * string * Z))
| ProxyInvalid
| ProxyValueError.

(** How lines 577-620 end: in [parser.error], which prints the usage and
    the message on stderr and exits with status 2; in the [ValueError] of
    line 602; at the call of [os.makedirs] of line 612, for an output
    directory that does not exist (the errors of that call are not modelled,
    so the run is followed no further); or at the call of [fetch_git] of line
    623. The last two carry the proxy that was set. *)
Inductive Start :=
| ParserError (message : string)
| Raises
| Makedirs (setting : option (ProxyType * string * Z))
| Fetch (setting : option (ProxyType * string * Z)).


Section Proxy.

(** [sys.get_int_max_str_digits()]: the most digits [int] converts, 4300
    unless the interpreter is configured otherwise; 0 where there is no
    limit, as on a Python that has none. *)
Variable int_max_str_digits : nat.

(** The text has no more digits than [int] converts. *)
Definition within_limit (digits : string) : bool :=
  (int_max_str_digits =? 0)%nat || (String.length digits <=? int_max_str_digits)%nat.

(** [int(s)] for a text of digits; [None] when it raises [ValueError]. *)
Definition int (digits : string) : option Z :=
  if within_limit digits then Some (int_of_digits (list_ascii_of_string digits))
  else None.

(** The loop of lines 595-605, for the first pattern that matches. *)
Fixpoint find_proxy (patterns : list (string * ProxyType)) (s : string) : Proxy :=
  match patterns with
  | [] => ProxyInvalid
  | (prefix, proxy_type) :: patterns =>
      match match_proxy prefix s with
      | Some (host, port) =>
          match int port with
          | Some port => ProxySet (Some (proxy_type, host, port))
          | None => ProxyValueError
          end
      | None => find_proxy patterns s
      end
  end.

(** Lines 592-608. *)
Definition proxy_setting (args : Args) : Proxy :=
  match proxy args with
  | Some p => if truthy p then find_proxy proxy_patterns p else ProxySet None
  | None => ProxySet None
  end.

Variable abspath_join : string -> string -> string.

(** Lines 579-620, on the file system [disk]. *)
Definition start (args : Args) (disk : FS) : Start :=
  if (jobs args <? 1)%Z then ParserError "invalid number of jobs"
  else if (retry args <? 1)%Z then ParserError "invalid number of retries"
  else if (timeout args <? 1)%Z then ParserError "invalid timeout"
  else
    match proxy_setting args with
    | ProxyInvalid => ParserError "invalid proxy"
    | ProxyValueError => Raises
    | ProxySet setting =>
        let d := abspath_join (directory args) "" in
        if negb (path_exists d disk) then Makedirs setting
        else if negb (isdir d disk)
        then ParserError (directory args +++ " is not a directory")
        else Fetch setting
    end.

End Proxy.

End Main.

(** * Part II: properties *)

(** ** The regular expressions *)

Module ReFacts.
Import Re.

Lemma starts_with_spec (p s rest : chars) :
  starts_with p s = Some rest <-> s = p ++ rest.
Proof.
  revert s. induction p as [|a p IH]; intros s; simpl.
  - split; congruence.
  - destruct s as [|b s]; [split; discriminate|].
    destruct (Ascii.eqb a b) eqn:E.
    + apply Ascii.eqb_eq in E as ->. rewrite IH. split; congruence.
    + apply Ascii.eqb_neq in E. split; [discriminate | congruence].
Qed.

Lemma slash_not_ref_char : is_ref_char "/" = false.
Proof. reflexivity. Qed.

Lemma segments_length b (s : chars) : segments b s <= length s.
Proof.
  revert b. induction s as [|c s IH]; intros b; simpl; [lia|].
  destruct (is_ref_char c).
  - destruct b; [specialize (IH true)|]; lia.
  - destruct (Ascii.eqb c "/"); [|lia].
    destruct s as [|c' s']; [lia|].
    destruct (is_ref_char c'); [specialize (IH true)|]; lia.
Qed.

(** What [segments] takes is a run of the class, empty unless a segment is
    open, followed by groups. *)
Lemma segments_sound b (s : chars) :
  exists run groups,
    take (segments b s) s = run ++ concat groups /\
    forallb is_ref_char run = true /\
    Forall ref_group groups /\
    (b = false -> run = []).
Proof.
  revert b. induction s as [|c s IH]; intros b.
  { exists [], []. by repeat split. }
  cbn [segments]. destruct (is_ref_char c) eqn:Hc.
  - destruct b.
    + destruct (IH true) as (run & groups & Htake & Hrun & Hgroups & _).
      exists (c :: run), groups. cbn [take]. rewrite Htake.
      repeat split; try done. simpl. by rewrite Hc.
    + exists [], []. by repeat split.
  - destruct (Ascii.eqb c "/") eqn:Hs.
    2: { exists [], []. by repeat split. }
    apply Ascii.eqb_eq in Hs as ->.
    destruct s as [|c' s'].
    { exists [], []. by repeat split. }
    destruct (is_ref_char c') eqn:Hc'.
    2: { exists [], []. by repeat split. }
    destruct (IH true) as (run & groups & Htake & Hrun & Hgroups & _).
    exists [], (("/"%char :: run) :: groups). cbn [take]. rewrite Htake.
    split; [done|]. split; [done|]. split; [|done].
    constructor; [|done]. exists run. split; [done|]. split; [|done].
    intros ->. cbn [segments] in Htake. rewrite Hc' in Htake. cbn [take app] in Htake.
    destruct groups as [|g groups]; [discriminate|].
    apply Forall_cons in Hgroups as [(r & -> & _) _]. simpl in Htake.
    injection Htake as -> _. by rewrite slash_not_ref_char in Hc'.
Qed.

(** And nothing of that shape at the start of the text is longer. *)
Lemma segments_longest b (s run : chars) (groups : list chars) :
  forallb is_ref_char run = true ->
  Forall ref_group groups ->
  (b = false -> run = []) ->
  (run ++ concat groups) `prefix_of` s ->
  length (run ++ concat groups) <= segments b s.
Proof.
  revert b run groups. induction s as [|c s IH]; intros b run groups Hrun Hgroups Hb Hpre.
  { apply prefix_nil_inv in Hpre. rewrite Hpre. simpl. lia. }
  destruct run as [|r run].
  - destruct groups as [|g groups]; [simpl; lia|].
    apply Forall_cons in Hgroups as [(grun & -> & Hne & Hgrun) Hgroups].
    destruct grun as [|r grun]; [done|].
    cbn [app concat] in Hpre.
    pose proof (prefix_cons_inv_1 _ _ _ _ Hpre) as <-.
    apply prefix_cons_inv_2 in Hpre.
    destruct s as [|c' s']; [by apply prefix_nil_inv in Hpre|].
    pose proof (prefix_cons_inv_1 _ _ _ _ Hpre) as <-.
    pose proof Hgrun as Hgrun'. simpl in Hgrun'.
    apply andb_true_iff in Hgrun' as [Hr _].
    cbn [segments]. rewrite slash_not_ref_char, Hr. cbn [Ascii.eqb Bool.eqb andb].
    specialize (IH true (r :: grun) groups Hgrun Hgroups (fun E => ltac:(discriminate E))).
    cbn [app concat length] in *. rewrite !length_app in *. cbn [length] in *.
    specialize (IH Hpre). cbn [segments] in IH. rewrite Hr in IH. lia.
  - destruct b; [|by specialize (Hb eq_refl)].
    cbn [app] in Hpre.
    pose proof (prefix_cons_inv_1 _ _ _ _ Hpre) as <-.
    apply prefix_cons_inv_2 in Hpre.
    simpl in Hrun. apply andb_true_iff in Hrun as [Hr Hrun].
    cbn [segments]. rewrite Hr.
    specialize (IH true run groups Hrun Hgroups (fun E => ltac:(discriminate E)) Hpre).
    cbn [app length]. lia.
Qed.

(** The matcher finds the longest word of the pattern that starts the text,
    and fails only when no word of the pattern starts it. *)
Lemma ref_matcher_longest : reports_longest ref_word ref_matcher.
Proof.
  intros at_start s. unfold ref_matcher.
  destruct (starts_with (list_ascii_of_string "refs") s) as [rest|] eqn:Hrefs.
  - apply starts_with_spec in Hrefs as ->.
    assert (Hlong : forall m, ref_word m ->
              m `prefix_of` (list_ascii_of_string "refs" ++ rest) ->
              length m <= 4 + segments false rest /\ 0 < segments false rest).
    { intros m (groups & Hne & Hgroups & ->) Hpre.
      apply prefix_app_inv in Hpre.
      pose proof (segments_longest false rest [] groups eq_refl Hgroups
                    (fun _ => eq_refl) Hpre) as Hlen.
      rewrite length_app. simpl in *. split; [lia|].
      destruct groups as [|g groups]; [done|].
      apply Forall_cons in Hgroups as [(run & -> & _) _]. simpl in Hlen. lia. }
    destruct (segments false rest) as [|n] eqn:Hseg.
    + intros m Hm Hpre. destruct (Hlong m Hm Hpre). lia.
    + pose proof (segments_length false rest) as Hle. rewrite Hseg in Hle.
      destruct (segments_sound false rest) as (run & groups & Htake & _ & Hgroups & Hrun).
      rewrite (Hrun eq_refl), Hseg in Htake. simpl in Htake.
      split; [done|]. split.
      { rewrite length_take, length_app.
        change (length (list_ascii_of_string "refs")) with 4. lia. }
      split; [lia|]. split.
      * exists groups. split.
        { intros ->. simpl in Htake. destruct rest; [simpl in Hle; lia | discriminate]. }
        split; [done|].
        change (4 + S n) with (length (list_ascii_of_string "refs") + S n).
        rewrite take_app_add. by rewrite Htake.
      * intros m Hm Hpre. by destruct (Hlong m Hm Hpre).
  - intros m (groups & _ & _ & ->) [k Hk].
    assert (Hsome : starts_with (list_ascii_of_string "refs") s = Some (concat groups ++ k)).
    { apply starts_with_spec. by rewrite Hk, <- app_assoc. }
    congruence.
Qed.

(** [findall_go] with its counter at zero reports what [scans] tells. *)
Lemma findall_go_skip (m : matcher) (k : nat) (s : chars) :
  findall_go m false k s = findall_go m false 0 (drop k s).
Proof.
  revert k. induction s as [|c s IH]; intros k; [by destruct k|].
  destruct k as [|k]; [done|]. simpl. apply IH.
Qed.

Lemma findall_go_scans (m : matcher) at_start (s : chars) :
  (forall b t capture, m b t <> Some (0, capture)) ->
  scans m at_start s (findall_go m at_start 0 s).
Proof.
  intros Hpos.
  remember (length s) as len eqn:Hlen. revert at_start s Hlen.
  induction (lt_wf len) as [len _ IH]. intros at_start s ->.
  destruct s as [|c s]; [constructor|].
  cbn [findall_go]. destruct (m at_start (c :: s)) as [[n capture]|] eqn:Hm.
  - destruct n as [|n]; [by apply Hpos in Hm|].
    apply scans_hit with n; [done|]. cbn [pred]. rewrite findall_go_skip.
    eapply IH; [|done]. rewrite length_drop. simpl. lia.
  - apply scans_miss; [done|]. eapply IH; [|done]. simpl. lia.
Qed.

Lemma scans_words (word : chars -> Prop) (m : matcher) at_start s found :
  reports_longest word m -> scans m at_start s found -> Forall word found.
Proof.
  intros Hm. induction 1 as [| |at_start c s n capture found Hhit _ IH]; try done.
  constructor; [|done]. specialize (Hm at_start (c :: s)). rewrite Hhit in Hm.
  by destruct Hm as (_ & _ & _ & ? & _).
Qed.

(** The matches [find_refs] returns are the captures of a scan of the text
    from its start, and each is a word of the pattern. *)
Lemma find_refs_scans (text : string) :
  exists found,
    scans ref_matcher true (list_ascii_of_string text) found /\
    Forall ref_word found /\
    find_refs text = string_of_list_ascii <$> found.
Proof.
  exists (findall_go ref_matcher true 0 (list_ascii_of_string text)).
  assert (Hscan : scans ref_matcher true (list_ascii_of_string text)
                    (findall_go ref_matcher true 0 (list_ascii_of_string text))).
  { apply findall_go_scans. intros b t capture Hz.
    pose proof (ref_matcher_longest b t) as Hm. rewrite Hz in Hm.
    destruct Hm as (_ & _ & ? & _). lia. }
  split; [done|]. split; [|done].
  by eapply scans_words; [apply ref_matcher_longest|].
Qed.

End ReFacts.

(** ** The object-reference extractor *)

Module ObjectRefsFacts.
Import Py ObjectRefs.

Lemma fold_append {A B} (g : A -> B) (l : list A) (acc : list B) :
  fold_left (fun objs x => objs ++ [g x]) l acc = acc ++ map g l.
Proof.
  revert acc. induction l as [|x l IH]; intros acc; simpl.
  - by rewrite app_nil_r.
  - rewrite IH. by rewrite <- app_assoc.
Qed.

(** C3. For a commit the extractor returns the tree id followed by every
    parent id, for a tree the id of every entry in order, and for a blob the
    empty list; in none of the three cases does it exit. *)
Theorem get_referenced_sha1_emits :
  (forall tree parents message,
      get_referenced_sha1 (Commit tree parents message)
      = (Ok (tree :: parents), None)) /\
  (forall items,
      get_referenced_sha1 (Tree items) = (Ok (map te_sha items), None)) /\
  (forall data, get_referenced_sha1 (Blob data) = (Ok [], None)).
Proof.
  split; [|split]; intros; unfold get_referenced_sha1.
  - rewrite (fold_append (fun p => p)). by rewrite map_id.
  - by rewrite fold_append.
  - done.
Qed.

Example commit_with_two_parents :
  get_referenced_sha1 (Commit "t0" ["p1"; "p2"] "merge")
  = (Ok ["t0"; "p1"; "p2"], None).
Proof. reflexivity. Qed.

(** C4, as the claim states it, fails: on an annotated tag that points to a
    commit the extractor returns no list at all, so it does not emit the
    target id; it exits with status 1. *)
Lemma tag_target_not_emitted :
  let tag := Tag "commit" "aaaaaaaaaaaaaaaaaaaaaaaaaaaaaaaaaaaaaaaa" "v1.0" in
  fst (get_referenced_sha1 tag) = Exit 1%Z /\
  fst (get_referenced_sha1 tag) <> Ok ["aaaaaaaaaaaaaaaaaaaaaaaaaaaaaaaaaaaaaaaa"].
Proof. split; [reflexivity | discriminate]. Qed.

(** C4, amended. Every tag object is an unexpected object for the
    extractor: it reports the object and exits with status 1, whatever the
    target, and emits no id. *)
Theorem get_referenced_sha1_tag_exits :
  forall object_type object_sha name,
    get_referenced_sha1 (Tag object_type object_sha name)
    = (Exit 1%Z, Some (Tag object_type object_sha name)) /\
    forall objs, fst (get_referenced_sha1 (Tag object_type object_sha name)) <> Ok objs.
Proof. intros. split; [reflexivity | discriminate]. Qed.

End ObjectRefsFacts.

(** ** The directory-listing parser *)

Module ListingFacts.
Import Py Http Listing Samples.

Section Parser.

Variable find_all_a_href : string -> list (option string).
Variable urlparse : option string -> ParseResult.

Lemma get_indexed_files_acc (links : list (option string)) (acc : list string) :
  fold_left
    (fun files link =>
       let url := urlparse link in
       if keep url then files ++ [path url] else files)
    links acc
  = acc ++ map (fun link => path (urlparse link))
               (List.filter (fun link => keep (urlparse link)) links).
Proof.
  revert acc. induction links as [|l links IH]; intros acc; simpl.
  - by rewrite app_nil_r.
  - rewrite IH. destruct (keep (urlparse l)); simpl; [|done].
    by rewrite <- app_assoc.
Qed.

(** The listing is the path of every anchor that passes the test of lines
    44-49, in document order. *)
Lemma get_indexed_files_filter (response : Response) :
  get_indexed_files find_all_a_href urlparse response
  = map (fun link => path (urlparse link))
        (List.filter (fun link => keep (urlparse link))
                     (find_all_a_href (text response))).
Proof. unfold get_indexed_files. by rewrite get_indexed_files_acc. Qed.

Lemma keep_spec (url : ParseResult) :
  keep url = true ->
  path url <> "" /\ path url <> "." /\ path url <> ".." /\
  startswith (path url) "/" = false /\ scheme url = "" /\ netloc url = "".
Proof.
  unfold keep, truthy. rewrite !andb_true_iff, !negb_true_iff, !negb_false_iff.
  rewrite !String.eqb_neq, !String.eqb_eq. tauto.
Qed.

(** C5. Every path the parser returns is not empty, is neither [.] nor [..],
    does not start with a slash, and is the path of an anchor of the page
    whose parsed href has an empty scheme and an empty host. *)
Theorem get_indexed_files_relative (response : Response) (p : string) :
  In p (get_indexed_files find_all_a_href urlparse response) ->
  p <> "" /\ p <> "." /\ p <> ".." /\ startswith p "/" = false /\
  exists link,
    In link (find_all_a_href (text response)) /\
    path (urlparse link) = p /\
    scheme (urlparse link) = "" /\
    netloc (urlparse link) = "".
Proof.
  rewrite get_indexed_files_filter, in_map_iff.
  intros (link & <- & Hin). apply filter_In in Hin as [Hin Hkeep].
  apply keep_spec in Hkeep as (? & ? & ? & ? & ? & ?).
  repeat split; try done. by exists link.
Qed.

End Parser.

Example sample_listing :
  get_indexed_files sample_hrefs sample_urlparse sample_page = ["HEAD"; "refs/"].
Proof. reflexivity. Qed.

Lemma get_indexed_files_relative_witness :
  In "refs/" (get_indexed_files sample_hrefs sample_urlparse sample_page) /\
  "refs/" <> "" /\ startswith "refs/" "/" = false.
Proof.
  assert (Hin : In "refs/" (get_indexed_files sample_hrefs sample_urlparse sample_page))
    by (right; left; reflexivity).
  split; [exact Hin|].
  destruct (get_indexed_files_relative sample_hrefs sample_urlparse sample_page "refs/" Hin)
    as (H1 & _ & _ & H4 & _).
  split; [exact H1 | exact H4].
Defined.

End ListingFacts.

(** ** The worker pool *)

Module PoolFacts.
Import Pool.

Section Machine.

Context {Task : Type} `{Countable Task}.
Context {World : Type}.

Variable do_task : Task -> World -> option (list Task) * World.
Variable jobs : nat.

Local Abbreviation State := (@State Task _ _ World).
Local Abbreviation step := (@step Task _ _ World do_task jobs).
Local Abbreviation feed := (fold_left (fun (s : State) task => offer task s)).

Lemma puts_app (j1 j2 : list (@Action Task)) : puts (j1 ++ j2) = puts j1 ++ puts j2.
Proof. apply omap_app. Qed.

Lemma waiting_app (q1 q2 : list (option Task)) :
  waiting (q1 ++ q2) = waiting q1 ++ waiting q2.
Proof. apply omap_app. Qed.

Lemma waiting_signals n : waiting (replicate n (@None Task)) = [].
Proof. induction n; simpl; auto. Qed.

Lemma waiting_somes (l : list Task) : waiting (Some <$> l) = l.
Proof. unfold waiting. induction l; csimpl; by f_equal. Qed.

Lemma offer_with_control c task (s : State) :
  offer task (with_control c s) = with_control c (offer task s).
Proof. unfold offer. simpl. by destruct (decide _). Qed.

Lemma with_control_id (s : State) c : control s = c -> with_control c s = s.
Proof. intros <-. by destruct s. Qed.

Lemma with_control_twice c c' (s : State) :
  with_control c (with_control c' s) = with_control c s.
Proof. done. Qed.

Lemma control_offer task (s : State) : control (offer task s) = control s.
Proof. unfold offer. by destruct (decide _). Qed.

Lemma control_feed l (s : State) : control (feed l s) = control s.
Proof.
  revert s. induction l as [|t l IH]; intros s; simpl; [done|].
  by rewrite IH, control_offer.
Qed.

(** The loop of lines 134-140 does what the loop of lines 154-160 does to a
    batch: the state at line 143 is reached by offering the seeds one by
    one. *)
Lemma feed_steps l (s : State) :
  rtc step (with_control (Collecting l) s) (with_control (Collecting []) (feed l s)).
Proof.
  revert s. induction l as [|t l IH]; intros s; simpl.
  - apply rtc_refl.
  - eapply rtc_l; [| apply IH].
    replace (with_control (Collecting l) (offer t s))
      with (with_control (Collecting l) (offer t (with_control (Collecting (t :: l)) s))).
    + by apply parent_offer.
    + by rewrite offer_with_control.
Qed.

Lemma start_reachable (initial : list Task) (done : option (gset Task)) (w : World) :
  rtc step (with_control (Collecting initial) (blank jobs done w))
           (start jobs initial done w).
Proof.
  unfold start.
  rewrite <- (with_control_id (feed initial (blank jobs done w)) (Collecting [])).
  - apply feed_steps.
  - by rewrite control_feed.
Qed.

(** *** No task is put twice *)

Lemma dedup_enqueue d task (s : State) :
  dedup d s -> task ∉ tasks_seen s -> dedup d (enqueue task s).
Proof.
  intros [Hseen Hfifo Honce Hnew Hpairs] Hfresh.
  rewrite Hseen in Hfresh.
  split; simpl; rewrite ?puts_app, ?waiting_app; simpl.
  - rewrite Hseen, list_to_set_app_L. simpl.
    rewrite (right_id_L ∅ (∪)). by rewrite (assoc_L (∪)).
  - rewrite Hfifo. by rewrite <- app_assoc.
  - apply NoDup_app. split; [done|]. split; [|apply NoDup_singleton].
    intros t Ht ->%list_elem_of_singleton.
    apply Hfresh, elem_of_union_r. by apply elem_of_list_to_set.
  - intros t [Ht| ->%list_elem_of_singleton]%elem_of_app; [by apply Hnew |].
    intros Hd. by apply Hfresh, elem_of_union_l.
  - rewrite flat_map_app. simpl. by rewrite <- Hpairs.
Qed.

Lemma dedup_offer d task (s : State) : dedup d s -> dedup d (offer task s).
Proof.
  intros Hs. unfold offer. destruct (decide _); [done|]. by apply dedup_enqueue.
Qed.

Lemma dedup_with_control d c (s : State) : dedup d s -> dedup d (with_control c s).
Proof. by intros []. Qed.

Lemma dedup_step d (s s' : State) : dedup d s -> step s s' -> dedup d s'.
Proof.
  intros Hs Hstep.
  destruct Hstep; try (destruct Hs; split; simpl; done).
  - destruct Hs as [Hseen Hfifo Honce Hnew Hpairs]. split; simpl; try done.
    rewrite Hfifo. match goal with E : pending_tasks _ = _ |- _ => rewrite E end.
    simpl. by rewrite <- app_assoc.
  - destruct Hs as [Hseen Hfifo Honce Hnew Hpairs]. split; simpl; try done.
    rewrite Hfifo. match goal with E : pending_tasks _ = _ |- _ => rewrite E end.
    done.
  - by apply dedup_with_control, dedup_offer.
  - destruct Hs as [Hseen Hfifo Honce Hnew Hpairs]. split; simpl; try done.
    rewrite waiting_app, waiting_signals. by rewrite app_nil_r.
Qed.

Lemma dedup_blank (initial : list Task) (done : option (gset Task)) (w : World) :
  dedup (given done) (with_control (Collecting initial) (blank jobs done w)).
Proof.
  split; simpl; try done.
  - by rewrite (right_id_L ∅ (∪)).
  - apply NoDup_nil_2.
  - intros t Ht. by apply elem_of_nil in Ht.
Qed.

Lemma dedup_steps d (s s' : State) : dedup d s -> rtc step s s' -> dedup d s'.
Proof. intros Hs Hrtc. induction Hrtc; eauto using dedup_step. Qed.

Lemma dedup_reachable (initial : list Task) (done : option (gset Task))
    (w : World) (s : State) :
  rtc step (start jobs initial done w) s -> dedup (given done) s.
Proof.
  intros Hrtc. eapply dedup_steps; [apply dedup_blank|].
  etrans; [apply start_reachable | exact Hrtc].
Qed.

(** *** The tasks called are the tasks explored *)

Section Explores.

Variable follow_ups : Task -> list Task.
Hypothesis do_task_follow_ups :
  forall t w, fst (do_task t w) = Some (follow_ups t).
Variable done : option (gset Task).
Variable seeds : list Task.

Local Abbreviation explores := (@explores Task _ _ World jobs follow_ups (given done) seeds).
Local Abbreviation settled := (@settled Task _ _ World follow_ups).

Lemma explores_worker_get (s : State) task rest n :
  pending_tasks s = Some task :: rest ->
  idle s = S n ->
  explores s ->
  explores {| tasks_seen := tasks_seen s;
              pending_tasks := rest;
              tasks_done := tasks_done s;
              num_pending_tasks := num_pending_tasks s;
              control := control s;
              idle := n;
              busy := busy s ++ [task];
              world := world s;
              journal := journal s;
              calls := calls s ++ [task] |}.
Proof.
  intros Hq Hidle [Hputs Hseeds Hres Hbatch Hbusy Hsett Hcount Hjoin Hret].
  split; simpl; try done.
  - intros r u Hr Hu. destruct (Hres r u Hr Hu) as (t & Ht & Hut).
    exists t. split; [|done]. apply elem_of_app. by left.
  - intros b u Hc Hu. destruct (Hbatch b u Hc Hu) as [?|(t & Ht & Hut)]; [by left|].
    right. exists t. split; [|done]. apply elem_of_app. by left.
  - intros t [Ht|Ht]%elem_of_app; apply elem_of_app; [left; auto | by right].
  - intros t [Ht| ->%list_elem_of_singleton]%elem_of_app.
    + destruct (Hsett t Ht) as [Hb|[Hd|Hs]].
      * left. apply elem_of_app. by left.
      * right. by left.
      * right. right. exact Hs.
    + left. apply elem_of_app. right. by apply list_elem_of_singleton.
  - intros b Hc. destruct (Hcount b Hc) as (Hnum & Hsome & Hjobs).
    rewrite Hq in Hnum, Hsome. simpl in Hnum, Hsome.
    injection Hsome as Hsome. rewrite length_app. simpl.
    split; [lia|]. split; [done | lia].
  - intros Hc. destruct (Hjoin Hc) as (Hp & _). rewrite Hq, Hidle in Hp. discriminate.
  - intros Hc. destruct (Hret Hc) as (Hp & _). rewrite Hq in Hp. discriminate.
Qed.

Lemma do_task_result task (w : World) :
  exists w', do_task task w = (Some (follow_ups task), w').
Proof.
  specialize (do_task_follow_ups task w).
  destruct (do_task task w) as [r w']. simpl in *. subst. by exists w'.
Qed.

Lemma explores_worker_put (s : State) before task after result w :
  busy s = before ++ task :: after ->
  do_task task (world s) = (Some result, w) ->
  explores s ->
  explores {| tasks_seen := tasks_seen s;
              pending_tasks := pending_tasks s;
              tasks_done := tasks_done s ++ [result];
              num_pending_tasks := num_pending_tasks s;
              control := control s;
              idle := S (idle s);
              busy := before ++ after;
              world := w;
              journal := journal s;
              calls := calls s |}.
Proof.
  intros Hb Hdo [Hputs Hseeds Hres Hbatch Hbusy Hsett Hcount Hjoin Hret].
  assert (result = follow_ups task) as ->.
  { specialize (do_task_follow_ups task (world s)). rewrite Hdo in do_task_follow_ups.
    simpl in *. congruence. }
  assert (Htask : task ∈ calls s).
  { apply Hbusy. rewrite Hb. apply elem_of_app. right. apply elem_of_cons. by left. }
  split; simpl; try done.
  - intros r u [Hr| ->%list_elem_of_singleton]%elem_of_app Hu; [eauto|].
    by exists task.
  - intros t Ht. apply Hbusy. rewrite Hb.
    apply elem_of_app in Ht as [Ht|Ht]; apply elem_of_app; [by left|].
    right. apply elem_of_cons. by right.
  - intros t Ht. destruct (Hsett t Ht) as [Hin|[Hd|Hs]].
    + rewrite Hb in Hin.
      apply elem_of_app in Hin as [Hin|[->|Hin]%elem_of_cons].
      * left. apply elem_of_app. by left.
      * right. left. apply elem_of_app. right. by apply list_elem_of_singleton.
      * left. apply elem_of_app. by right.
    + right. left. apply elem_of_app. by left.
    + right. right. exact Hs.
  - intros b Hc. destruct (Hcount b Hc) as (Hnum & Hsome & Hjobs).
    rewrite Hb in Hnum, Hjobs. rewrite !length_app in *. simpl in *.
    split; [lia|]. split; [done | lia].
  - intros Hc. destruct (Hjoin Hc) as (_ & Hnil & _). rewrite Hb in Hnil.
    by destruct before.
  - intros Hc. destruct (Hret Hc) as (_ & Hnil & _). rewrite Hb in Hnil.
    by destruct before.
Qed.

Lemma explores_worker_return (s : State) rest n :
  pending_tasks s = None :: rest ->
  idle s = S n ->
  explores s ->
  explores {| tasks_seen := tasks_seen s;
              pending_tasks := rest;
              tasks_done := tasks_done s;
              num_pending_tasks := num_pending_tasks s;
              control := control s;
              idle := n;
              busy := busy s;
              world := world s;
              journal := journal s;
              calls := calls s |}.
Proof.
  intros Hq Hidle [Hputs Hseeds Hres Hbatch Hbusy Hsett Hcount Hjoin Hret].
  split; simpl; try done.
  - intros b Hc. destruct (Hcount b Hc) as (_ & Hsome & _).
    rewrite Hq in Hsome. simpl in Hsome.
    by destruct (waiting rest).
  - intros Hc. destruct (Hjoin Hc) as (Hp & Hb & Hd).
    rewrite Hq, Hidle in Hp. simpl in Hp. injection Hp as Hp. done.
  - intros Hc. destruct (Hret Hc) as (_ & _ & _ & Hi). congruence.
Qed.

Lemma explores_parent_get (s : State) task_result rest n :
  control s = Collecting [] ->
  num_pending_tasks s = S n ->
  tasks_done s = task_result :: rest ->
  explores s ->
  explores {| tasks_seen := tasks_seen s;
              pending_tasks := pending_tasks s;
              tasks_done := rest;
              num_pending_tasks := n;
              control := Collecting task_result;
              idle := idle s;
              busy := busy s;
              world := world s;
              journal := journal s;
              calls := calls s |}.
Proof.
  intros Hc Hn Hd [Hputs Hseeds Hres Hbatch Hbusy Hsett Hcount Hjoin Hret].
  assert (Hnone : forall u, (exists b, control s = Collecting b /\ u ∈ b) -> False).
  { intros u (b & Hb & Hu). rewrite Hc in Hb. injection Hb as <-.
    by apply elem_of_nil in Hu. }
  split; simpl; try done.
  - intros t Ht. destruct (Hseeds t Ht) as [?|Hb]; [by left | by destruct (Hnone t)].
  - intros r u Hr Hu. apply (Hres r u); [|done]. rewrite Hd. apply elem_of_cons. by right.
  - intros b u [= <-] Hu. right. apply (Hres task_result u); [|done].
    rewrite Hd. apply elem_of_cons. by left.
  - intros t Ht. destruct (Hsett t Ht) as [Hin|[Hin|Hs]].
    + by left.
    + rewrite Hd in Hin. apply elem_of_cons in Hin as [Heq|Hin].
      * right. right. intros u Hu. right. exists task_result. split; [done|].
        by rewrite <- Heq.
      * right. by left.
    + right. right. intros u Hu. destruct (Hs u Hu) as [?|Hb]; [by left|].
      by destruct (Hnone u).
  - intros b _. destruct (Hcount [] Hc) as (Hnum & Hsome & Hjobs).
    rewrite Hd in Hnum. simpl in Hnum. split; [lia|]. done.
Qed.

Lemma explores_parent_offer (s : State) task rest :
  control s = Collecting (task :: rest) ->
  dedup (given done) s ->
  explores s ->
  explores (with_control (Collecting rest) (offer task s)).
Proof.
  intros Hc [Dseen Dfifo _ _ _] [Hputs Hseeds Hres Hbatch Hbusy Hsett Hcount Hjoin Hret].
  assert (Hahead : forall u,
    (u ∈ tasks_seen s \/ exists b, control s = Collecting b /\ u ∈ b) ->
    u ∈ tasks_seen (offer task s) \/ u ∈ rest).
  { intros u [Hu|(b & Hb & Hu)].
    - left. unfold offer. destruct (decide _); [done|]. simpl.
      by apply elem_of_union_l.
    - rewrite Hc in Hb. injection Hb as <-.
      apply elem_of_cons in Hu as [->|Hu]; [|by right].
      left. unfold offer. destruct (decide _); [done|]. simpl.
      by apply elem_of_union_r, elem_of_singleton. }
  destruct (Hcount _ Hc) as (Hnum & Hsome & Hjobs).
  unfold offer in *. destruct (decide (task ∈ tasks_seen s)) as [Hin|Hnew].
  - split; simpl; try done.
    + intros t Ht. destruct (Hahead t (Hseeds t Ht)); [by left|]. right. by exists rest.
    + intros b u [= <-] Hu. apply (Hbatch (task :: rest)); [done|].
      apply elem_of_cons. by right.
    + intros t Ht. destruct (Hsett t Ht) as [?|[?|Hs]]; [by left | by right; left |].
      right. right. intros u Hu. destruct (Hahead u (Hs u Hu)); [by left|].
      right. by exists rest.
  - split; simpl; try done.
    + intros t. rewrite puts_app. simpl.
      intros [Ht| ->%list_elem_of_singleton]%elem_of_app; [by apply Hputs|].
      assert (Hnd : task ∉ given done).
      { intros Hd. apply Hnew. rewrite Dseen. by apply elem_of_union_l. }
      destruct (Hbatch (task :: rest) task Hc) as [Hseed|(t & Ht & Hu)].
      * apply elem_of_cons. by left.
      * by apply explored_seed.
      * apply explored_next with t; [|done|done].
        apply Hputs. rewrite Dfifo. apply elem_of_app. by left.
    + intros t Ht. destruct (Hahead t (Hseeds t Ht)); [by left|]. right. by exists rest.
    + intros b u [= <-] Hu. apply (Hbatch (task :: rest)); [done|].
      apply elem_of_cons. by right.
    + intros t Ht. destruct (Hsett t Ht) as [?|[?|Hs]]; [by left | by right; left |].
      right. right. intros u Hu. destruct (Hahead u (Hs u Hu)); [by left|].
      right. by exists rest.
    + intros b _. rewrite waiting_app, length_app, fmap_app. simpl.
      split; [lia|]. split; [|done]. by rewrite <- Hsome.
Qed.

Lemma explores_parent_signal (s : State) :
  control s = Collecting [] ->
  num_pending_tasks s = 0 ->
  explores s ->
  explores {| tasks_seen := tasks_seen s;
              pending_tasks := pending_tasks s ++ replicate jobs None;
              tasks_done := tasks_done s;
              num_pending_tasks := num_pending_tasks s;
              control := Joining;
              idle := idle s;
              busy := busy s;
              world := world s;
              journal := journal s;
              calls := calls s |}.
Proof.
  intros Hc Hn [Hputs Hseeds Hres Hbatch Hbusy Hsett Hcount Hjoin Hret].
  assert (Hnone : forall u, (exists b, control s = Collecting b /\ u ∈ b) -> False).
  { intros u (b & Hb & Hu). rewrite Hc in Hb. injection Hb as <-.
    by apply elem_of_nil in Hu. }
  split; simpl; try done.
  - intros t Ht. destruct (Hseeds t Ht) as [?|Hb]; [by left | by destruct (Hnone t)].
  - intros t Ht. destruct (Hsett t Ht) as [?|[?|Hs]]; [by left | by right; left |].
    right. right. intros u Hu. destruct (Hs u Hu) as [?|Hb]; [by left|].
    by destruct (Hnone u).
  - intros _. destruct (Hcount [] Hc) as (Hnum & Hsome & Hjobs).
    rewrite Hn in Hnum.
    destruct (waiting (pending_tasks s)) eqn:Hw; [|simpl in Hnum; lia].
    destruct (busy s) eqn:Hb; [|simpl in Hnum; lia].
    destruct (tasks_done s) eqn:Hd; [|simpl in Hnum; lia].
    rewrite Hsome. simpl in *. rewrite <- Hjobs. by rewrite Nat.add_0_r.
Qed.

Lemma explores_parent_join (s : State) :
  control s = Joining ->
  idle s = 0 ->
  busy s = [] ->
  explores s ->
  explores (with_control Returned s).
Proof.
  intros Hc Hi Hb [Hputs Hseeds Hres Hbatch Hbusy Hsett Hcount Hjoin Hret].
  assert (Hnone : forall u, (exists b, control s = Collecting b /\ u ∈ b) -> False).
  { intros u (b & Hb' & Hu). rewrite Hc in Hb'. discriminate. }
  split; simpl; try done.
  - intros t Ht. destruct (Hseeds t Ht) as [?|Hb']; [by left | by destruct (Hnone t)].
  - intros t Ht. destruct (Hsett t Ht) as [?|[?|Hs]]; [by left | by right; left |].
    right. right. intros u Hu. destruct (Hs u Hu) as [?|Hb']; [by left|].
    by destruct (Hnone u).
  - intros _. destruct (Hjoin Hc) as (Hp & _ & Hd). rewrite Hi in Hp. done.
Qed.

Lemma explores_step (s s' : State) :
  dedup (given done) s -> explores s -> step s s' -> explores s'.
Proof.
  intros Hd Hs Hstep. destruct Hstep.
  - by eapply explores_worker_get.
  - by eapply explores_worker_put.
  - match goal with E : do_task ?t ?w = (None, _) |- _ =>
      specialize (do_task_follow_ups t w); rewrite E in do_task_follow_ups
    end. discriminate.
  - by eapply explores_worker_return.
  - by eapply explores_parent_get.
  - by apply explores_parent_offer.
  - by apply explores_parent_signal.
  - by apply explores_parent_join.
Qed.

Lemma explores_blank (w : World) :
  explores (with_control (Collecting seeds) (blank jobs done w)).
Proof.
  split; simpl; try done.
  all: try (intros t Ht; by apply elem_of_nil in Ht).
  all: try (intros r u Hr; by apply elem_of_nil in Hr).
  - intros t Ht. right. by exists seeds.
  - intros b u [= <-] Hu. by left.
Qed.

Lemma explores_steps (s s' : State) :
  dedup (given done) s -> explores s -> rtc step s s' ->
  dedup (given done) s' /\ explores s'.
Proof.
  intros Hd Hs Hrtc. induction Hrtc as [|s s1 s2 Hstep _ IH]; [done|].
  apply IH; [by eapply dedup_step | by eapply explores_step].
Qed.

Lemma explores_reachable (w : World) (s : State) :
  rtc step (start jobs seeds done w) s ->
  dedup (given done) s /\ explores s.
Proof.
  intros Hrtc.
  apply (explores_steps (with_control (Collecting seeds) (blank jobs done w))).
  - apply dedup_blank.
  - apply explores_blank.
  - etrans; [apply start_reachable | exact Hrtc].
Qed.

(** In a final state the calls are the explored tasks, each called once. *)
Lemma returned_calls (s : State) :
  dedup (given done) s -> explores s -> control s = Returned ->
  NoDup (calls s) /\
  forall t, t ∈ calls s <-> explored follow_ups (given done) seeds t.
Proof.
  intros [Dseen Dfifo Donce Dnew _]
         [Hputs Hseeds _ _ _ Hsett _ _ Hret] Hc.
  destruct (Hret Hc) as (Hp & Hb & Hd & _).
  rewrite Hp in Dfifo. simpl in Dfifo. rewrite app_nil_r in Dfifo.
  rewrite Dfifo in *.
  split; [done|]. intros t. split; [by apply Hputs|].
  assert (Hseen : forall u, u ∈ tasks_seen s -> u ∉ given done -> u ∈ calls s).
  { intros u Hu Hnd. rewrite Dseen in Hu.
    apply elem_of_union in Hu as [?|Hu]; [done|]. by apply elem_of_list_to_set in Hu. }
  induction 1 as [t Ht Hnd | t u _ IH Hu Hnd].
  - apply Hseen; [|done]. destruct (Hseeds t Ht) as [?|(b & Hb' & _)]; [done|].
    rewrite Hc in Hb'. discriminate.
  - apply Hseen; [|done]. destruct (Hsett t IH) as [Hin|[Hin|Hs]].
    + rewrite Hb in Hin. by apply elem_of_nil in Hin.
    + rewrite Hd in Hin. by apply elem_of_nil in Hin.
    + destruct (Hs u Hu) as [?|(b & Hb' & _)]; [done|].
      rewrite Hc in Hb'. discriminate.
Qed.

(** *** Every run is finite *)

Variable bound : gset Task.
Hypothesis explored_bound :
  forall t, explored follow_ups (given done) seeds t -> t ∈ bound.

Local Abbreviation weight := (@weight Task _ _ World jobs follow_ups bound).

Lemma sum_list_app (l1 l2 : list nat) :
  sum_list (l1 ++ l2) = sum_list l1 + sum_list l2.
Proof. induction l1 as [|x l1 IH]; simpl; [done|]. rewrite IH. lia. Qed.

Lemma sum_list_elem {A} (g : A -> nat) (l : list A) (x : A) :
  x ∈ l -> g x <= sum_list (g <$> l).
Proof.
  induction 1 as [|y z l _ IH]; csimpl; [lia|]. lia.
Qed.

Lemma weight_enqueue (s : State) task c :
  task ∈ bound -> task ∉ tasks_seen s ->
  weight (with_control c (enqueue task s)) + 1
  <= weight (with_control c s) + 0.
Proof.
  intros Hb Hnew. unfold weight. simpl.
  rewrite fmap_app, sum_list_app. simpl.
  assert (Hlen : length (follow_ups task)
                 <= sum_list ((fun t => length (follow_ups t)) <$> elements bound)).
  { apply (sum_list_elem (fun t => length (follow_ups t))). by apply elem_of_elements. }
  assert (Hsize : size (bound ∖ (tasks_seen s ∪ {[task]})) < size (bound ∖ tasks_seen s)).
  { apply subset_size. split.
    - intros u [Hu Hn]%elem_of_difference. apply elem_of_difference. split; [done|].
      intros Hs. apply Hn. by apply elem_of_union_l.
    - intros Hsub. assert (Hin : task ∈ bound ∖ tasks_seen s)
        by (by apply elem_of_difference).
      apply Hsub in Hin. apply elem_of_difference in Hin as [_ Hn].
      apply Hn. by apply elem_of_union_r, elem_of_singleton. }
  nia.
Qed.

Lemma sum_list_cons (x : nat) (l : list nat) : sum_list (x :: l) = x + sum_list l.
Proof. done. Qed.

Ltac weigh :=
  unfold weight;
  cbn [tasks_seen pending_tasks tasks_done control busy with_control];
  repeat match goal with
         | E : pending_tasks _ = _ |- _ => rewrite E
         | E : tasks_done _ = _ |- _ => rewrite E
         | E : busy _ = _ |- _ => rewrite E
         | E : control _ = _ |- _ => rewrite E
         end;
  rewrite ?fmap_app, ?fmap_cons, ?fmap_replicate, ?sum_list_app, ?sum_list_cons,
    ?sum_list_replicate;
  cbn [pending_weight control_weight length fmap list_fmap sum_list sum_list_with];
  try lia.

Lemma weight_step (s s' : State) :
  dedup (given done) s -> explores s -> step s s' -> weight s' < weight s.
Proof.
  intros Hd Hs Hstep.
  pose proof (explores_step s s' Hd Hs Hstep) as Hs'.
  destruct Hstep as [s task rest n Hq Hi | s before task after result w Hb Hdo
                    | s before task after w Hb Hdo | s rest n Hq Hi
                    | s task_result rest n Hc Hn Hq | s task rest Hc
                    | s Hc Hn | s Hc Hi Hb].
  - clear Hs'. weigh.
  - assert (result = follow_ups task) as ->.
    { specialize (do_task_follow_ups task (world s)).
      rewrite Hdo in do_task_follow_ups. simpl in *. congruence. }
    clear Hs'. weigh.
  - specialize (do_task_follow_ups task (world s)).
    rewrite Hdo in do_task_follow_ups. discriminate.
  - clear Hs'. weigh.
  - clear Hs'. weigh.
  - unfold offer in *. destruct (decide (task ∈ tasks_seen s)) as [Hin|Hnew].
    + clear Hs'. weigh.
    + assert (Hbound : task ∈ bound).
      { apply explored_bound. apply (explores_puts _ _ _ _ _ Hs'). simpl.
        rewrite puts_app. apply elem_of_app. right. simpl.
        by apply list_elem_of_singleton. }
      pose proof (weight_enqueue s task (Collecting rest) Hbound Hnew) as Hw.
      assert (weight (with_control (Collecting rest) s) < weight s)
        by (clear Hs' Hw; weigh).
      lia.
  - clear Hs'. weigh.
  - clear Hs'. weigh.
Qed.

Lemma pool_acc (s : State) :
  dedup (given done) s -> explores s -> Acc (flip step) s.
Proof.
  remember (weight s) as n eqn:Hn. revert s Hn.
  induction (lt_wf n) as [n _ IH]. intros s -> Hd Hs.
  constructor. intros s' Hstep. unfold flip in Hstep.
  apply (IH (weight s')); [by apply weight_step | done | by eapply dedup_step
                          | by eapply explores_step].
Qed.

(** *** No run is stuck before the parent returns *)

Hypothesis some_worker : 0 < jobs.

Lemma pool_progress (s : State) :
  explores s -> control s <> Returned -> exists s', step s s'.
Proof.
  intros [Hputs Hseeds Hres Hbatch Hbusy Hsett Hcount Hjoin Hret] Hc.
  destruct (control s) as [[|task rest]| |] eqn:Ec; [| | |done].
  - destruct (Hcount _ eq_refl) as (Hnum & Hsome & Hjobs).
    destruct (num_pending_tasks s) as [|n] eqn:En.
    { eexists. by apply parent_signal. }
    destruct (tasks_done s) as [|r results] eqn:Ed.
    2: { eexists. by eapply parent_get. }
    destruct (busy s) as [|t running] eqn:Eb.
    + destruct (waiting (pending_tasks s)) as [|t q] eqn:Ew; [simpl in Hnum; lia|].
      rewrite Hsome in *. simpl in Hjobs.
      destruct (idle s) as [|i] eqn:Ei; [lia|].
      eexists. by eapply worker_get.
    + destruct (do_task_result t (world s)) as [w' Hw'].
      eexists. eapply (worker_put _ _ s [] t running); [done | exact Hw'].
  - eexists. by eapply parent_offer.
  - destruct (Hjoin eq_refl) as (Hp & Hb & Hd).
    destruct (idle s) as [|i] eqn:Ei.
    + eexists. by apply parent_join.
    + eexists. by eapply worker_return.
Qed.

(** Every state of a run leads to a final state. *)
Lemma pool_returns (s : State) :
  dedup (given done) s -> explores s ->
  exists final, rtc step s final /\ control final = Returned.
Proof.
  intros Hd Hs. pose proof (pool_acc s Hd Hs) as Hacc.
  induction Hacc as [s _ IH].
  destruct (control s) eqn:Ec.
  3: { exists s. split; [apply rtc_refl | done]. }
  all: destruct (pool_progress s Hs) as [s' Hstep]; [by rewrite Ec|].
  all: destruct (IH s' Hstep) as (final & Hrtc & Hfinal);
    [by eapply dedup_step | by eapply explores_step |].
  all: exists final; split; [by eapply rtc_l | done].
Qed.

(** A call of [process_tasks] returns. *)
Lemma process_tasks_returns (w : World) :
  exists r, process_tasks do_task jobs seeds done w r.
Proof.
  destruct (decide (seeds = [])) as [Hnil|Hseeds].
  - exists (Skipped w). by apply process_nothing.
  - destruct (explores_reachable w _ (rtc_refl _ _)) as [Hd0 He0].
    destruct (pool_returns _ Hd0 He0) as (final & Hrtc & Hfinal).
    exists (Completed final). by apply process_all.
Qed.

End Explores.

(** What is explored lies in the closure and outside the tasks given as
    done; with no task given as done it is the closure. *)
Lemma explored_closure f (d : gset Task) (seeds : list Task) t :
  explored f d seeds t -> closure f seeds t /\ t ∉ d.
Proof.
  induction 1 as [t Ht Hnd | t u _ [IH _] Hu Hnd]; split; try done.
  - by apply closure_seed.
  - by apply closure_next with t.
Qed.

Lemma closure_explored f (seeds : list Task) t :
  closure f seeds t -> explored f ∅ seeds t.
Proof.
  induction 1 as [t Ht | t u _ IH Hu].
  - apply explored_seed; [done | apply not_elem_of_empty].
  - apply explored_next with t; [done | done | apply not_elem_of_empty].
Qed.

(** C10. Called on an empty list of seeds, [process_tasks] returns, and it
    can only return the way line 126 does: the world is the one it was called
    in (no request sent, no file written), no worker process was created, and
    nothing was put, called or added; whatever the worker class, the number
    of jobs and the tasks given as done. *)
Theorem process_tasks_empty (done : option (gset Task)) (w : World) :
  process_tasks do_task jobs [] done w (Skipped w) /\
  forall r, process_tasks do_task jobs [] done w r <->
    r = Skipped w /\ run_world r = w /\ run_workers jobs r = 0 /\
    run_calls r = [] /\ run_journal r = [].
Proof.
  split; [by apply process_nothing|].
  intros r. split.
  - intros Hr. destruct Hr as [_ | final Hne _ _]; [done | by destruct Hne].
  - intros (-> & _). by apply process_nothing.
Qed.


(** C1, amended. With at least one worker, a follow-up function [f] that
    [do_task] computes, and a finite closure of the seeds under [f]: a call of
    [process_tasks] returns; no run of the pool is infinite and none is stuck
    before the parent has returned; and when it has returned, the tasks that
    were executed, each once, are the tasks reached from the seeds that are
    not given as done through tasks that are not given as done. This is the
    closure of the seeds when no task is given as done. *)
Theorem process_tasks_explores (f : Task -> list Task) (seeds : list Task)
    (done : option (gset Task)) (w : World) :
  0 < jobs ->
  (forall t w, fst (do_task t w) = Some (f t)) ->
  (exists bound : list Task, forall t, closure f seeds t -> t ∈ bound) ->
  (exists r, process_tasks do_task jobs seeds done w r) /\
  Acc (flip step) (start jobs seeds done w) /\
  (forall s, rtc step (start jobs seeds done w) s ->
             control s <> Returned -> exists s', step s s') /\
  (forall r, process_tasks do_task jobs seeds done w r ->
     NoDup (run_calls r) /\
     forall t, t ∈ run_calls r <-> explored f (given done) seeds t) /\
  (given done = ∅ ->
   forall t, explored f (given done) seeds t <-> closure f seeds t).
Proof.
  intros Hjobs Hf [bound Hbound].
  assert (Hb : forall t, explored f (given done) seeds t
                         -> t ∈ (list_to_set bound : gset Task)).
  { intros t Ht. apply elem_of_list_to_set, Hbound. by apply explored_closure in Ht as [? _]. }
  destruct (explores_reachable f Hf done seeds w _ (rtc_refl _ _)) as [Hd0 He0].
  split; [|split; [|split; [|split]]].
  - by eapply process_tasks_returns.
  - by eapply pool_acc.
  - intros s Hrtc Hc.
    destruct (explores_reachable f Hf done seeds w s Hrtc) as [_ He].
    by eapply pool_progress.
  - intros r Hr. destruct Hr as [-> | final Hne Hrtc Hfinal]; simpl.
    + split; [apply NoDup_nil_2|]. intros t. split.
      * intros Ht. by apply elem_of_nil in Ht.
      * intros Ht. apply explored_closure in Ht as [Ht _].
        exfalso. induction Ht as [t Ht | t u _ IH Hu]; [|done].
        by apply elem_of_nil in Ht.
    + destruct (explores_reachable f Hf done seeds w final Hrtc) as [Hd He].
      by eapply returned_calls.
  - intros Hnone t. split.
    + intros Ht. by apply explored_closure in Ht as [? _].
    + intros Ht. rewrite Hnone. by apply closure_explored.
Qed.

End Machine.

(** *** The pool on a chain of three tasks *)

Import Samples.

Lemma chain_closure_bound (t : string) :
  closure chain ["a"] t -> t ∈ ["a"; "b"; "c"].
Proof.
  induction 1 as [t Ht | t u _ IH Hu].
  - apply list_elem_of_singleton in Ht as ->. by left.
  - apply elem_of_cons in IH as [->|IH]; [|apply elem_of_cons in IH as [->|IH]].
    + apply list_elem_of_singleton in Hu as ->. right. by left.
    + apply list_elem_of_singleton in Hu as ->. right. right. by left.
    + apply list_elem_of_singleton in IH as ->. by apply elem_of_nil in Hu.
Qed.

Lemma chain_explored_behind_b (t : string) :
  explored chain {["b"]} ["a"] t -> t = "a".
Proof.
  induction 1 as [t Ht Hnd | t u _ -> Hu Hnd].
  - by apply list_elem_of_singleton in Ht.
  - apply list_elem_of_singleton in Hu as ->.
    exfalso. by apply Hnd, elem_of_singleton.
Qed.

(** C1, as the claim states it, fails: with seed a, follow-ups a -> b -> c
    and b given as done, c is in the closure of the seeds and is not given as
    done, yet no run of the pool executes c, because b is never executed and
    c is only known from its result. *)
Lemma done_task_hides_follow_ups :
  closure chain ["a"] "c" /\
  ("c" ∉ ({["b"]} : gset string)) /\
  (exists r, process_tasks chain_task 1 ["a"] (Some {["b"]}) () r) /\
  forall r, process_tasks chain_task 1 ["a"] (Some {["b"]}) () r ->
    ("c" ∉ run_calls r) /\
    ~ (forall t, t ∈ run_calls r <->
                 closure chain ["a"] t /\ (t ∉ ({["b"]} : gset string))).
Proof.
  assert (Hc : closure chain ["a"] "c").
  { apply closure_next with "b"; [|by left].
    apply closure_next with "a"; [|by left].
    apply closure_seed. by left. }
  assert (Hnb : "c" ∉ ({["b"]} : gset string)).
  { intros Hin. apply elem_of_singleton in Hin. discriminate. }
  assert (Hf : forall t (w : unit), fst (chain_task t w) = Some (chain t)) by done.
  destruct (explores_reachable chain_task 1 chain Hf (Some {["b"]}) ["a"] () _ (rtc_refl _ _))
    as [Hd0 He0].
  assert (Hcalls : forall r, process_tasks chain_task 1 ["a"] (Some {["b"]}) () r ->
                             "c" ∉ run_calls r).
  { intros r Hr. destruct Hr as [Hnil | final _ Hrtc Hfinal]; [done|]. simpl.
    destruct (explores_reachable chain_task 1 chain Hf (Some {["b"]}) ["a"] () final Hrtc)
      as [Hd He].
    destruct (returned_calls _ _ _ _ final Hd He Hfinal) as [_ Hiff].
    intros Hin. apply Hiff in Hin. apply chain_explored_behind_b in Hin. discriminate. }
  split; [done|]. split; [done|]. split.
  - destruct (pool_returns chain_task 1 chain Hf (Some {["b"]}) ["a"]
                (list_to_set ["a"; "b"; "c"])) with (s := start (World:=unit) 1 ["a"] (Some {["b"]}) ())
      as (final & Hrtc & Hfinal); [| lia | done | done |].
    + intros t Ht. apply elem_of_list_to_set, chain_closure_bound.
      by apply explored_closure in Ht as [? _].
    + exists (Completed final). by apply process_all.
  - intros r Hr. split; [by apply Hcalls|].
    intros Hiff. apply (Hcalls r Hr). by apply Hiff.
Qed.

Lemma process_tasks_explores_witness :
  0 < 1 /\
  (forall t (w : unit), fst (chain_task t w) = Some (chain t)) /\
  (exists r, process_tasks chain_task 1 ["a"] (Some {["b"]}) () r) /\
  (forall r, process_tasks chain_task 1 ["a"] (Some {["b"]}) () r ->
     NoDup (run_calls r) /\
     forall t, t ∈ run_calls r <-> explored chain {["b"]} ["a"] t).
Proof.
  destruct (process_tasks_explores chain_task 1 chain ["a"] (Some {["b"]}) ()
              (le_n 1) (fun _ _ => eq_refl)
              (ex_intro _ ["a"; "b"; "c"] chain_closure_bound))
    as (Hex & _ & _ & Hcalls & _).
  split; [exact (le_n 1)|]. split; [exact (fun _ _ => eq_refl)|].
  split; [exact Hex | exact Hcalls].
Defined.



End PoolFacts.

(** ** The output directory *)

Module OSFacts.
Import Py OS.

Lemma keeps_refl (d : FS) : keeps d d.
Proof. by intros p. Qed.

Lemma keeps_trans (d1 d2 d3 : FS) : keeps d1 d2 -> keeps d2 d3 -> keeps d1 d3.
Proof. intros H12 H23 p Hp. by apply H23, H12. Qed.

Lemma path_exists_file (p : string) (d : FS) :
  is_Some (files d !! p) -> path_exists p d = true.
Proof.
  intros Hp. unfold path_exists. apply orb_true_iff. left.
  by apply bool_decide_eq_true.
Qed.

Lemma path_exists_spec (p : string) (d : FS) :
  path_exists p d = true <-> is_Some (files d !! p) \/ p ∈ dirs d.
Proof.
  unfold path_exists. by rewrite orb_true_iff, !bool_decide_eq_true.
Qed.

Lemma read_write (p data : string) (d : FS) : read p (write p data d) = Some data.
Proof. unfold read, write. simpl. apply lookup_insert_eq. Qed.

Lemma keeps_write (p data : string) (d : FS) : keeps d (write p data d).
Proof.
  intros q. rewrite !path_exists_spec. simpl. intros [Hq|Hq]; [left | by right].
  destruct (decide (p = q)) as [->|Hne].
  - rewrite lookup_insert_eq. by eexists.
  - by rewrite lookup_insert_ne.
Qed.

Lemma keeps_mkdir (name : string) (d : FS) : keeps d (mkdir name d).
Proof.
  unfold mkdir. destruct (path_exists name d); [apply keeps_refl|].
  intros q. rewrite !path_exists_spec. simpl. intros [Hq|Hq]; [by left | right].
  by apply elem_of_union_r.
Qed.

Lemma keeps_makedirs (fuel : nat) (name : string) (d : FS) :
  keeps d (makedirs fuel name d).
Proof.
  revert name d. induction fuel as [|fuel IH]; intros name d; simpl.
  - apply keeps_mkdir.
  - destruct (split name) as [head tail].
    destruct (if truthy tail then (head, tail) else split head) as [head' tail'].
    destruct (truthy head' && truthy tail' && negb (path_exists head' d)).
    + eapply keeps_trans; [apply IH | apply keeps_mkdir].
    + apply keeps_mkdir.
Qed.

Lemma keeps_create_intermediate_dirs (path : string) (d : FS) :
  keeps d (create_intermediate_dirs path d).
Proof.
  unfold create_intermediate_dirs. destruct (split path) as [dirname basename].
  destruct (truthy dirname && negb (path_exists dirname d));
    [apply keeps_makedirs | apply keeps_refl].
Qed.

Lemma keeps_absent (d d' : FS) (p : string) :
  keeps d d' -> path_exists p d' = false -> path_exists p d = false.
Proof.
  intros Hk Hp. destruct (path_exists p d) eqn:E; [|done].
  apply Hk in E. congruence.
Qed.

End OSFacts.

(** ** The workers *)

Module WorkersFacts.
Import Py Re OS Http ObjectRefs Listing Workers ReFacts OSFacts.

Lemma gets_app (e1 e2 : list Event) : gets (e1 ++ e2) = gets e1 ++ gets e2.
Proof. apply omap_app. Qed.

Lemma probes_app (e1 e2 : list Event) : probes (e1 ++ e2) = probes e1 ++ probes e2.
Proof. apply omap_app. Qed.

Section Bodies.

Variable Server : Type.
Variable serve : Server -> string -> Response * Server.
Variable abspath_join : string -> string -> string.
Variable find_all_a_href : string -> list (option string).
Variable urlparse : option string -> ParseResult.
Variable from_path : string -> option ShaFile.
Variable url : string.
Variable directory : string.

Local Abbreviation World := (World Server).
Local Abbreviation emit := (@emit Server).
Local Abbreviation on_fs := (@on_fs Server).
Local Abbreviation advances := (@advances Server).
Local Abbreviation request := (request Server serve).
Local Abbreviation download_loop := (download_loop Server serve url).
Local Abbreviation download_do_task :=
  (download_do_task Server serve abspath_join url directory).
Local Abbreviation recursive_loop :=
  (recursive_loop Server serve find_all_a_href urlparse url).
Local Abbreviation recursive_do_task :=
  (recursive_do_task Server serve abspath_join find_all_a_href urlparse url directory).
Local Abbreviation get_loop := (get_loop Server serve url).
Local Abbreviation find_refs_do_task :=
  (find_refs_do_task Server serve abspath_join url directory).
Local Abbreviation parse_object := (parse_object Server from_path).
Local Abbreviation find_objects_do_task :=
  (find_objects_do_task Server serve abspath_join from_path url directory).
Local Abbreviation task_request := (task_request Server abspath_join url directory).
Local Abbreviation run_request := (run_request Server abspath_join url directory).
Local Abbreviation replies := (replies Server serve).
Local Abbreviation do_task :=
  (do_task Server serve abspath_join find_all_a_href urlparse from_path url directory).

(** *** What a worker may request *)

Lemma advances_refl allowed (w : World) : advances allowed w w.
Proof.
  split; [apply keeps_refl|]. exists []. split; [by rewrite app_nil_r|].
  intros u Hu. by apply elem_of_nil in Hu.
Qed.

Lemma advances_trans allowed (w1 w2 w3 : World) :
  advances allowed w1 w2 -> advances allowed w2 w3 -> advances allowed w1 w3.
Proof.
  intros [Hk1 (e1 & He1 & Hg1)] [Hk2 (e2 & He2 & Hg2)].
  split; [by eapply keeps_trans|]. exists (e1 ++ e2). split.
  - by rewrite He2, He1, app_assoc.
  - intros u. rewrite gets_app. intros [Hu|Hu]%elem_of_app; auto.
Qed.

Lemma advances_weaken (allowed allowed' : string -> Prop) (w w' : World) :
  (forall u, allowed u -> allowed' u) ->
  advances allowed w w' -> advances allowed' w w'.
Proof.
  intros Hsub [Hk (e & He & Hg)]. split; [done|]. exists e. split; auto.
Qed.

Lemma advances_emit allowed events (w : World) :
  gets events = [] -> advances allowed w (emit events w).
Proof.
  intros Hg. split; [apply keeps_refl|]. exists events. split; [done|].
  rewrite Hg. intros u Hu. by apply elem_of_nil in Hu.
Qed.

Lemma advances_on_fs allowed f (w : World) :
  keeps (fs w) (f (fs w)) -> advances allowed w (on_fs f w).
Proof.
  intros Hk. split; [done|]. exists []. split; [simpl; by rewrite app_nil_r|].
  intros u Hu. by apply elem_of_nil in Hu.
Qed.

Lemma request_spec sent u (w : World) :
  exists response srv,
    serve (server w) u = (response, srv) /\
    request sent u w
    = (response, {| fs := fs w; server := srv; trace := trace w ++ [sent u] |}).
Proof.
  unfold Workers.request. destruct (serve (server w) u) as [response srv].
  by exists response, srv.
Qed.

Lemma advances_get (allowed : string -> Prop) u (w : World) :
  allowed u -> advances allowed w (snd (request Get u w)).
Proof.
  intros Hu. destruct (request_spec Get u w) as (response & srv & _ & ->). simpl.
  split; [apply keeps_refl|]. exists [Get u]. split; [done|].
  intros u' Hu'. simpl in Hu'. by apply list_elem_of_singleton in Hu' as ->.
Qed.

Lemma advances_probe allowed u (w : World) :
  advances allowed w (snd (request Probe u w)).
Proof.
  destruct (request_spec Probe u w) as (response & srv & _ & ->). simpl.
  split; [apply keeps_refl|]. exists [Probe u]. split; [done|].
  intros u' Hu'. by apply elem_of_nil in Hu'.
Qed.

Lemma advances_emit_r allowed events (w w' : World) :
  gets events = [] -> advances allowed w w' -> advances allowed w (emit events w').
Proof.
  intros Hg Hw. eapply advances_trans; [exact Hw | by apply advances_emit].
Qed.

(** Storing a response: the two steps after a status of 200. *)
Lemma advances_store_r allowed abspath data (w w' : World) :
  advances allowed w w' ->
  advances allowed w
    (on_fs (write abspath data) (on_fs (create_intermediate_dirs abspath) w')).
Proof.
  intros Hw. eapply advances_trans; [exact Hw|].
  eapply advances_trans; apply advances_on_fs;
    [apply keeps_create_intermediate_dirs | apply keeps_write].
Qed.

Ltac advance :=
  repeat first
    [ assumption
    | apply advances_refl
    | apply advances_store_r
    | apply advances_emit_r; [reflexivity|] ].

Lemma download_loop_advances fuel count filepath abspath (w : World) :
  advances (eq (url +++ "/" +++ filepath)) w
           (snd (download_loop fuel count filepath abspath w)).
Proof.
  revert count w. induction fuel as [|fuel IH]; intros count w; simpl; [advance|].
  destruct (count <? 5)%Z; [|advance].
  pose proof (advances_get (eq (url +++ "/" +++ filepath)) _ w eq_refl) as Hget.
  destruct (request Get (url +++ "/" +++ filepath) w) as [response w1].
  simpl in Hget.
  destruct (status_code response =? 403)%Z.
  { eapply advances_trans; [|apply IH]. advance. }
  destruct (negb (status_code response =? 200)%Z); simpl; advance.
Qed.

Lemma download_loop_result fuel count filepath abspath (w : World) :
  fst (download_loop fuel count filepath abspath w) = Some [].
Proof.
  revert count w. induction fuel as [|fuel IH]; intros count w; simpl; [done|].
  destruct (count <? 5)%Z; [|done].
  destruct (request Get (url +++ "/" +++ filepath) w) as [response w1].
  destruct (status_code response =? 403)%Z; [apply IH|].
  by destruct (negb (status_code response =? 200)%Z).
Qed.

Lemma recursive_loop_advances fuel count filepath abspath (w : World) :
  advances (eq (url +++ "/" +++ filepath)) w
           (snd (recursive_loop fuel count filepath abspath w)).
Proof.
  revert count w. induction fuel as [|fuel IH]; intros count w; simpl; [advance|].
  destruct (count <? 5)%Z; [|advance].
  pose proof (advances_get (eq (url +++ "/" +++ filepath)) _ w eq_refl) as Hget.
  destruct (request Get (url +++ "/" +++ filepath) w) as [response w1].
  simpl in Hget.
  destruct (_ && _); simpl; [advance|].
  destruct (status_code response =? 403)%Z.
  { eapply advances_trans; [|apply IH]. advance. }
  destruct (negb (status_code response =? 200)%Z); simpl; [advance|].
  destruct (endswith filepath "/"); [|advance].
  destruct (is_html response); simpl; advance.
Qed.

Lemma get_loop_advances fuel count filepath response (w : World) :
  advances (eq (url +++ "/" +++ filepath)) w
           (snd (get_loop fuel count filepath response w)).
Proof.
  revert count response w.
  induction fuel as [|fuel IH]; intros count response w; simpl; [advance|].
  destruct (count <? 5)%Z; [|advance].
  pose proof (advances_get (eq (url +++ "/" +++ filepath)) _ w eq_refl) as Hget.
  destruct (request Get (url +++ "/" +++ filepath) w) as [response' w1].
  simpl in Hget.
  destruct (status_code response' =? 403)%Z; simpl; [|advance].
  eapply advances_trans; [|apply IH]. advance.
Qed.

Lemma parse_object_advances allowed abspath (w : World) :
  advances allowed w (snd (parse_object abspath w)).
Proof.
  unfold Workers.parse_object. destruct (read abspath (fs w) ≫= from_path) as [obj|].
  - destruct (get_referenced_sha1 obj) as [[objs|code] report]; simpl.
    + apply advances_refl.
    + apply advances_emit. reflexivity.
  - apply advances_refl.
Qed.

Lemma do_task_advances kind task (w : World) :
  advances (task_request kind task w) w (snd (do_task kind task w)).
Proof.
  assert (Hloop : forall filepath (w' : World),
    path_exists (abspath_join directory filepath) (fs w) = false ->
    task_path kind task = filepath ->
    advances (eq (url +++ "/" +++ filepath)) w w' ->
    advances (task_request kind task w) w w').
  { intros filepath w' Hex Hpath. apply advances_weaken.
    intros u <-. split; [by rewrite Hpath | left; by rewrite Hpath]. }
  destruct kind; cbn [Workers.do_task].
  - unfold Workers.download_do_task.
    destruct (path_exists _ (fs w)) eqn:Hex; cbn [snd].
    + apply advances_emit. reflexivity.
    + apply (Hloop task); [done | done | apply download_loop_advances].
  - unfold Workers.recursive_do_task.
    destruct (negb (endswith task "/") && path_exists _ (fs w)) eqn:Hex; cbn [snd].
    + apply advances_emit. reflexivity.
    + eapply advances_weaken; [|apply recursive_loop_advances].
      intros u <-. split; [done|].
      apply andb_false_iff in Hex as [Hex|Hex]; [right | by left].
      split; [done|]. by apply negb_false_iff.
  - unfold Workers.find_refs_do_task.
    destruct (path_exists _ (fs w)) eqn:Hex.
    + destruct (read _ _); cbn [snd]; apply advances_emit; reflexivity.
    + pose proof (get_loop_advances loop_fuel 0 task None w) as Hget.
      destruct (get_loop loop_fuel 0 task None w) as [[response|] w1];
        cbn [snd] in *; [|by apply (Hloop task)].
      destruct (negb (status_code response =? 200)%Z); cbn [snd];
        apply (Hloop task); try done; advance.
  - unfold Workers.find_objects_do_task.
    destruct (path_exists _ (fs w)) eqn:Hex.
    + eapply advances_trans; [|apply parse_object_advances].
      apply advances_emit. reflexivity.
    + pose proof (get_loop_advances loop_fuel 0 (object_path task) None w) as Hget.
      destruct (get_loop loop_fuel 0 (object_path task) None w) as [[response|] w1];
        cbn [snd] in *; [|by apply (Hloop (object_path task))].
      destruct (negb (status_code response =? 200)%Z); cbn [snd].
      * by apply (Hloop (object_path task)).
      * eapply advances_trans; [|apply parse_object_advances].
        apply (Hloop (object_path task)); try done. advance.
Qed.

(** *** The download worker *)

Lemma download_no_follow_ups filepath (w : World) :
  fst (download_do_task filepath w) = Some [].
Proof.
  unfold Workers.download_do_task. destruct (path_exists _ _); [done|].
  apply download_loop_result.
Qed.

(** One turn of the loop of lines 187-212, on a 403 and on a 200. *)
Lemma download_loop_403 fuel count filepath abspath (w : World) response srv :
  (count <? 5)%Z = true ->
  serve (server w) (url +++ "/" +++ filepath) = (response, srv) ->
  status_code response = 403%Z ->
  download_loop (S fuel) count filepath abspath w
  = download_loop fuel (count + 1) filepath abspath
      {| fs := fs w; server := srv;
         trace := trace w ++
           [ Get (url +++ "/" +++ filepath);
             Print (Fetching (count + 1) url filepath 403); Init; Sleep 10 ] |}.
Proof.
  intros Hc Hs H403. cbn [Workers.download_loop]. rewrite Hc.
  unfold Workers.request. rewrite Hs, H403. cbn [Z.eqb Pos.eqb].
  unfold Workers.emit. cbn [fs server trace].
  by rewrite <- !app_assoc.
Qed.

Lemma download_loop_200 fuel count filepath abspath (w : World) response srv :
  (count <? 5)%Z = true ->
  serve (server w) (url +++ "/" +++ filepath) = (response, srv) ->
  status_code response = 200%Z ->
  download_loop (S fuel) count filepath abspath w
  = (Some [],
     {| fs := write abspath (text response) (create_intermediate_dirs abspath (fs w));
        server := srv;
        trace := trace w ++
          [ Get (url +++ "/" +++ filepath);
            Print (Fetching (count + 1) url filepath 200) ] |}).
Proof.
  intros Hc Hs H200. cbn [Workers.download_loop]. rewrite Hc.
  unfold Workers.request. rewrite Hs, H200. cbn [Z.eqb Pos.eqb negb].
  unfold Workers.emit, Workers.on_fs. cbn [fs server trace].
  by rewrite <- !app_assoc.
Qed.

(** C6, amended. For a file that is not yet in the output directory, with
    no regular file on the path above it (where there is one, the directories
    cannot be created or the file cannot be opened, and [do_task] raises), and
    a server that answers the next five GETs of its URL with 403, 403, 403,
    403 and 200, the download worker sends exactly those five GETs; after
    each of the four 403 it starts a new session and sleeps ten seconds, forty
    in all; it stores the body of the fifth answer in the file; and it returns
    the empty list, as it does when the first answer is 200 and as it does
    when none of the five answers is 200. *)
Theorem download_worker_backs_off (filepath : string) (w : World) :
  let u := url +++ "/" +++ filepath in
  let abspath := abspath_join directory filepath in
  path_exists abspath (fs w) = false ->
  clear_above abspath (fs w) ->
  status_code <$> replies 5 (server w) u = [403; 403; 403; 403; 200]%Z ->
  exists last events,
    replies 5 (server w) u !! 4 = Some last /\
    fst (download_do_task filepath w) = Some [] /\
    trace (snd (download_do_task filepath w)) = trace w ++ events /\
    events = [ Get u; Print (Fetching 1 url filepath 403); Init; Sleep 10;
               Get u; Print (Fetching 2 url filepath 403); Init; Sleep 10;
               Get u; Print (Fetching 3 url filepath 403); Init; Sleep 10;
               Get u; Print (Fetching 4 url filepath 403); Init; Sleep 10;
               Get u; Print (Fetching 5 url filepath 200) ] /\
    gets events = [u; u; u; u; u] /\
    inits events = 4 /\
    slept events = 40%Z /\
    read abspath (fs (snd (download_do_task filepath w))) = Some (text last) /\
    (forall w0 : World,
        path_exists abspath (fs w0) = false ->
        clear_above abspath (fs w0) ->
        status_code <$> replies 1 (server w0) u = [200]%Z ->
        fst (download_do_task filepath w0) = fst (download_do_task filepath w)) /\
    (forall w0 : World,
        path_exists abspath (fs w0) = false ->
        Forall (fun r => status_code r <> 200%Z) (replies 5 (server w0) u) ->
        fst (download_do_task filepath w0) = Some []).
Proof.
  intros u abspath Hex _ Hst. simpl in Hst.
  destruct (serve (server w) u) as [r1 s1] eqn:E1.
  destruct (serve s1 u) as [r2 s2] eqn:E2.
  destruct (serve s2 u) as [r3 s3] eqn:E3.
  destruct (serve s3 u) as [r4 s4] eqn:E4.
  destruct (serve s4 u) as [r5 s5] eqn:E5.
  injection Hst as H1 H2 H3 H4 H5.
  exists r5. eexists.
  split; [simpl; rewrite E1, E2, E3, E4, E5; reflexivity|].
  split; [apply download_no_follow_ups|].
  assert (Hrun : download_do_task filepath w
    = (Some [],
       {| fs := write abspath (text r5) (create_intermediate_dirs abspath (fs w));
          server := s5;
          trace := trace w ++
            [ Get u; Print (Fetching 1 url filepath 403); Init; Sleep 10;
              Get u; Print (Fetching 2 url filepath 403); Init; Sleep 10;
              Get u; Print (Fetching 3 url filepath 403); Init; Sleep 10;
              Get u; Print (Fetching 4 url filepath 403); Init; Sleep 10;
              Get u; Print (Fetching 5 url filepath 200) ] |})).
  { unfold Workers.download_do_task. fold abspath. rewrite Hex. unfold loop_fuel.
    rewrite (download_loop_403 _ _ _ _ _ r1 s1); [|done|done|done].
    rewrite (download_loop_403 _ _ _ _ _ r2 s2); [|done|done|done].
    rewrite (download_loop_403 _ _ _ _ _ r3 s3); [|done|done|done].
    rewrite (download_loop_403 _ _ _ _ _ r4 s4); [|done|done|done].
    rewrite (download_loop_200 _ _ _ _ _ r5 s5); [|done|done|done].
    cbn [fs server trace]. by rewrite <- !app_assoc. }
  rewrite Hrun. cbn [snd fst trace fs].
  split; [reflexivity|]. split; [reflexivity|]. split; [reflexivity|].
  split; [reflexivity|]. split; [reflexivity|]. split; [apply read_write|].
  split.
  - intros w0 _ _ _. by rewrite download_no_follow_ups.
  - intros w0 _ _. apply download_no_follow_ups.
Qed.

(** *** The refs worker *)

Lemma ref_tasks_paths (response_text : string) :
  ref_tasks response_text = flat_map ref_paths (find_refs response_text).
Proof.
  unfold ref_tasks.
  enough (Hacc : forall refs acc,
    fold_left
      (fun tasks ref =>
         if negb (endswith ref "*")
         then (tasks ++ [".git/" +++ ref]) ++ [".git/logs/" +++ ref]
         else tasks) refs acc
    = acc ++ flat_map ref_paths refs) by apply Hacc.
  induction refs as [|ref refs IH]; intros acc; simpl.
  - by rewrite app_nil_r.
  - rewrite IH. unfold ref_paths at 2. destruct (endswith ref "*"); simpl; [done|].
    by rewrite <- !app_assoc.
Qed.


(** *** Runs of the pool *)

Variable jobs : nat.

Lemma world_offer task (s : @Pool.State string _ _ World) :
  Pool.world (Pool.offer task s) = Pool.world s.
Proof. unfold Pool.offer. by destruct (decide _). Qed.

Lemma world_start (initial : list string) done (w : World) :
  Pool.world (Pool.start jobs initial done w) = w.
Proof.
  unfold Pool.start.
  enough (Hfeed : forall (s : @Pool.State string _ _ World),
    Pool.world (fold_left (fun s task => Pool.offer task s) initial s) = Pool.world s)
    by apply Hfeed.
  induction initial as [|t l IH]; intros s; simpl; [done|].
  by rewrite IH, world_offer.
Qed.

Lemma task_run_request kind task (w : World) u :
  task_request kind task w u -> run_request w u.
Proof.
  intros [-> Hwhy]. exists (task_path kind task). split; [done|].
  destruct Hwhy as [?|[-> Hdir]]; [by left | by right].
Qed.

Lemma run_request_keeps (w w' : World) u :
  keeps (fs w) (fs w') -> run_request w' u -> run_request w u.
Proof.
  intros Hk (p & -> & Hwhy). exists p. split; [done|].
  destruct Hwhy as [Habs|?]; [left | by right]. by eapply keeps_absent.
Qed.

Lemma step_advances kind (s s' : @Pool.State string _ _ World) :
  Pool.step (do_task kind) jobs s s' ->
  advances (run_request (Pool.world s)) (Pool.world s) (Pool.world s').
Proof.
  intros Hstep.
  destruct Hstep as [| s before task after result w Hb Hdo
                     | s before task after w Hb Hdo | | | | |];
    cbn [Pool.world Pool.with_control]; rewrite ?world_offer; try apply advances_refl.
  - pose proof (do_task_advances kind task (Pool.world s)) as Ha.
    rewrite Hdo in Ha. eapply advances_weaken; [|exact Ha].
    apply task_run_request.
  - pose proof (do_task_advances kind task (Pool.world s)) as Ha.
    rewrite Hdo in Ha. eapply advances_weaken; [|exact Ha].
    apply task_run_request.
Qed.

Lemma steps_advances kind (s s' : @Pool.State string _ _ World) :
  rtc (Pool.step (do_task kind) jobs) s s' ->
  advances (run_request (Pool.world s)) (Pool.world s) (Pool.world s').
Proof.
  induction 1 as [s | s s1 s2 Hstep _ IH]; [apply advances_refl|].
  pose proof (step_advances kind s s1 Hstep) as H1.
  eapply advances_trans; [exact H1|].
  eapply advances_weaken; [|exact IH].
  intros u. apply run_request_keeps. by destruct H1.
Qed.

(** A call of [process_tasks] with any of the four workers loses no file and
    sends no GET for a file that was in the output directory when it was
    called; only listings of directories are requested again. *)
Lemma process_tasks_advances kind (initial : list string) done (w : World) r :
  Pool.process_tasks (do_task kind) jobs initial done w r ->
  advances (run_request w) w (Pool.run_world r).
Proof.
  intros [_ | final _ Hrtc _]; cbn [Pool.run_world]; [apply advances_refl|].
  apply steps_advances in Hrtc. by rewrite world_start in Hrtc.
Qed.

End Bodies.

(** *** The workers on the sample servers *)

Import Samples.

(** C6, as the claim states it, fails for a file the output directory
    already holds: against a server that would answer 403 four times and then
    200, the worker sends no request at all and leaves the file as it is. *)
Lemma cached_file_not_fetched :
  let u := "http://h/.git/config" in
  let run := download_do_task nat throttling sample_abspath "http://h" "/out"
               ".git/config" second_run in
  status_code <$> replies nat throttling 5 (server second_run) u
    = [403; 403; 403; 403; 200]%Z /\
  gets (trace (snd run)) = [] /\
  read "/out/.git/config" (fs (snd run)) = Some "old".
Proof. vm_compute. repeat split. Qed.

Lemma download_worker_backs_off_witness :
  let u := "http://h/.git/config" in
  let run := download_do_task nat throttling sample_abspath "http://h" "/out"
               ".git/config" first_run in
  path_exists (sample_abspath "/out" ".git/config") (fs first_run) = false /\
  clear_above (sample_abspath "/out" ".git/config") (fs first_run) /\
  status_code <$> replies nat throttling 5 (server first_run) u
    = [403; 403; 403; 403; 200]%Z /\
  exists events,
    trace (snd run) = trace first_run ++ events /\
    gets events = [u; u; u; u; u] /\
    inits events = 4 /\
    slept events = 40%Z /\
    read "/out/.git/config" (fs (snd run)) = Some "[core]".
Proof.
  intros u run.
  assert (Hclear : clear_above (sample_abspath "/out" ".git/config") (fs first_run))
    by (intros q _; apply lookup_empty).
  destruct (download_worker_backs_off nat throttling sample_abspath "http://h" "/out"
              ".git/config" first_run eq_refl Hclear eq_refl)
    as (last & events & Hlast & _ & Htr & _ & Hg & Hi & Hs & Hread & _).
  split; [reflexivity|]. split; [exact Hclear|]. split; [reflexivity|].
  exists events. split; [exact Htr|]. split; [exact Hg|]. split; [exact Hi|].
  split; [exact Hs|]. injection Hlast as <-. exact Hread.
Defined.

(** Against a server that answers 403 to everything the download worker
    gives up after five GETs; it has started a new session and slept ten
    seconds after each of them, the fifth too, and stored nothing. *)
Example storm_of_403 :
  let u := "http://h/.git/config" in
  let run := download_do_task nat forbidding sample_abspath "http://h" "/out"
               ".git/config" first_run in
  fst run = Some [] /\
  gets (trace (snd run)) = [u; u; u; u; u] /\
  inits (trace (snd run)) = 5 /\
  slept (trace (snd run)) = 50%Z /\
  path_exists "/out/.git/config" (fs (snd run)) = false.
Proof. vm_compute. repeat split. Qed.

(** The refs worker on the line of [.git/info/refs] kept from an earlier
    run. *)
Example refs_of_info_refs :
  find_refs_do_task nat nothing sample_abspath "http://h" "/out" ".git/info/refs" second_run
  = (Some [".git/refs/heads/feature/x"; ".git/logs/refs/heads/feature/x"],
     emit nat [Print (AlreadyFetched "http://h" ".git/info/refs")] second_run).
Proof. vm_compute. reflexivity. Qed.


End WorkersFacts.

(** ** The phases *)

Module DumperFacts.
Import Py Re OS Http ObjectRefs Listing Workers Dumper OSFacts WorkersFacts.

Section Phases.

Variable Server : Type.
Variable serve : Server -> string -> Response * Server.
Variable abspath_join : string -> string -> string.
Variable find_all_a_href : string -> list (option string).
Variable urlparse : option string -> ParseResult.
Variable from_path : string -> option ShaFile.
Variable index_iterblobs : string -> option (list (string * string * Z)).
Variable pack_iterobjects
  : option string -> option string -> option (list (string * ShaFile)).
Variable directory : string.

Local Abbreviation World := (World Server).
Local Abbreviation emit := (@emit Server).
Local Abbreviation advances := (@advances Server).
Local Abbreviation request := (request Server serve).
Local Abbreviation url_get_loop := (url_get_loop Server serve).
Local Abbreviation url_get := (url_get Server serve).
Local Abbreviation probed := (@probed Server).
Local Abbreviation local := (local abspath_join directory).
Local Abbreviation run_request := (run_request Server abspath_join).
Local Abbreviation phase :=
  (phase Server serve abspath_join find_all_a_href urlparse from_path directory).
Local Abbreviation fetch_git :=
  (fetch_git Server serve abspath_join find_all_a_href urlparse from_path
             index_iterblobs pack_iterobjects directory).
Local Abbreviation preconditions := (preconditions Server abspath_join directory).

(** *** [url_get] *)

Lemma url_get_loop_spec fuel count u response (w : World) :
  fs (snd (url_get_loop fuel count u response w)) = fs w /\
  exists events,
    trace (snd (url_get_loop fuel count u response w)) = trace w ++ events /\
    gets events = [] /\
    (forall u', u' ∈ probes events -> u' = u) /\
    length (probes events) <= Z.to_nat (5 - count) /\
    (0 < fuel -> (count < 5)%Z -> 1 <= length (probes events)) /\
    (is_Some response \/ 0 < fuel /\ (count < 5)%Z ->
     is_Some (fst (url_get_loop fuel count u response w))).
Proof.
  revert count response w.
  induction fuel as [|fuel IH]; intros count response w; cbn [Dumper.url_get_loop].
  { split; [done|]. exists []. rewrite app_nil_r.
    split; [done|]. split; [done|]. split.
    { intros u' Hu'. by apply elem_of_nil in Hu'. }
    split; [simpl; lia|]. split; [lia|].
    intros [?|[? _]]; [done | lia]. }
  destruct (count <? 5)%Z eqn:Hc.
  2: { apply Z.ltb_ge in Hc.
       split; [done|]. exists []. rewrite app_nil_r.
       split; [done|]. split; [done|]. split.
       { intros u' Hu'. by apply elem_of_nil in Hu'. }
       split; [simpl; lia|]. split; [lia|].
       intros [?|[_ ?]]; [done | lia]. }
  apply Z.ltb_lt in Hc.
  destruct (request_spec Server serve Probe u (emit [Print (Testing u)] w))
    as (r & srv & _ & ->).
  destruct (status_code r =? 403)%Z.
  - destruct (IH (count + 1)%Z (Some r)
      (emit [Sleep 10] (emit [Print (Status (status_code r))]
        {| fs := fs (emit [Print (Testing u)] w); server := srv;
           trace := trace (emit [Print (Testing u)] w) ++ [Probe u] |})))
      as (Hfs & events & Htr & Hg & Hp & Hlen & _ & Hres).
    split; [by rewrite Hfs|].
    exists ([Print (Testing u); Probe u; Print (Status (status_code r)); Sleep 10]
            ++ events).
    split; [rewrite Htr; cbn [trace Workers.emit]; by rewrite <- !app_assoc|].
    rewrite gets_app, probes_app, Hg. cbn [gets probes omap length app].
    split; [done|]. split.
    { intros u' [->|Hu']%elem_of_cons; [done | by apply Hp]. }
    split; [simpl; lia|]. split; [simpl; lia|].
    intros _. apply Hres. left. by eexists.
  - cbn [fst snd fs trace Workers.emit]. split; [done|].
    exists [Print (Testing u); Probe u; Print (Status (status_code r))].
    split; [by rewrite <- !app_assoc|]. split; [done|]. split.
    { intros u' Hu'. simpl in Hu'. by apply list_elem_of_singleton in Hu'. }
    split; [simpl; lia|]. split; [simpl; lia | by eexists].
Qed.

(** [url_get] returns the last answer it got and is a probe of [u]. *)
Lemma url_get_probed u (w : World) :
  exists response w1, url_get u w = (Some response, w1) /\ probed u w w1.
Proof.
  unfold Dumper.url_get.
  destruct (url_get_loop_spec loop_fuel 0 u None w)
    as (Hfs & events & Htr & Hg & Hp & Hlen & Hone & Hres).
  destruct (url_get_loop loop_fuel 0 u None w) as [r w1] eqn:E. cbn [fst snd] in *.
  destruct Hres as [response ->]; [right; unfold loop_fuel; lia|].
  exists response, w1. split; [done|]. split; [done|].
  exists events. split; [done|]. split; [done|]. split; [done|]. split.
  - apply Hone; [unfold loop_fuel|]; lia.
  - simpl in Hlen. lia.
Qed.

(** An answer other than 403 ends [url_get] at once. *)
Lemma url_get_single u (w : World) first srv :
  serve (server w) u = (first, srv) ->
  status_code first <> 403%Z ->
  url_get u w
  = (Some first,
     {| fs := fs w; server := srv;
        trace := trace w ++ [Print (Testing u); Probe u;
                             Print (Status (status_code first))] |}).
Proof.
  intros Hs Hne. unfold Dumper.url_get, loop_fuel.
  cbn [Dumper.url_get_loop Z.ltb Z.compare]. unfold Workers.request.
  cbn [server Workers.emit]. rewrite Hs.
  apply Z.eqb_neq in Hne. rewrite Hne.
  unfold Workers.emit. cbn [fs server trace]. by rewrite <- !app_assoc.
Qed.

Lemma probed_advances allowed u (w w' : World) :
  probed u w w' -> advances allowed w w'.
Proof.
  intros [Hfs (events & Htr & Hg & _)]. split.
  - rewrite Hfs. apply keeps_refl.
  - exists events. split; [done|]. rewrite Hg. intros u' Hu'. by apply elem_of_nil in Hu'.
Qed.

(** *** [fetch_git] *)

Lemma advances_url_get allowed u (w0 w w1 : World) response :
  advances allowed w0 w ->
  url_get u w = (response, w1) ->
  advances allowed w0 w1.
Proof.
  intros Hw Hget. eapply advances_trans; [exact Hw|].
  destruct (url_get_probed u w) as (r & w' & Hr & Hp).
  rewrite Hget in Hr. injection Hr as _ <-. by eapply probed_advances.
Qed.

Lemma advances_phase base jobs kind tasks done (w0 w : World) r :
  advances (run_request base directory w0) w0 w ->
  phase base jobs kind tasks done w r ->
  advances (run_request base directory w0) w0 (Pool.run_world r).
Proof.
  intros Hw Hphase. eapply advances_trans; [exact Hw|].
  apply process_tasks_advances in Hphase.
  eapply advances_weaken; [|exact Hphase].
  intros u. apply run_request_keeps. by destruct Hw.
Qed.

Ltac chain :=
  repeat first
    [ assumption
    | apply advances_refl
    | apply advances_emit_r; [reflexivity|]
    | match goal with
      | H : phase _ _ _ _ _ _ ?r |- advances _ _ (Pool.run_world ?r) =>
          eapply advances_phase; [|exact H]
      | H : url_get _ _ = (_, ?w) |- advances _ _ ?w =>
          eapply advances_url_get; [|exact H]
      end ].

(** A call of [fetch_git] loses no file and sends no GET, apart from its two
    probes, for a file that was in the output directory when it was
    called. *)
Lemma fetch_git_advances url jobs retry timeout (w0 w' : World) outcome :
  fetch_git url jobs retry timeout w0 outcome w' ->
  advances (run_request (base_url url) directory w0) w0 w'.
Proof.
  intros Hrun. destruct Hrun; chain.
Qed.

(** C7. Whatever is in the output directory when the tool is run is still
    there when it ends; and a file that is there when the tool is run, as
    after an earlier run against the same URL and directory, is not
    requested by any worker during the run: no GET of its URL is sent. The
    requests of [url_get], for [.git/HEAD] and for the listing of [.git/], are
    sent on every run. *)
Theorem present_file_not_requested url jobs retry timeout (w0 w' : World)
    outcome (p : string) :
  fetch_git url jobs retry timeout w0 outcome w' ->
  path_exists (local p) (fs w0) = true ->
  endswith p "/" = false ->
  path_exists (local p) (fs w') = true /\
  exists events,
    trace w' = trace w0 ++ events /\
    base_url url +++ "/" +++ p ∉ gets events.
Proof.
  intros Hrun Hex Hfile.
  destruct (fetch_git_advances _ _ _ _ _ _ _ Hrun) as [Hk (events & Htr & Hg)].
  split; [by apply Hk|]. exists events. split; [done|].
  intros Hin. destruct (Hg _ Hin) as (p' & Heq & Hwhy).
  apply String.app_inj in Heq. apply String.app_inj in Heq. subst p'.
  unfold Dumper.local in *. destruct Hwhy; congruence.
Qed.

(** C8, amended. When the asserts hold and the probe of [<base>/.git/HEAD]
    ends with a status other than 200, or with a body that does not begin
    with [ref:], [fetch_git] returns 1, which the program exits with; it has
    printed an error on stderr; the output directory is as it was; and all it
    has sent are the GETs of that probe, of [<base>/.git/HEAD]: one, unless
    the server answers 403, which [url_get] asks again, five times at most. *)
Theorem fetch_git_without_head url jobs retry timeout (w0 w1 : World) response :
  preconditions jobs retry timeout w0 = true ->
  url_get (base_url url +++ "/.git/HEAD") w0 = (Some response, w1) ->
  status_code response <> 200%Z \/ startswith (text response) "ref:" = false ->
  (exists message,
      fetch_git url jobs retry timeout w0 (Return 1) (emit [Print (Error message)] w1)) /\
  (forall outcome w',
      fetch_git url jobs retry timeout w0 outcome w' ->
      outcome = Return 1 /\
      (exists message, w' = emit [Print (Error message)] w1) /\
      fs w' = fs w0 /\
      exists events,
        trace w' = trace w0 ++ events /\
        gets events = [] /\
        (forall u, u ∈ probes events -> u = base_url url +++ "/.git/HEAD") /\
        (1 <= length (probes events) <= 5)%nat) /\
  (forall first srv,
      serve (server w0) (base_url url +++ "/.git/HEAD") = (first, srv) ->
      status_code first <> 403%Z ->
      response = first /\
      probes (trace w1) = probes (trace w0) ++ [base_url url +++ "/.git/HEAD"]).
Proof.
  intros Hpre Hget Hbad.
  assert (Hcases : (status_code response =? 200)%Z = false \/
                   (status_code response =? 200)%Z = true /\
                   startswith (text response) "ref:" = false).
  { destruct (status_code response =? 200)%Z eqn:E; [right | by left].
    split; [done|]. destruct Hbad as [Hne|?]; [|done].
    apply Z.eqb_eq in E. done. }
  destruct (url_get_probed (base_url url +++ "/.git/HEAD") w0)
    as (r & w & Hr & Hfs & events & Htr & Hg & Hp & Hlen).
  rewrite Hget in Hr. injection Hr as <- <-.
  split; [|split].
  - destruct Hcases as [H200|[H200 Href]].
    + eexists. by eapply fetch_git_no_head.
    + eexists. by eapply fetch_git_not_head.
  - intros outcome w' Hrun.
    assert (Hend : outcome = Return 1 /\ exists message, w' = emit [Print (Error message)] w1).
    { destruct Hrun as [Hno | r' w1' _ Hget' _ | r' w1' _ Hget' _ _
                       | r' w1' ? ? ? _ Hget' H200 Href
                       | r' w1' ? ? ? ? ? ? ? ? ? _ Hget' H200 Href
                       | r' w1' ? ? ? ? ? ? ? _ Hget' H200 Href
                       | r' w1' ? ? ? ? _ Hget' H200 Href
                       | r' w1' ? ? ? ? ? ? _ Hget' H200 Href ];
        try congruence;
        rewrite Hget in Hget'; injection Hget' as <- <-;
        try (split; [done | by eexists]);
        destruct Hcases as [?|[_ ?]]; congruence. }
    destruct Hend as [-> [message ->]].
    split; [done|]. split; [by eexists|]. split; [done|].
    exists (events ++ [Print (Error message)]).
    split; [cbn [trace Workers.emit]; by rewrite Htr, app_assoc|].
    rewrite gets_app, probes_app, Hg. cbn [gets probes omap].
    rewrite !app_nil_r. split; [done|]. split; done.
  - intros first srv Hs Hne.
    rewrite (url_get_single _ _ _ _ Hs Hne) in Hget. injection Hget as <- <-.
    split; [done|]. cbn [trace]. by rewrite probes_app.
Qed.

End Phases.

(** *** A run against a server where nothing is found *)

Import Samples.

Example base_url_of_head : base_url "http://h/.git/HEAD" = "http://h".
Proof. reflexivity. Qed.

Example base_url_of_git : base_url "http://h/repo/.git//" = "http://h/repo".
Proof. reflexivity. Qed.

Example pack_tasks_of_packs :
  pack_tasks sample_abspath "/out" packs_out
  = Some [".git/objects/pack/pack-0123456789abcdef0123456789abcdef01234567.idx";
          ".git/objects/pack/pack-0123456789abcdef0123456789abcdef01234567.pack"] /\
  pack_tasks sample_abspath "/out" empty_out = Some [].
Proof. vm_compute. split; reflexivity. Qed.

Example find_objects_of_info_refs :
  find_objects sample_abspath no_blobs no_packed "/out" earlier_out
  = Some (Ok ({["0123456789abcdef0123456789abcdef01234567"]}, ∅)) /\
  find_objects sample_abspath no_blobs no_packed "/out" blocked_out = None.
Proof. vm_compute. split; reflexivity. Qed.

Lemma aborted_run :
  fetch_git nat nothing sample_abspath sample_hrefs sample_urlparse no_object
    no_blobs no_packed "/out" "http://h/.git/" 10 3 3 second_run (Return 1)
    (emit nat [Print (Error ("error: http://h/.git/HEAD does not exist" +++ nl))]
       (snd (url_get nat nothing "http://h/.git/HEAD" second_run))).
Proof.
  eapply (fetch_git_no_head nat nothing sample_abspath sample_hrefs sample_urlparse
            no_object no_blobs no_packed "/out" "http://h/.git/" 10 3 3 second_run
            {| status_code := 404; headers := []; text := "" |}).
  - reflexivity.
  - reflexivity.
  - reflexivity.
Qed.

Lemma fetch_git_without_head_witness :
  preconditions nat sample_abspath "/out" 10 3 3 second_run = true /\
  fetch_git nat nothing sample_abspath sample_hrefs sample_urlparse no_object
    no_blobs no_packed "/out" "http://h/.git/" 10 3 3 second_run (Return 1)
    (emit nat [Print (Error ("error: http://h/.git/HEAD does not exist" +++ nl))]
       (snd (url_get nat nothing "http://h/.git/HEAD" second_run))) /\
  forall outcome w',
    fetch_git nat nothing sample_abspath sample_hrefs sample_urlparse no_object
      no_blobs no_packed "/out" "http://h/.git/" 10 3 3 second_run outcome w' ->
    outcome = Return 1.
Proof.
  split; [reflexivity|]. split; [exact aborted_run|].
  intros outcome w' Hrun.
  destruct (fetch_git_without_head nat nothing sample_abspath sample_hrefs
              sample_urlparse no_object no_blobs no_packed "/out" "http://h/.git/" 10 3 3
              second_run (snd (url_get nat nothing "http://h/.git/HEAD" second_run))
              {| status_code := 404; headers := []; text := "" |}
              eq_refl eq_refl (or_introl (fun H : 404%Z = 200%Z => ltac:(discriminate H))))
    as (_ & Hall & _).
  exact (proj1 (Hall outcome w' Hrun)).
Defined.

(** *** A second run against a server that lists [.git/] *)

Lemma listed_follow_ups (task : string) (w : World nat) :
  fst (recursive_do_task nat listing sample_abspath sample_hrefs sample_urlparse
         "http://h" "/out" task w)
  = Some (listed task).
Proof.
  destruct (decide (task = ".git/")) as [->|Hdir]; [reflexivity|].
  destruct (decide (task = ".git/HEAD")) as [->|Hhead].
  { unfold recursive_do_task. cbn [endswith].
    destruct (path_exists _ (fs w)); reflexivity. }
  assert (Hlisted : listed task = []).
  { unfold listed. by apply String.eqb_neq in Hdir as ->. }
  rewrite Hlisted. unfold recursive_do_task.
  destruct (negb (endswith task "/") && path_exists _ (fs w)); [done|].
  unfold loop_fuel. cbn [recursive_loop Z.ltb Z.compare]. unfold request.
  assert (Hserve : listing (server w) ("http://h" +++ "/" +++ task)
                   = ({| status_code := 404; headers := []; text := "" |}, S (server w))).
  { unfold listing.
    assert (H1 : String.eqb ("http://h" +++ "/" +++ task) "http://h/.git/HEAD" = false).
    { apply String.eqb_neq. intros Heq.
      change "http://h/.git/HEAD" with ("http://h" +++ "/" +++ ".git/HEAD") in Heq.
      apply String.app_inj in Heq. apply String.app_inj in Heq. done. }
    assert (H2 : String.eqb ("http://h" +++ "/" +++ task) "http://h/.git/" = false).
    { apply String.eqb_neq. intros Heq.
      change "http://h/.git/" with ("http://h" +++ "/" +++ ".git/") in Heq.
      apply String.app_inj in Heq. apply String.app_inj in Heq. done. }
    by rewrite H1, H2. }
  rewrite Hserve. reflexivity.
Qed.

Lemma listed_closure_bound (t : string) :
  Pool.closure listed [".git/"; ".gitignore"] t ->
  t ∈ [".git/"; ".gitignore"; ".git/HEAD"; ".git/refs/"].
Proof.
  induction 1 as [t Ht | t u _ IH Hu].
  - apply elem_of_cons in Ht as [->|Ht]; [by left|].
    apply list_elem_of_singleton in Ht as ->. right. by left.
  - assert (Ht : t = ".git/").
    { unfold listed in Hu. destruct (String.eqb t ".git/") eqn:E.
      - by apply String.eqb_eq in E.
      - by apply elem_of_nil in Hu. }
    subst t. apply elem_of_cons in Hu as [->|Hu].
    + do 2 right. by left.
    + apply list_elem_of_singleton in Hu as ->. do 3 right. by left.
Qed.

(** A second run against the server that lists [.git/]: it goes the
    recursive way and returns 0. *)
Lemma mirrored_run_returns :
  exists w',
    fetch_git nat listing sample_abspath sample_hrefs sample_urlparse no_object
      no_blobs no_packed "/out" "http://h/.git/" 10 3 3 mirrored_run (Return 0) w'.
Proof.
  destruct (PoolFacts.process_tasks_returns
              (do_task nat listing sample_abspath sample_hrefs sample_urlparse no_object
                       "http://h" "/out" RecursiveDownloadWorker)
              (Z.to_nat 10) listed listed_follow_ups None [".git/"; ".gitignore"]
              (list_to_set [".git/"; ".gitignore"; ".git/HEAD"; ".git/refs/"])
              (fun t Ht => proj2 (elem_of_list_to_set _ _)
                 (listed_closure_bound t (proj1 (PoolFacts.explored_closure _ _ _ _ Ht))))
              ltac:(simpl; lia)
              (emit nat [Print (Info ("[-] Fetching .git recursively" +++ nl))]
                 (snd (url_get nat listing "http://h/.git/"
                    (snd (url_get nat listing "http://h/.git/HEAD" mirrored_run))))))
    as [r Hr].
  eexists.
  eapply (fetch_git_listing nat listing sample_abspath sample_hrefs sample_urlparse
            no_object no_blobs no_packed "/out" "http://h/.git/" 10 3 3 mirrored_run
            {| status_code := 200; headers := []; text := "ref: refs/heads/master" +++ nl |}
            (snd (url_get nat listing "http://h/.git/HEAD" mirrored_run))
            sample_page
            (snd (url_get nat listing "http://h/.git/"
                    (snd (url_get nat listing "http://h/.git/HEAD" mirrored_run))))
            r).
  - reflexivity.
  - reflexivity.
  - reflexivity.
  - reflexivity.
  - reflexivity.
  - reflexivity.
  - exact Hr.
Qed.

(** *** A server that answers 403 to the first request *)

Lemma hesitant_follow_ups (task : string) (w : World nat) :
  fst (recursive_do_task nat hesitant sample_abspath sample_hrefs sample_urlparse
         "http://h" "/out" task w)
  = Some (listed task).
Proof.
  destruct w as [disk [|n] events].
  - destruct (decide (task = ".git/")) as [->|Hdir]; [reflexivity|].
    destruct (decide (task = ".git/HEAD")) as [->|Hhead].
    { unfold recursive_do_task. cbn [endswith fs].
      destruct (path_exists _ disk); reflexivity. }
    assert (Hlisted : listed task = []).
    { unfold listed. by apply String.eqb_neq in Hdir as ->. }
    rewrite Hlisted. unfold recursive_do_task. cbn [fs].
    destruct (negb (endswith task "/") && path_exists _ disk); [done|].
    unfold loop_fuel. cbn [recursive_loop Z.ltb Z.compare]. unfold request.
    cbn [server hesitant status_code Z.eqb Pos.eqb orb andb negb Workers.emit
         recursive_loop Z.ltb Z.compare Z.add Pos.add Pos.succ].
    assert (Hserve : listing 1 ("http://h" +++ "/" +++ task)
                     = ({| status_code := 404; headers := []; text := "" |}, 2)).
    { unfold listing.
      assert (H1 : String.eqb ("http://h" +++ "/" +++ task) "http://h/.git/HEAD" = false).
      { apply String.eqb_neq. intros Heq.
        change "http://h/.git/HEAD" with ("http://h" +++ "/" +++ ".git/HEAD") in Heq.
        apply String.app_inj in Heq. apply String.app_inj in Heq. done. }
      assert (H2 : String.eqb ("http://h" +++ "/" +++ task) "http://h/.git/" = false).
      { apply String.eqb_neq. intros Heq.
        change "http://h/.git/" with ("http://h" +++ "/" +++ ".git/") in Heq.
        apply String.app_inj in Heq. apply String.app_inj in Heq. done. }
      by rewrite H1, H2. }
    rewrite Hserve. reflexivity.
  - exact (listed_follow_ups task {| fs := disk; server := S n; trace := events |}).
Qed.

(** C8, as the claim states it, fails when the first answer to the GET of
    [<base>/.git/HEAD] is 403: [url_get] asks again, and with a second answer
    of 200 and a HEAD file the run goes on, here to the recursive download and
    to the return of 0. *)
Lemma head_probe_retried :
  status_code (fst (hesitant (server mirrored_run) "http://h/.git/HEAD")) = 403%Z /\
  probes (trace (snd (url_get nat hesitant "http://h/.git/HEAD" mirrored_run)))
  = ["http://h/.git/HEAD"; "http://h/.git/HEAD"] /\
  exists w',
    fetch_git nat hesitant sample_abspath sample_hrefs sample_urlparse no_object
      no_blobs no_packed "/out" "http://h/.git/" 10 3 3 mirrored_run (Return 0) w'.
Proof.
  split; [reflexivity|]. split; [reflexivity|].
  destruct (PoolFacts.process_tasks_returns
              (do_task nat hesitant sample_abspath sample_hrefs sample_urlparse no_object
                       "http://h" "/out" RecursiveDownloadWorker)
              (Z.to_nat 10) listed hesitant_follow_ups None [".git/"; ".gitignore"]
              (list_to_set [".git/"; ".gitignore"; ".git/HEAD"; ".git/refs/"])
              (fun t Ht => proj2 (elem_of_list_to_set _ _)
                 (listed_closure_bound t (proj1 (PoolFacts.explored_closure _ _ _ _ Ht))))
              ltac:(simpl; lia)
              (emit nat [Print (Info ("[-] Fetching .git recursively" +++ nl))]
                 (snd (url_get nat hesitant "http://h/.git/"
                    (snd (url_get nat hesitant "http://h/.git/HEAD" mirrored_run))))))
    as [r Hr].
  eexists.
  eapply (fetch_git_listing nat hesitant sample_abspath sample_hrefs sample_urlparse
            no_object no_blobs no_packed "/out" "http://h/.git/" 10 3 3 mirrored_run
            {| status_code := 200; headers := []; text := "ref: refs/heads/master" +++ nl |}
            (snd (url_get nat hesitant "http://h/.git/HEAD" mirrored_run))
            sample_page
            (snd (url_get nat hesitant "http://h/.git/"
                    (snd (url_get nat hesitant "http://h/.git/HEAD" mirrored_run))))
            r).
  - reflexivity.
  - reflexivity.
  - reflexivity.
  - reflexivity.
  - reflexivity.
  - reflexivity.
  - exact Hr.
Qed.

Lemma present_file_not_requested_witness :
  exists w',
    fetch_git nat listing sample_abspath sample_hrefs sample_urlparse no_object
      no_blobs no_packed "/out" "http://h/.git/" 10 3 3 mirrored_run (Return 0) w' /\
    path_exists (sample_abspath "/out" ".git/HEAD") (fs mirrored_run) = true /\
    endswith ".git/HEAD" "/" = false /\
    path_exists (sample_abspath "/out" ".git/HEAD") (fs w') = true /\
    exists events,
      trace w' = trace mirrored_run ++ events /\
      "http://h" +++ "/" +++ ".git/HEAD" ∉ gets events.
Proof.
  destruct mirrored_run_returns as [w' Hrun]. exists w'.
  split; [exact Hrun|]. split; [reflexivity|]. split; [reflexivity|].
  exact (present_file_not_requested nat listing sample_abspath sample_hrefs
           sample_urlparse no_object no_blobs no_packed "/out" "http://h/.git/" 10 3 3
           mirrored_run w' (Return 0) ".git/HEAD" Hrun eq_refl eq_refl).
Defined.

End DumperFacts.

(** ** Python strings *)

Module PyFacts.
Import Py.

Lemma append_cons c (a b : string) : String c a +++ b = String c (a +++ b).
Proof. reflexivity. Qed.

Lemma append_nil_r (s : string) : s +++ "" = s.
Proof.
  induction s as [|c s IH]; [done|]. by rewrite append_cons, IH.
Qed.

Lemma append_assoc (a b c : string) : (a +++ b) +++ c = a +++ b +++ c.
Proof.
  induction a as [|x a IH]; [done|]. by rewrite !append_cons, IH.
Qed.

Lemma length_append (a b : string) :
  String.length (a +++ b) = String.length a + String.length b.
Proof.
  induction a as [|x a IH]; [done|]. rewrite append_cons. simpl. by rewrite IH.
Qed.

Lemma rev_app_acc (s acc : string) :
  String.rev_app s acc = String.rev_app s "" +++ acc.
Proof.
  revert acc. induction s as [|c s IH]; intros acc; simpl; [done|].
  rewrite (IH (String c acc)), (IH (String c "")). by rewrite append_assoc.
Qed.

Lemma rev_cons c (s : string) : String.rev (String c s) = String.rev s +++ String c "".
Proof. unfold String.rev. simpl. apply rev_app_acc. Qed.

Lemma rev_append (a b : string) : String.rev (a +++ b) = String.rev b +++ String.rev a.
Proof.
  induction a as [|c a IH].
  - change ("" +++ b) with b. by rewrite append_nil_r.
  - rewrite append_cons, !rev_cons, IH. by rewrite append_assoc.
Qed.

Lemma rev_involutive (s : string) : String.rev (String.rev s) = s.
Proof.
  induction s as [|c s IH]; [done|].
  rewrite rev_cons, rev_append, IH. reflexivity.
Qed.

Lemma substring_all (s : string) : String.substring 0 (String.length s) s = s.
Proof. induction s as [|c s IH]; simpl; [done | by rewrite IH]. Qed.

Lemma substring_prefix (a b : string) :
  String.substring 0 (String.length a) (a +++ b) = a.
Proof.
  induction a as [|c a IH].
  - change ("" +++ b) with b. by destruct b.
  - rewrite append_cons. simpl. by rewrite IH.
Qed.

(** [(a + b)[:-len(b)]] is [a]. *)
Lemma drop_last_append (a b : string) : drop_last (String.length b) (a +++ b) = a.
Proof.
  unfold drop_last. rewrite length_append.
  replace (String.length a + String.length b - String.length b)
    with (String.length a) by lia.
  apply substring_prefix.
Qed.

Lemma lstrip_slash_fixed (s : string) :
  String.prefix "/" s = false -> lstrip_slash s = s.
Proof.
  destruct s as [|c s]; [done|]. simpl.
  destruct (Ascii.ascii_dec "/" c) as [<-|Hne]; [by destruct s|].
  intros _. destruct c as [[] [] [] [] [] [] [] []]; try done.
Qed.

Lemma lstrip_slash_stripped (s : string) : String.prefix "/" (lstrip_slash s) = false.
Proof.
  induction s as [|c s IH]; [done|].
  destruct (Ascii.ascii_dec c "/") as [->|Hne]; [exact IH|].
  destruct c as [[] [] [] [] [] [] [] []]; try done.
Qed.

(** [s.rstrip('/')] leaves a string that does not end with a slash as it
    is, and always leaves a string that does not end with one. *)
Lemma rstrip_slash_fixed (s : string) : endswith s "/" = false -> rstrip_slash s = s.
Proof.
  unfold endswith, rstrip_slash. intros Hs.
  rewrite lstrip_slash_fixed; [apply rev_involutive | exact Hs].
Qed.

Lemma rstrip_slash_stripped (s : string) : endswith (rstrip_slash s) "/" = false.
Proof.
  unfold endswith, rstrip_slash. rewrite rev_involutive.
  apply lstrip_slash_stripped.
Qed.

Lemma rstrip_slash_slash (s : string) : rstrip_slash (s +++ "/") = rstrip_slash s.
Proof. unfold rstrip_slash. by rewrite rev_append. Qed.

Lemma endswith_append (s p : string) : endswith (s +++ p) p = true.
Proof.
  unfold endswith. rewrite rev_append.
  generalize (String.rev p) (String.rev s). clear. intros a b.
  induction a as [|c a IH].
  - change ("" +++ b) with b. by destruct b.
  - rewrite append_cons. simpl. destruct (Ascii.ascii_dec c c); [exact IH | done].
Qed.

End PyFacts.

(** ** The counter of pending tasks *)

Module LedgerFacts.
Import Pool Ledger PoolFacts.

Section Machine.

Context {Task : Type} `{Countable Task}.
Context {World : Type}.

Variable do_task : Task -> World -> option (list Task) * World.
Variable jobs : nat.

Local Abbreviation State := (@State Task _ _ World).
Local Abbreviation step := (@step Task _ _ World do_task jobs).
Local Abbreviation accounts := (@accounts Task _ _ World jobs).

Lemma fmap_some_inv (l : list Task) (q : list (option Task)) x :
  x :: q = Some <$> l -> exists t l', x = Some t /\ l = t :: l' /\ q = Some <$> l'.
Proof. destruct l as [|t l']; csimpl; intros Heq; [done|]. injection Heq as -> ->. eauto. Qed.

Ltac count :=
  unfold backlog in *;
  cbn [tasks_seen pending_tasks tasks_done control busy idle num_pending_tasks
       with_control enqueue crash] in *;
  repeat match goal with
         | E : pending_tasks _ = _ :: _ |- _ => rewrite E in *
         | E : tasks_done _ = _ :: _ |- _ => rewrite E in *
         | E : busy _ = _ ++ _ :: _ |- _ => rewrite E in *
         | E : busy _ = [] |- _ => rewrite E in *
         | E : idle _ = S _ |- _ => rewrite E in *
         | E : idle _ = 0 |- _ => rewrite E in *
         | E : num_pending_tasks _ = S _ |- _ => rewrite E in *
         | E : num_pending_tasks _ = 0 |- _ => rewrite E in *
         end;
  rewrite ?waiting_app, ?waiting_signals, ?length_app in *;
  cbn [length waiting omap id app] in *.

Lemma accounts_offer task c (s : State) :
  (exists rest, control s = Collecting rest) ->
  accounts s -> accounts (with_control (Collecting c) (offer task s)).
Proof.
  intros [rest Hc] [Hb Hcol Hjoin Hret]. destruct (Hcol rest Hc) as [Hq Hj].
  unfold offer. destruct (decide _).
  - split; cbn [control with_control]; try done.
  - split; cbn [control with_control]; try done.
    + count. simpl. lia.
    + intros _ _. count. simpl. split; [|lia].
      rewrite fmap_app. simpl. by rewrite <- Hq.
Qed.

Lemma accounts_step (s s' : State) : accounts s -> step s s' -> accounts s'.
Proof.
  intros [Hb Hcol Hjoin Hret] Hstep.
  destruct Hstep as [s task rest n Hq Hi | s before task after result w Hbusy Hdo
                    | s before task after w Hbusy Hdo | s rest n Hq Hi
                    | s task_result rest n Hc Hn Hq | s task rest Hc
                    | s Hc Hn | s Hc Hi Hbusy].
  - split; cbn [control]; count; simpl in *.
    + lia.
    + intros c Hc. destruct (Hcol c Hc) as [Hsome Hj].
      injection Hsome as Hsome. split; [done | lia].
    + intros Hc. by destruct (Hjoin Hc) as [_ Hp].
    + intros Hc. by destruct (Hret Hc) as (_ & Hp & _).
  - split; cbn [control]; count; simpl in *.
    + lia.
    + intros c Hc. destruct (Hcol c Hc) as [Hsome Hj]. split; [done | lia].
    + intros Hc. destruct (Hjoin Hc) as [Hn _]. lia.
    + intros Hc. destruct (Hret Hc) as [Hn _]. lia.
  - split; cbn [control]; count; simpl in *.
    + lia.
    + intros c Hc. destruct (Hcol c Hc) as [Hsome Hj]. split; [done | lia].
    + intros Hc. destruct (Hjoin Hc) as [Hn _]. lia.
    + intros Hc. destruct (Hret Hc) as [Hn _]. lia.
  - split; cbn [control]; count; simpl in *.
    + lia.
    + intros c Hc. destruct (Hcol c Hc) as [Hsome _].
      apply fmap_some_inv in Hsome as (t & l' & Ht & _). discriminate.
    + intros Hc. destruct (Hjoin Hc) as [Hn Hp]. injection Hp as Hp. done.
    + intros Hc. by destruct (Hret Hc) as (_ & Hp & _).
  - split; cbn [control]; count; simpl in *; try done.
    + lia.
    + intros c _. destruct (Hcol _ Hc) as [Hsome Hj]. split; [done | lia].
  - apply accounts_offer; [by eexists | by split].
  - destruct (Hcol _ Hc) as [Hsome Hj].
    assert (Hw : waiting (pending_tasks s) = []).
    { apply length_zero_iff_nil. unfold backlog in Hb. lia. }
    split; cbn [control]; try done.
    + count. simpl in *. lia.
    + intros _. split; [done|]. cbn [pending_tasks idle].
      rewrite Hsome, Hw. simpl. f_equal. unfold backlog in *. rewrite Hw in *.
      simpl in *. lia.
  - destruct (Hjoin Hc) as [Hn Hp].
    split; cbn [control with_control]; try done.
    intros _. cbn [num_pending_tasks pending_tasks idle with_control].
    rewrite Hp, Hi. done.
Qed.

Lemma accounts_blank (initial : list Task) (done : option (gset Task)) (w : World) :
  accounts (with_control (Collecting initial) (blank jobs done w)).
Proof.
  split; cbn [control with_control blank]; try done.
  intros _ _. unfold backlog. simpl. split; [done | lia].
Qed.

Lemma accounts_steps (s s' : State) : accounts s -> rtc step s s' -> accounts s'.
Proof. intros Hs Hrtc. induction Hrtc; eauto using accounts_step. Qed.

Lemma accounts_reachable (initial : list Task) (done : option (gset Task))
    (w : World) (s : State) :
  rtc step (start jobs initial done w) s -> accounts s.
Proof.
  intros Hrtc. eapply accounts_steps; [apply accounts_blank|].
  etrans; [apply start_reachable | exact Hrtc].
Qed.

(** A result that is lost stays lost. *)
Lemma lost_step (s s' : State) :
  backlog s < num_pending_tasks s -> step s s' ->
  backlog s' < num_pending_tasks s'.
Proof.
  intros Hlost Hstep.
  destruct Hstep as [s task rest n Hq Hi | s before task after result w Hbusy Hdo
                    | s before task after w Hbusy Hdo | s rest n Hq Hi
                    | s task_result rest n Hc Hn Hq | s task rest Hc
                    | s Hc Hn | s Hc Hi Hbusy];
    try (count; simpl in *; lia).
  - unfold offer. destruct (decide _); count; simpl in *; lia.
Qed.

Lemma lost_steps (s s' : State) :
  backlog s < num_pending_tasks s -> rtc step s s' ->
  backlog s' < num_pending_tasks s'.
Proof. intros Hs Hrtc. induction Hrtc; eauto using lost_step. Qed.


Lemma crash_loses (s : State) before task after w :
  accounts s -> busy s = before ++ task :: after ->
  backlog (crash before after w s) < num_pending_tasks (crash before after w s).
Proof. intros [Hb _ _ _] Hbusy. count. simpl in *. lia. Qed.

Lemma lost_collecting (s : State) :
  accounts s -> backlog s < num_pending_tasks s ->
  exists rest, control s = Collecting rest.
Proof.
  intros [_ _ Hjoin Hret] Hlost.
  destruct (control s) as [rest| |] eqn:Hc; [by eexists| |].
  - destruct (Hjoin eq_refl) as [Hn _]. lia.
  - destruct (Hret eq_refl) as [Hn _]. lia.
Qed.

(** *** What the seeds and [do_task] carry over to every task *)

Section Carried.

Variable P : Task -> Prop.
Variable R : World -> World -> Prop.
Hypothesis R_refl : forall w, R w w.
Hypothesis R_trans : forall w1 w2 w3, R w1 w2 -> R w2 w3 -> R w1 w3.
Hypothesis do_task_carries :
  forall t w, P t ->
    R w (snd (do_task t w)) /\
    forall l u, fst (do_task t w) = Some l -> u ∈ l -> P u.

Local Abbreviation carries := (@carries Task _ _ World P).

Lemma carries_offer task c (s : State) :
  P task -> (forall t, t ∈ c -> P t) ->
  carries s -> carries (with_control (Collecting c) (offer task s)).
Proof.
  intros Htask Hc [Hp Hb Hd Hbatch Hcalls]. unfold offer. destruct (decide _).
  - split; cbn [pending_tasks busy tasks_done control calls with_control]; try done.
    intros rest t [= <-]. auto.
  - split; cbn [pending_tasks busy tasks_done control calls with_control enqueue];
      try done.
    + intros t [Ht|Ht]%elem_of_app; [auto|].
      apply list_elem_of_singleton in Ht. by injection Ht as ->.
    + intros rest t [= <-]. auto.
Qed.

Lemma carries_step (s s' : State) :
  carries s -> step s s' -> carries s' /\ R (world s) (world s').
Proof.
  intros [Hp Hb Hd Hbatch Hcalls] Hstep.
  destruct Hstep as [s task rest n Hq Hi | s before task after result w Hbusy Hdo
                    | s before task after w Hbusy Hdo | s rest n Hq Hi
                    | s task_result rest n Hc Hn Hq | s task rest Hc
                    | s Hc Hn | s Hc Hi Hbusy].
  - assert (Ht : P task) by (apply Hp; rewrite Hq; by left).
    split; [|apply R_refl].
    split; cbn [pending_tasks busy tasks_done control calls]; try done.
    + intros t Hin. apply Hp. rewrite Hq. by right.
    + intros t [Hin| ->%list_elem_of_singleton]%elem_of_app; auto.
    + intros t [Hin| ->%list_elem_of_singleton]%elem_of_app; auto.
  - assert (Ht : P task).
    { apply Hb. rewrite Hbusy. apply elem_of_app. right. by left. }
    destruct (do_task_carries task (world s) Ht) as [HR Hl]. rewrite Hdo in HR, Hl.
    split; [|exact HR].
    split; cbn [pending_tasks busy tasks_done control calls]; try done.
    + intros t Hin. apply Hb. rewrite Hbusy.
      apply elem_of_app in Hin as [Hin|Hin]; apply elem_of_app; [by left|].
      right. by right.
    + intros r t [Hr| ->%list_elem_of_singleton]%elem_of_app Hin; [by eapply Hd|].
      by eapply Hl.
  - assert (Ht : P task).
    { apply Hb. rewrite Hbusy. apply elem_of_app. right. by left. }
    destruct (do_task_carries task (world s) Ht) as [HR _]. rewrite Hdo in HR.
    split; [|exact HR].
    split; cbn [pending_tasks busy tasks_done control calls]; try done.
    intros t Hin. apply Hb. rewrite Hbusy.
    apply elem_of_app in Hin as [Hin|Hin]; apply elem_of_app; [by left|].
    right. by right.
  - split; [|apply R_refl].
    split; cbn [pending_tasks busy tasks_done control calls]; try done.
    intros t Hin. apply Hp. rewrite Hq. by right.
  - split; [|apply R_refl].
    split; cbn [pending_tasks busy tasks_done control calls]; try done.
    + intros r t Hr Hin. apply (Hd r t); [|done]. rewrite Hq. by right.
    + intros c t [= <-] Hin. apply (Hd task_result t); [|done]. rewrite Hq. by left.
  - split.
    + apply carries_offer.
      * apply (Hbatch _ task Hc). by left.
      * intros t Hin. apply (Hbatch _ t Hc). by right.
      * by split.
    + cbn [world with_control]. unfold offer. destruct (decide _); apply R_refl.
  - split; [|apply R_refl].
    split; cbn [pending_tasks busy tasks_done control calls]; try done.
    intros t [Hin|Hin]%elem_of_app; [auto|].
    apply elem_of_replicate in Hin as [? _]. done.
  - split; [|apply R_refl]. by split.
Qed.

Lemma carries_steps (s s' : State) :
  carries s -> rtc step s s' -> carries s' /\ R (world s) (world s').
Proof.
  intros Hs Hrtc. induction Hrtc as [s | s s1 s2 Hstep _ IH]; [by split|].
  destruct (carries_step s s1 Hs Hstep) as [Hs1 HR1].
  destruct (IH Hs1) as [Hs2 HR2]. split; [done | by eapply R_trans].
Qed.

Lemma carries_reachable (initial : list Task) (done : option (gset Task))
    (w : World) (s : State) :
  (forall t, t ∈ initial -> P t) ->
  rtc step (start jobs initial done w) s ->
  carries s /\ R w (world s).
Proof.
  intros Hseeds Hrtc.
  apply (carries_steps (with_control (Collecting initial) (blank jobs done w))).
  - split; cbn [pending_tasks busy tasks_done control calls with_control blank].
    + intros t Hin. by apply elem_of_nil in Hin.
    + intros t Hin. by apply elem_of_nil in Hin.
    + intros r t Hin. by apply elem_of_nil in Hin.
    + intros rest t [= <-]. auto.
    + intros t Hin. by apply elem_of_nil in Hin.
  - etrans; [apply start_reachable | exact Hrtc].
Qed.

End Carried.

(** X1. An exception in [do_task] ends the worker process without a result
    (line 109), and the parent then waits for ever at line 151: from the state
    the exception leaves, the parent never gets out of its [while] loop, its
    counter never comes down to zero, and [process_tasks] does not return. *)
Theorem raising_worker_blocks_parent (initial : list Task)
    (done : option (gset Task)) (w : World) (s : State) before task after w1 :
  rtc step (start jobs initial done w) s ->
  busy s = before ++ task :: after ->
  do_task task (world s) = (None, w1) ->
  step s (crash before after w1 s) /\
  forall s', rtc step (crash before after w1 s) s' ->
    (exists rest, control s' = Collecting rest) /\
    0 < num_pending_tasks s' /\
    control s' <> Returned.
Proof.
  intros Hrtc Hbusy Hdo.
  assert (Hstep : step s (crash before after w1 s)) by (by eapply worker_raise).
  split; [done|]. intros s' Hrtc'.
  pose proof (accounts_reachable initial done w s Hrtc) as Hs.
  pose proof (crash_loses s before task after w1 Hs Hbusy) as Hlost.
  pose proof (lost_steps _ _ Hlost Hrtc') as Hlost'.
  assert (Hs' : accounts s').
  { eapply accounts_steps; [|exact Hrtc']. by eapply accounts_step. }
  destruct (lost_collecting s' Hs' Hlost') as [rest Hc].
  split; [by eexists|]. split; [lia|]. rewrite Hc. done.
Qed.

(** X2. When [process_tasks] returns (line 168), whatever [do_task] does:
    every task that was put on the pending queue has been handed to
    [do_task], in the order it was put; the counter of pending tasks is zero;
    both queues are empty, the end signals included; and no worker process is
    left, idle or busy. *)
Theorem returned_pool_is_drained (initial : list Task)
    (done : option (gset Task)) (w : World) (final : State) :
  process_tasks do_task jobs initial done w (Completed final) ->
  calls final = puts (journal final) /\
  num_pending_tasks final = 0 /\
  pending_tasks final = [] /\
  tasks_done final = [] /\
  busy final = [] /\
  idle final = 0.
Proof.
  intros Hrun. inversion Hrun as [|final' _ Hrtc Hc]; subst.
  destruct (accounts_reachable initial done w final Hrtc) as [Hb _ _ Hret].
  destruct (Hret Hc) as (Hn & Hp & Hi).
  destruct (dedup_reachable do_task jobs initial done w final Hrtc) as [_ Hfifo _ _ _].
  unfold backlog in Hb. rewrite Hn in Hb.
  split; [rewrite Hfifo, Hp; simpl; by rewrite app_nil_r|].
  split; [done|]. split; [done|].
  split; [apply length_zero_iff_nil; lia|].
  split; [apply length_zero_iff_nil; lia | done].
Qed.

(** X3. A property of tasks that the seeds have and that [do_task] carries
    over from a task to its follow-ups holds of every task [process_tasks]
    executes; and a relation between worlds that every such call of [do_task]
    respects, if it is reflexive and transitive, holds between the world
    [process_tasks] is called in and the world it returns in. *)
Theorem follow_ups_carry (P : Task -> Prop) (R : World -> World -> Prop)
    (initial : list Task) (done : option (gset Task)) (w : World) (r : Run) :
  (forall w, R w w) ->
  (forall w1 w2 w3, R w1 w2 -> R w2 w3 -> R w1 w3) ->
  (forall t, t ∈ initial -> P t) ->
  (forall t w, P t ->
     R w (snd (do_task t w)) /\
     forall l u, fst (do_task t w) = Some l -> u ∈ l -> P u) ->
  process_tasks do_task jobs initial done w r ->
  R w (run_world r) /\ forall t, t ∈ run_calls r -> P t.
Proof.
  intros Hrefl Htrans Hseeds Hdo Hrun.
  destruct Hrun as [_ | final _ Hrtc _]; cbn [run_world run_calls].
  - split; [apply Hrefl|]. intros t Hin. by apply elem_of_nil in Hin.
  - destruct (carries_reachable P R Hrefl Htrans Hdo initial done w final Hseeds Hrtc)
      as [[_ _ _ _ Hcalls] HR].
    by split.
Qed.

End Machine.

(** *** The pool on the chain of three tasks, and on a worker that raises *)

Import Samples Cases.

Lemma chain_run :
  exists final, process_tasks chain_task 1 ["a"] None () (Completed final).
Proof.
  assert (Hf : forall t (w : unit), fst (chain_task t w) = Some (chain t)) by done.
  destruct (explores_reachable chain_task 1 chain Hf None ["a"] () _ (rtc_refl _ _))
    as [Hd0 He0].
  destruct (pool_returns chain_task 1 chain Hf None ["a"]
              (list_to_set ["a"; "b"; "c"])) with (s := start (World:=unit) 1 ["a"] None ())
    as (final & Hrtc & Hfinal); [| lia | done | done |].
  - intros t Ht. apply elem_of_list_to_set, chain_closure_bound.
    by apply explored_closure in Ht as [? _].
  - exists final. by apply process_all.
Qed.

Lemma chain_stays (t u : string) :
  t ∈ ["a"; "b"; "c"] -> u ∈ chain t -> u ∈ ["a"; "b"; "c"].
Proof.
  intros Ht Hu. apply chain_closure_bound. apply closure_next with t; [|done].
  apply elem_of_cons in Ht as [->|Ht]; [apply closure_seed; by left|].
  apply elem_of_cons in Ht as [->|Ht].
  { apply closure_next with "a"; [apply closure_seed|]; by left. }
  apply list_elem_of_singleton in Ht as ->.
  apply closure_next with "b"; [|by left].
  apply closure_next with "a"; [apply closure_seed|]; by left.
Qed.

Lemma taken_b_reached : rtc (step brittle 1) (start 1 ["b"] None ()) taken_b.
Proof.
  apply rtc_once.
  exact (worker_get brittle 1 (start 1 ["b"] None ()) "b" [] 0 eq_refl eq_refl).
Qed.

Lemma raising_worker_blocks_parent_witness :
  rtc (step brittle 1) (start 1 ["b"] None ()) taken_b /\
  busy taken_b = [] ++ "b" :: [] /\
  brittle "b" (world taken_b) = (None, ()) /\
  forall s', rtc (step brittle 1) (crash [] [] () taken_b) s' -> control s' <> Returned.
Proof.
  split; [exact taken_b_reached|]. split; [reflexivity|]. split; [reflexivity|].
  intros s' Hrtc.
  exact (proj2 (proj2 (proj2 (raising_worker_blocks_parent brittle 1 ["b"] None ()
                  taken_b [] "b" [] () taken_b_reached eq_refl eq_refl) s' Hrtc))).
Defined.

Lemma returned_pool_is_drained_witness :
  exists final,
    process_tasks chain_task 1 ["a"] None () (Completed final) /\
    calls final = puts (journal final) /\ pending_tasks final = [] /\ idle final = 0.
Proof.
  destruct chain_run as [final Hrun]. exists final. split; [exact Hrun|].
  destruct (returned_pool_is_drained chain_task 1 ["a"] None () final Hrun)
    as (Hcalls & _ & Hp & _ & _ & Hi).
  split; [exact Hcalls|]. split; [exact Hp | exact Hi].
Defined.

Lemma follow_ups_carry_witness :
  exists final,
    process_tasks chain_task 1 ["a"] None () (Completed final) /\
    forall t, t ∈ calls final -> t ∈ ["a"; "b"; "c"].
Proof.
  destruct chain_run as [final Hrun]. exists final. split; [exact Hrun|].
  refine (proj2 (follow_ups_carry chain_task 1 (fun t => t ∈ ["a"; "b"; "c"])
                   (fun _ _ => True) ["a"] None () (Completed final)
                   (fun _ => I) (fun _ _ _ _ _ => I) _ _ Hrun)).
  - intros t Ht. apply list_elem_of_singleton in Ht as ->. by left.
  - intros t w Ht. split; [exact I|]. intros l u [= <-] Hu. by eapply chain_stays.
Defined.

End LedgerFacts.

(** ** What the workers do, whatever the server answers *)

Module EffectsFacts.
Import Py Re OS Http ObjectRefs Listing Workers Effects.
Import PyFacts ReFacts OSFacts WorkersFacts.

Lemma inits_app (e1 e2 : list Event) : inits (e1 ++ e2) = inits e1 + inits e2.
Proof. unfold inits. by rewrite List.filter_app, length_app. Qed.

Lemma slept_app (e1 e2 : list Event) : slept (e1 ++ e2) = (slept e1 + slept e2)%Z.
Proof.
  unfold slept. induction e1 as [|e e1 IH]; simpl; [done|].
  rewrite IH. destruct e; lia.
Qed.

Lemma files_mkdir name (d : FS) : files (mkdir name d) = files d.
Proof. unfold mkdir. by destruct (path_exists name d). Qed.

Lemma files_makedirs fuel name (d : FS) : files (makedirs fuel name d) = files d.
Proof.
  revert name d. induction fuel as [|fuel IH]; intros name d; simpl.
  - apply files_mkdir.
  - destruct (split name) as [head tail].
    destruct (if truthy tail then (head, tail) else split head) as [head' tail'].
    destruct (truthy head' && truthy tail' && negb (path_exists head' d)).
    + by rewrite files_mkdir, IH.
    + apply files_mkdir.
Qed.

Lemma files_create_intermediate_dirs path (d : FS) :
  files (create_intermediate_dirs path d) = files d.
Proof.
  unfold create_intermediate_dirs. destruct (split path) as [dirname basename].
  destruct (truthy dirname && negb (path_exists dirname d)); [apply files_makedirs | done].
Qed.

Lemma retains_refl (d : FS) : retains d d.
Proof. by intros p c. Qed.

Lemma retains_trans (d1 d2 d3 : FS) : retains d1 d2 -> retains d2 d3 -> retains d1 d3.
Proof. intros H12 H23 p c Hp. by apply H23, H12. Qed.

(** Storing a response in a file that is not there changes no file that
    is. *)
Lemma retains_store abspath data (d : FS) :
  path_exists abspath d = false ->
  retains d (write abspath data (create_intermediate_dirs abspath d)).
Proof.
  intros Hex p c Hp. unfold read, write in *. cbn [files].
  rewrite files_create_intermediate_dirs.
  destruct (decide (abspath = p)) as [->|Hne]; [|by rewrite lookup_insert_ne].
  rewrite (path_exists_file p d) in Hex; [done | by eexists].
Qed.

Lemma unprinted_app (e1 e2 : list Event) :
  unprinted (e1 ++ e2) = unprinted e1 ++ unprinted e2.
Proof. unfold unprinted. apply List.filter_app. Qed.

Lemma unprinted_lines (lines : list Line) : unprinted (Print <$> lines) = [].
Proof. induction lines as [|l lines IH]; [done|]. exact IH. Qed.

Lemma gets_unprinted (events : list Event) : gets (unprinted events) = gets events.
Proof.
  unfold gets, unprinted. induction events as [|e events IH]; [done|].
  destruct e; csimpl; rewrite ?IH; done.
Qed.

Lemma probes_unprinted (events : list Event) : probes (unprinted events) = probes events.
Proof.
  unfold probes, unprinted. induction events as [|e events IH]; [done|].
  destruct e; csimpl; rewrite ?IH; done.
Qed.

Lemma slept_unprinted (events : list Event) : slept (unprinted events) = slept events.
Proof.
  unfold slept, unprinted. induction events as [|e events IH]; [done|].
  destruct e; simpl; rewrite ?IH; done.
Qed.

(** The requests, the sessions and the sleeps of the attempts for a list of
    answers. *)
Lemma attempts_count u (answers : list Response) :
  let forbidden := List.filter (fun r => (status_code r =? 403)%Z) answers in
  gets (flat_map (attempt u) answers) = replicate (length answers) u /\
  probes (flat_map (attempt u) answers) = [] /\
  inits (flat_map (attempt u) answers) = length forbidden /\
  slept (flat_map (attempt u) answers) = (10 * Z.of_nat (length forbidden))%Z /\
  length forbidden <= length answers.
Proof.
  induction answers as [|r answers (Hg & Hp & Hi & Hs & Hl)]; [done|].
  cbn zeta in *. cbn [flat_map List.filter]. unfold attempt at 1 3 5 7.
  destruct (status_code r =? 403)%Z.
  - change ((Get u :: [Init; Sleep 10]) ++ flat_map (attempt u) answers)
      with ([Get u; Init; Sleep 10] ++ flat_map (attempt u) answers).
    rewrite gets_app, probes_app, inits_app, slept_app, Hg, Hp, Hi, Hs.
    change (inits [Get u; Init; Sleep 10]) with 1.
    change (slept [Get u; Init; Sleep 10]) with 10%Z.
    cbn [length]. split; [done|]. split; [done|]. split; [done|]. split; lia.
  - change ((Get u :: []) ++ flat_map (attempt u) answers)
      with ([Get u] ++ flat_map (attempt u) answers).
    rewrite gets_app, probes_app, inits_app, slept_app, Hg, Hp, Hi, Hs.
    change (inits [Get u]) with 0. change (slept [Get u]) with 0%Z.
    cbn [length]. split; [done|]. split; [done|]. split; [done|]. split; lia.
Qed.

Lemma inits_unprinted (events : list Event) : inits (unprinted events) = inits events.
Proof.
  unfold inits, unprinted. induction events as [|e events IH]; [done|].
  destruct e; simpl; rewrite ?IH; done.
Qed.

Section Bodies.

Variable Server : Type.
Variable serve : Server -> string -> Response * Server.
Variable abspath_join : string -> string -> string.
Variable find_all_a_href : string -> list (option string).
Variable urlparse : option string -> ParseResult.
Variable from_path : string -> option ShaFile.
Variable url : string.
Variable directory : string.

Local Abbreviation World := (World Server).
Local Abbreviation emit := (@emit Server).
Local Abbreviation on_fs := (@on_fs Server).
Local Abbreviation request := (request Server serve).
Local Abbreviation download_loop := (download_loop Server serve url).
Local Abbreviation download_do_task :=
  (download_do_task Server serve abspath_join url directory).
Local Abbreviation recursive_loop :=
  (recursive_loop Server serve find_all_a_href urlparse url).
Local Abbreviation recursive_do_task :=
  (recursive_do_task Server serve abspath_join find_all_a_href urlparse url directory).
Local Abbreviation get_loop := (get_loop Server serve url).
Local Abbreviation find_refs_do_task :=
  (find_refs_do_task Server serve abspath_join url directory).
Local Abbreviation parse_object := (parse_object Server from_path).
Local Abbreviation find_objects_do_task :=
  (find_objects_do_task Server serve abspath_join from_path url directory).
Local Abbreviation replies := (replies Server serve).
Local Abbreviation do_task :=
  (do_task Server serve abspath_join find_all_a_href urlparse from_path url directory).
Local Abbreviation traced := (@traced Server).
Local Abbreviation stored := (stored Server serve).
Local Abbreviation asked := (asked Server serve).
Local Abbreviation cached := (cached Server abspath_join directory).
Local Abbreviation attempted := (@attempted Server).

Lemma replies_S n srv u response srv' :
  serve srv u = (response, srv') ->
  replies (S n) srv u = response :: replies n srv' u.
Proof. intros Hs. simpl. by rewrite Hs. Qed.

Lemma traced_refl u budget (w : World) : traced u budget w w.
Proof.
  exists []. rewrite app_nil_r. split; [done|]. split; [constructor|].
  unfold inits. simpl. split; [lia|]. split; [lia | done].
Qed.

Lemma traced_more u budget budget' (w w' : World) :
  budget <= budget' -> traced u budget w w' -> traced u budget' w w'.
Proof.
  intros Hle (events & Htr & Hev & Hlen & Hin & Hsl).
  exists events. split; [done|]. split; [done|]. split; [lia | done].
Qed.

(** A round of a loop that ends with a status of 403, then the rest. *)
Lemma traced_round u budget line (w w' : World) srv :
  traced u budget
    {| fs := fs w; server := srv;
       trace := trace w ++ [Get u; Print line; Init; Sleep 10] |} w' ->
  traced u (S budget) w w'.
Proof.
  intros (events & Htr & Hev & Hlen & Hin & Hsl). cbn [trace] in Htr.
  exists ([Get u; Print line; Init; Sleep 10] ++ events).
  split; [by rewrite Htr, <- app_assoc|].
  split; [repeat constructor; done|].
  rewrite gets_app, inits_app, slept_app, length_app.
  change (inits [Get u; Print line; Init; Sleep 10]) with 1.
  change (slept [Get u; Print line; Init; Sleep 10]) with 10%Z.
  change (length (gets [Get u; Print line; Init; Sleep 10])) with 1.
  split; [lia|]. split; [lia|]. rewrite Hsl. lia.
Qed.

Lemma printed_quiet u (lines : list Line) :
  Forall (task_event u) (Print <$> lines) /\
  gets (Print <$> lines) = [] /\
  inits (Print <$> lines) = 0 /\
  slept (Print <$> lines) = 0%Z.
Proof.
  induction lines as [|l lines (IH1 & IH2 & IH3 & IH4)]; csimpl.
  - split; [constructor | done].
  - split; [by constructor | done].
Qed.

(** The last round of a loop, and lines printed after it. *)
Lemma traced_last u budget lines (w w' : World) :
  trace w' = trace w ++ Get u :: (Print <$> lines) ->
  traced u (S budget) w w'.
Proof.
  intros Htr. exists (Get u :: (Print <$> lines)). split; [done|].
  destruct (printed_quiet u lines) as (H1 & H2 & H3 & H4).
  split; [by constructor|].
  change (Get u :: (Print <$> lines)) with ([Get u] ++ (Print <$> lines)).
  rewrite gets_app, inits_app, slept_app, H2, H3, H4.
  change (inits [Get u]) with 0. change (slept [Get u]) with 0%Z.
  simpl. split; [lia|]. split; [lia | done].
Qed.

Lemma traced_printed u budget lines (w : World) :
  traced u budget w (emit (Print <$> lines) w).
Proof.
  exists (Print <$> lines). split; [done|].
  destruct (printed_quiet u lines) as (H1 & H2 & H3 & H4).
  split; [done|]. rewrite H2, H3, H4. simpl. split; [lia|]. split; [lia | done].
Qed.

Lemma stored_later u abspath budget (w w1 w' : World) response :
  serve (server w) u = (response, server w1) ->
  fs w1 = fs w ->
  stored u abspath budget w1 w' -> stored u abspath (S budget) w w'.
Proof.
  intros Hs Hfs [Hsame|(r & Hin & H200 & Hex & Hw)].
  - left. by rewrite Hsame.
  - right. exists r. rewrite (replies_S _ _ _ _ _ Hs). rewrite <- Hfs.
    split; [by right | done].
Qed.

Lemma stored_now u abspath budget (w w' : World) response srv :
  serve (server w) u = (response, srv) ->
  status_code response = 200%Z ->
  path_exists abspath (fs w) = false ->
  fs w' = write abspath (text response) (create_intermediate_dirs abspath (fs w)) ->
  stored u abspath (S budget) w w'.
Proof.
  intros Hs H200 Hex Hw. right. exists response.
  rewrite (replies_S _ _ _ _ _ Hs). split; [by left | done].
Qed.

Lemma budget_S count :
  (count <? 5)%Z = true -> Z.to_nat (5 - count) = S (Z.to_nat (5 - (count + 1))).
Proof. intros Hc%Z.ltb_lt. lia. Qed.

Lemma download_loop_effects fuel count filepath abspath (w : World) :
  path_exists abspath (fs w) = false ->
  traced (url +++ "/" +++ filepath) (Z.to_nat (5 - count)) w
         (snd (download_loop fuel count filepath abspath w)) /\
  stored (url +++ "/" +++ filepath) abspath (Z.to_nat (5 - count)) w
         (snd (download_loop fuel count filepath abspath w)).
Proof.
  revert count w. induction fuel as [|fuel IH]; intros count w Hex;
    cbn [Workers.download_loop].
  { split; [apply traced_refl | by left]. }
  destruct (count <? 5)%Z eqn:Hc; [|split; [apply traced_refl | by left]].
  rewrite (budget_S _ Hc).
  destruct (request_spec Server serve Get (url +++ "/" +++ filepath) w)
    as (r & srv & Hs & ->).
  destruct (status_code r =? 403)%Z eqn:H403.
  { unfold Workers.emit. cbn [fs server trace]. rewrite <- !app_assoc. cbn [app].
    match goal with |- context [download_loop fuel _ _ _ ?w1] =>
      destruct (IH (count + 1)%Z w1 Hex) as [Ht Hst] end.
    split; [by eapply traced_round|].
    eapply stored_later; [| |exact Hst]; [exact Hs | done]. }
  destruct (status_code r =? 200)%Z eqn:H200; cbn [negb snd].
  - apply Z.eqb_eq in H200. split.
    + apply (traced_last _ _ [Fetching (count + 1) url filepath (status_code r)]).
      unfold Workers.on_fs, Workers.emit. cbn [trace]. by rewrite <- app_assoc.
    + by eapply stored_now.
  - split; [|by left].
    apply (traced_last _ _ [Fetching (count + 1) url filepath (status_code r)]).
    unfold Workers.emit. cbn [trace]. by rewrite <- app_assoc.
Qed.

Lemma recursive_loop_effects fuel count filepath abspath (w : World) :
  path_exists abspath (fs w) = false \/ endswith filepath "/" = true ->
  traced (url +++ "/" +++ filepath) (Z.to_nat (5 - count)) w
         (snd (recursive_loop fuel count filepath abspath w)) /\
  stored (url +++ "/" +++ filepath) abspath (Z.to_nat (5 - count)) w
         (snd (recursive_loop fuel count filepath abspath w)).
Proof.
  revert count w. induction fuel as [|fuel IH]; intros count w Hex;
    cbn [Workers.recursive_loop].
  { split; [apply traced_refl | by left]. }
  destruct (count <? 5)%Z eqn:Hc; [|split; [apply traced_refl | by left]].
  rewrite (budget_S _ Hc).
  destruct (request_spec Server serve Get (url +++ "/" +++ filepath) w)
    as (r & srv & Hs & ->).
  assert (Hlast : forall w' : World,
    trace w' = trace w ++ [Get (url +++ "/" +++ filepath);
                           Print (Fetching (count + 1) url filepath (status_code r))] ->
    traced (url +++ "/" +++ filepath) (S (Z.to_nat (5 - (count + 1)))) w w').
  { intros w' Htr.
    by apply (traced_last _ _ [Fetching (count + 1) url filepath (status_code r)]). }
  destruct (_ && _); cbn [snd].
  { split; [|by left]. apply Hlast. unfold Workers.emit. cbn [trace].
    by rewrite <- app_assoc. }
  destruct (status_code r =? 403)%Z eqn:H403.
  { unfold Workers.emit. cbn [fs server trace]. rewrite <- !app_assoc. cbn [app].
    match goal with |- context [recursive_loop fuel _ _ _ ?w1] =>
      destruct (IH (count + 1)%Z w1 Hex) as [Ht Hst] end.
    split; [by eapply traced_round|].
    eapply stored_later; [| |exact Hst]; [exact Hs | done]. }
  destruct (status_code r =? 200)%Z eqn:H200; cbn [negb snd].
  2: { split; [|by left]. apply Hlast. unfold Workers.emit. cbn [trace].
       by rewrite <- app_assoc. }
  apply Z.eqb_eq in H200.
  destruct (endswith filepath "/") eqn:Hdir.
  - destruct (is_html r); cbn [snd]; (split; [|by left]); apply Hlast;
      unfold Workers.emit; cbn [trace]; by rewrite <- app_assoc.
  - destruct Hex as [Hex|Hex]; [|done]. split.
    + apply Hlast. unfold Workers.on_fs, Workers.emit. cbn [trace].
      by rewrite <- app_assoc.
    + by eapply stored_now.
Qed.

(** The loop of the refs and objects workers stores nothing; the answer it
    leaves is the last it got. *)
Lemma get_loop_effects fuel count filepath response (w : World) :
  traced (url +++ "/" +++ filepath) (Z.to_nat (5 - count)) w
         (snd (get_loop fuel count filepath response w)) /\
  fs (snd (get_loop fuel count filepath response w)) = fs w /\
  (fst (get_loop fuel count filepath response w) = response \/
   exists r,
     fst (get_loop fuel count filepath response w) = Some r /\
     r ∈ replies (Z.to_nat (5 - count)) (server w) (url +++ "/" +++ filepath)).
Proof.
  revert count response w. induction fuel as [|fuel IH]; intros count response w;
    cbn [Workers.get_loop].
  { split; [apply traced_refl|]. split; [done | by left]. }
  destruct (count <? 5)%Z eqn:Hc;
    [|split; [apply traced_refl|]; split; [done | by left]].
  rewrite (budget_S _ Hc).
  destruct (request_spec Server serve Get (url +++ "/" +++ filepath) w)
    as (r & srv & Hs & ->).
  rewrite (replies_S _ _ _ _ _ Hs).
  destruct (status_code r =? 403)%Z eqn:H403.
  - unfold Workers.emit. cbn [fs server trace]. rewrite <- !app_assoc. cbn [app].
    match goal with |- context [get_loop fuel _ _ _ ?w1] =>
      destruct (IH (count + 1)%Z (Some r) w1) as (Ht & Hfs & Hres) end.
    split; [by eapply traced_round|]. split; [done|]. right.
    destruct Hres as [Hres|(r' & Hres & Hin)].
    + exists r. split; [done | by left].
    + exists r'. split; [done | by right].
  - cbn [fst snd]. split.
    + apply (traced_last _ _ [Fetching (count + 1) url filepath (status_code r)]).
      unfold Workers.emit. cbn [trace]. by rewrite <- app_assoc.
    + split; [done|]. right. exists r. split; [done | by left].
Qed.


Lemma traced_trans u b1 b2 (w1 w2 w3 : World) :
  traced u b1 w1 w2 -> traced u b2 w2 w3 -> traced u (b1 + b2) w1 w3.
Proof.
  intros (e1 & Ht1 & Hev1 & Hl1 & Hi1 & Hs1) (e2 & Ht2 & Hev2 & Hl2 & Hi2 & Hs2).
  exists (e1 ++ e2). split; [by rewrite Ht2, Ht1, app_assoc|].
  split; [by apply Forall_app|].
  rewrite gets_app, inits_app, slept_app, length_app.
  split; [lia|]. split; [lia|]. rewrite Hs1, Hs2. lia.
Qed.

Lemma traced_same u budget (w w1 w2 : World) :
  trace w2 = trace w1 -> traced u budget w w1 -> traced u budget w w2.
Proof.
  intros Heq (events & Htr & Hrest). exists events. split; [congruence | done].
Qed.

Lemma parse_object_effects u budget abspath (w w0 : World) :
  traced u budget w0 w ->
  traced u budget w0 (snd (parse_object abspath w)) /\
  fs (snd (parse_object abspath w)) = fs w.
Proof.
  intros Hw. unfold Workers.parse_object.
  destruct (read abspath (fs w) ≫= from_path) as [obj|]; [|done].
  destruct (get_referenced_sha1 obj) as [[objs|code] report]; cbn [snd]; [done|].
  split; [|done]. replace budget with (budget + 0) by lia.
  eapply traced_trans; [exact Hw|].
  apply (traced_printed _ _ [Error "error: unexpected object type"]).
Qed.

(** The loops of the refs and objects workers, and the store that follows
    an answer of 200. *)
Lemma fetched_effects filepath abspath (w : World) :
  path_exists abspath (fs w) = false ->
  match get_loop loop_fuel 0 filepath None w with
  | (None, w1) => traced (url +++ "/" +++ filepath) 5 w w1 /\ fs w1 = fs w
  | (Some response, w1) =>
      traced (url +++ "/" +++ filepath) 5 w w1 /\ fs w1 = fs w /\
      (status_code response = 200%Z ->
       stored (url +++ "/" +++ filepath) abspath 5 w
         (on_fs (write abspath (text response))
                (on_fs (create_intermediate_dirs abspath) w1)))
  end.
Proof.
  intros Hex.
  destruct (get_loop_effects loop_fuel 0 filepath None w) as (Ht & Hfs & Hres).
  destruct (get_loop loop_fuel 0 filepath None w) as [[response|] w1];
    cbn [fst snd] in *; [|done].
  split; [done|]. split; [done|]. intros H200. right. exists response.
  destruct Hres as [?|(r & [= <-] & Hin)]; [done|].
  split; [done|]. split; [done|]. split; [done|].
  unfold Workers.on_fs. cbn [fs]. by rewrite Hfs.
Qed.

Lemma do_task_effects kind task (w : World) :
  traced (url +++ "/" +++ task_path kind task) 5 w (snd (do_task kind task w)) /\
  stored (url +++ "/" +++ task_path kind task)
         (abspath_join directory (task_path kind task)) 5 w
         (snd (do_task kind task w)).
Proof.
  destruct kind; cbn [Workers.do_task task_path].
  - unfold Workers.download_do_task.
    destruct (path_exists _ (fs w)) eqn:Hex; cbn [snd].
    + split; [|by left]. apply (traced_printed _ _ [AlreadyFetched url task]).
    + by apply (download_loop_effects loop_fuel 0).
  - unfold Workers.recursive_do_task.
    destruct (negb (endswith task "/") && path_exists _ (fs w)) eqn:Hex; cbn [snd].
    + split; [|by left]. apply (traced_printed _ _ [AlreadyFetched url task]).
    + apply (recursive_loop_effects loop_fuel 0).
      apply andb_false_iff in Hex as [Hex|Hex]; [right | by left].
      by apply negb_false_iff.
  - unfold Workers.find_refs_do_task.
    destruct (path_exists _ (fs w)) eqn:Hex.
    + assert (Hp : traced (url +++ "/" +++ task) 5 w
                          (emit [Print (AlreadyFetched url task)] w))
        by apply (traced_printed _ _ [AlreadyFetched url task]).
      destruct (read _ _); cbn [snd]; (split; [done | by left]).
    + pose proof (fetched_effects task _ w Hex) as Hget.
      destruct (get_loop loop_fuel 0 task None w) as [[response|] w1]; cbn [snd].
      2: { destruct Hget as [Ht Hfs]. split; [done | by left]. }
      destruct Hget as (Ht & Hfs & Hst).
      destruct (status_code response =? 200)%Z eqn:H200; cbn [negb snd].
      * apply Z.eqb_eq in H200. split; [|by apply Hst].
        by apply (traced_same _ _ _ w1).
      * split; [done | by left].
  - unfold Workers.find_objects_do_task.
    destruct (path_exists _ (fs w)) eqn:Hex.
    + destruct (parse_object_effects (url +++ "/" +++ object_path task) 5
                  (abspath_join directory (object_path task))
                  (emit [Print (AlreadyFetched url (object_path task))] w) w)
        as [Ht Hfs].
      { apply (traced_printed _ _ [AlreadyFetched url (object_path task)]). }
      split; [done|]. left. by rewrite Hfs.
    + pose proof (fetched_effects (object_path task) _ w Hex) as Hget.
      destruct (get_loop loop_fuel 0 (object_path task) None w) as [[response|] w1];
        cbn [snd].
      2: { destruct Hget as [Ht Hfs]. split; [done | by left]. }
      destruct Hget as (Ht & Hfs & Hst).
      destruct (status_code response =? 200)%Z eqn:H200; cbn [negb snd].
      * apply Z.eqb_eq in H200.
        match goal with |- context [parse_object ?a ?w2] =>
          destruct (parse_object_effects (url +++ "/" +++ object_path task) 5 a w2 w)
            as [Ht2 Hfs2]; [by apply (traced_same _ _ _ w1)|] end.
        split; [done|].
        destruct (Hst H200) as [Hsame|(r & Hin & Hr & Hno & Hw)].
        -- left. by rewrite Hfs2.
        -- right. exists r. by rewrite Hfs2.
      * split; [done | by left].
Qed.


Lemma attempted_printed u lines (w : World) :
  attempted u [] w (emit (Print <$> lines) w).
Proof. exists (Print <$> lines). split; [done | apply unprinted_lines]. Qed.

Lemma attempted_refl u (w : World) : attempted u [] w w.
Proof. exists []. by rewrite app_nil_r. Qed.

Lemma attempted_same u answers (w w1 w2 : World) :
  trace w2 = trace w1 -> attempted u answers w w1 -> attempted u answers w w2.
Proof. intros Heq (events & Htr & Hrest). exists events. split; [congruence | done]. Qed.

Lemma attempted_then_printed u answers lines (w w1 : World) :
  attempted u answers w w1 -> attempted u answers w (emit (Print <$> lines) w1).
Proof.
  intros (events & Htr & Hun). exists (events ++ (Print <$> lines)).
  split; [cbn; by rewrite Htr, app_assoc|].
  by rewrite unprinted_app, unprinted_lines, app_nil_r.
Qed.

(** The answers asked for, against the replies of the server. *)
Lemma asked_replies budget srv u :
  let answers := asked budget srv u in
  length answers <= budget /\
  replies (length answers) srv u = answers /\
  Forall (fun r => status_code r = 403%Z) (removelast answers) /\
  (0 < budget -> answers <> []) /\
  (forall r, last answers = Some r -> status_code r = 403%Z -> length answers = budget).
Proof.
  revert srv. induction budget as [|budget IH]; intros srv; cbn [Effects.asked].
  { split; [done|]. split; [done|]. split; [constructor|]. split; [lia | done]. }
  destruct (serve srv u) as [r srv'] eqn:Hs.
  destruct (status_code r =? 403)%Z eqn:H403.
  - destruct (IH srv') as (Hlen & Hrep & Hall & Hne & Hlast).
    cbn zeta in *. set (rest := asked budget srv' u) in *.
    split; [simpl; lia|]. split.
    { cbn [length]. by rewrite (replies_S _ _ _ _ _ Hs), Hrep. }
    apply Z.eqb_eq in H403.
    split; [|split; [done|]].
    + destruct rest as [|r' rest'] eqn:E; [constructor|].
      change (removelast (r :: r' :: rest')) with (r :: removelast (r' :: rest')).
      by constructor.
    + intros r0 Hr0 H0. destruct rest as [|r' rest'] eqn:E.
      * destruct budget as [|budget']; [done|]. by destruct Hne; [lia|].
      * rewrite last_cons_cons in Hr0. simpl. f_equal. by apply (Hlast r0).
  - cbn zeta. split; [simpl; lia|]. split.
    { cbn [length]. by rewrite (replies_S _ _ _ _ _ Hs). }
    split; [constructor|]. split; [done|].
    intros r0 [= <-] H0. apply Z.eqb_neq in H403. done.
Qed.

Lemma asked_S budget srv u r srv' :
  serve srv u = (r, srv') ->
  asked (S budget) srv u
  = r :: if (status_code r =? 403)%Z then asked budget srv' u else [].
Proof. intros Hs. cbn [Effects.asked]. by rewrite Hs. Qed.

Lemma attempted_round u r line answers (w w' : World) srv :
  status_code r = 403%Z ->
  attempted u answers
    {| fs := fs w; server := srv;
       trace := trace w ++ [Get u; Print line; Init; Sleep 10] |} w' ->
  attempted u (r :: answers) w w'.
Proof.
  intros H403 (events & Htr & Hun). cbn [trace] in Htr.
  exists ([Get u; Print line; Init; Sleep 10] ++ events).
  split; [by rewrite Htr, <- app_assoc|].
  rewrite unprinted_app, Hun. cbn [flat_map]. unfold attempt at 2.
  apply Z.eqb_eq in H403. by rewrite H403.
Qed.

Lemma attempted_last u r lines (w w' : World) :
  status_code r <> 403%Z ->
  trace w' = trace w ++ Get u :: (Print <$> lines) ->
  attempted u [r] w w'.
Proof.
  intros H403 Htr. exists (Get u :: (Print <$> lines)). split; [done|].
  change (Get u :: (Print <$> lines)) with ([Get u] ++ (Print <$> lines)).
  rewrite unprinted_app, unprinted_lines. cbn [flat_map]. unfold attempt.
  apply Z.eqb_neq in H403. by rewrite H403.
Qed.

Lemma download_loop_attempts fuel count filepath abspath (w : World) :
  Z.to_nat (5 - count) <= fuel ->
  attempted (url +++ "/" +++ filepath)
    (asked (Z.to_nat (5 - count)) (server w) (url +++ "/" +++ filepath)) w
    (snd (download_loop fuel count filepath abspath w)).
Proof.
  revert count w. induction fuel as [|fuel IH]; intros count w Hfuel;
    cbn [Workers.download_loop].
  { replace (Z.to_nat (5 - count)) with 0 by lia. apply attempted_refl. }
  destruct (count <? 5)%Z eqn:Hc.
  2: { apply Z.ltb_ge in Hc. replace (Z.to_nat (5 - count)) with 0 by lia.
       apply attempted_refl. }
  rewrite (budget_S _ Hc) in *.
  destruct (request_spec Server serve Get (url +++ "/" +++ filepath) w)
    as (r & srv & Hs & ->).
  rewrite (asked_S _ _ _ _ _ Hs).
  destruct (status_code r =? 403)%Z eqn:H403.
  { unfold Workers.emit. cbn [fs server trace]. rewrite <- !app_assoc. cbn [app].
    apply Z.eqb_eq in H403.
    match goal with |- context [download_loop fuel _ _ _ ?w1] =>
      pose proof (IH (count + 1)%Z w1 ltac:(cbn [server]; lia)) as Hrec end.
    cbn [server] in Hrec. by eapply attempted_round. }
  apply Z.eqb_neq in H403.
  apply (attempted_last _ _ [Fetching (count + 1) url filepath (status_code r)]);
    [done|].
  destruct (status_code r =? 200)%Z; cbn [negb snd];
    unfold Workers.on_fs, Workers.emit; cbn [trace]; by rewrite <- app_assoc.
Qed.

Lemma recursive_loop_attempts fuel count filepath abspath (w : World) :
  Z.to_nat (5 - count) <= fuel ->
  attempted (url +++ "/" +++ filepath)
    (asked (Z.to_nat (5 - count)) (server w) (url +++ "/" +++ filepath)) w
    (snd (recursive_loop fuel count filepath abspath w)).
Proof.
  revert count w. induction fuel as [|fuel IH]; intros count w Hfuel;
    cbn [Workers.recursive_loop].
  { replace (Z.to_nat (5 - count)) with 0 by lia. apply attempted_refl. }
  destruct (count <? 5)%Z eqn:Hc.
  2: { apply Z.ltb_ge in Hc. replace (Z.to_nat (5 - count)) with 0 by lia.
       apply attempted_refl. }
  rewrite (budget_S _ Hc) in *.
  destruct (request_spec Server serve Get (url +++ "/" +++ filepath) w)
    as (r & srv & Hs & ->).
  rewrite (asked_S _ _ _ _ _ Hs).
  assert (Hlast : forall w' : World,
    status_code r <> 403%Z ->
    trace w' = trace w ++ [Get (url +++ "/" +++ filepath);
                           Print (Fetching (count + 1) url filepath (status_code r))] ->
    attempted (url +++ "/" +++ filepath) [r] w w').
  { intros w' H403 Htr.
    by apply (attempted_last _ _ [Fetching (count + 1) url filepath (status_code r)]). }
  destruct (((status_code r =? 301)%Z || (status_code r =? 302)%Z) && _) eqn:Hredirect;
    cbn [snd].
  { assert (H403 : status_code r <> 403%Z).
    { apply andb_true_iff in Hredirect as [[H|H]%orb_true_iff _];
        apply Z.eqb_eq in H; lia. }
    apply Z.eqb_neq in H403 as H403'. rewrite H403'.
    apply Hlast; [done|]. unfold Workers.emit. cbn [trace]. by rewrite <- app_assoc. }
  destruct (status_code r =? 403)%Z eqn:H403.
  { unfold Workers.emit. cbn [fs server trace]. rewrite <- !app_assoc. cbn [app].
    apply Z.eqb_eq in H403.
    match goal with |- context [recursive_loop fuel _ _ _ ?w1] =>
      pose proof (IH (count + 1)%Z w1 ltac:(cbn [server]; lia)) as Hrec end.
    cbn [server] in Hrec. by eapply attempted_round. }
  apply Z.eqb_neq in H403. apply Hlast; [done|].
  destruct (status_code r =? 200)%Z; cbn [negb snd];
    [|unfold Workers.emit; cbn [trace]; by rewrite <- app_assoc].
  destruct (endswith filepath "/").
  - destruct (is_html r); cbn [snd]; unfold Workers.emit; cbn [trace];
      by rewrite <- app_assoc.
  - unfold Workers.on_fs, Workers.emit. cbn [snd trace]. by rewrite <- app_assoc.
Qed.

Lemma get_loop_attempts fuel count filepath response (w : World) :
  Z.to_nat (5 - count) <= fuel ->
  attempted (url +++ "/" +++ filepath)
    (asked (Z.to_nat (5 - count)) (server w) (url +++ "/" +++ filepath)) w
    (snd (get_loop fuel count filepath response w)).
Proof.
  revert count response w. induction fuel as [|fuel IH]; intros count response w Hfuel;
    cbn [Workers.get_loop].
  { replace (Z.to_nat (5 - count)) with 0 by lia. apply attempted_refl. }
  destruct (count <? 5)%Z eqn:Hc.
  2: { apply Z.ltb_ge in Hc. replace (Z.to_nat (5 - count)) with 0 by lia.
       apply attempted_refl. }
  rewrite (budget_S _ Hc) in *.
  destruct (request_spec Server serve Get (url +++ "/" +++ filepath) w)
    as (r & srv & Hs & ->).
  rewrite (asked_S _ _ _ _ _ Hs).
  destruct (status_code r =? 403)%Z eqn:H403.
  { unfold Workers.emit. cbn [fs server trace]. rewrite <- !app_assoc. cbn [app].
    apply Z.eqb_eq in H403.
    match goal with |- context [get_loop fuel _ _ ?r1 ?w1] =>
      pose proof (IH (count + 1)%Z r1 w1 ltac:(cbn [server]; lia)) as Hrec end.
    cbn [server] in Hrec. by eapply attempted_round. }
  apply Z.eqb_neq in H403. cbn [snd].
  apply (attempted_last _ _ [Fetching (count + 1) url filepath (status_code r)]);
    [done|].
  unfold Workers.emit. cbn [trace]. by rewrite <- app_assoc.
Qed.

Lemma parse_object_attempts u answers abspath (w w0 : World) :
  attempted u answers w0 w ->
  attempted u answers w0 (snd (parse_object abspath w)).
Proof.
  intros Hw. unfold Workers.parse_object.
  destruct (read abspath (fs w) ≫= from_path) as [obj|]; [|done].
  destruct (get_referenced_sha1 obj) as [[objs|code] report]; cbn [snd]; [done|].
  by apply (attempted_then_printed _ _ [Error "error: unexpected object type"]).
Qed.

Lemma do_task_attempts kind task (w : World) :
  attempted (url +++ "/" +++ task_path kind task)
    (if cached kind task w then []
     else asked 5 (server w) (url +++ "/" +++ task_path kind task))
    w (snd (do_task kind task w)).
Proof.
  assert (Hfuel : Z.to_nat (5 - 0) <= loop_fuel) by (unfold loop_fuel; simpl; lia).
  destruct kind; cbn [Workers.do_task task_path Effects.cached].
  - unfold Workers.download_do_task.
    destruct (path_exists _ (fs w)); cbn [snd].
    + apply (attempted_printed _ [AlreadyFetched url task]).
    + by apply (download_loop_attempts loop_fuel 0).
  - unfold Workers.recursive_do_task.
    destruct (negb (endswith task "/") && path_exists _ (fs w)); cbn [snd].
    + apply (attempted_printed _ [AlreadyFetched url task]).
    + by apply (recursive_loop_attempts loop_fuel 0).
  - unfold Workers.find_refs_do_task.
    destruct (path_exists _ (fs w)).
    + destruct (read _ _); cbn [snd];
        apply (attempted_printed _ [AlreadyFetched url task]).
    + pose proof (get_loop_attempts loop_fuel 0 task None w Hfuel) as Hget.
      destruct (get_loop loop_fuel 0 task None w) as [[response|] w1]; cbn [snd] in *;
        [|done].
      destruct (status_code response =? 200)%Z; cbn [negb snd]; [|done].
      by apply (attempted_same _ _ _ w1).
  - unfold Workers.find_objects_do_task.
    destruct (path_exists _ (fs w)).
    + apply parse_object_attempts.
      apply (attempted_printed _ [AlreadyFetched url (object_path task)]).
    + pose proof (get_loop_attempts loop_fuel 0 (object_path task) None w Hfuel) as Hget.
      destruct (get_loop loop_fuel 0 (object_path task) None w) as [[response|] w1];
        cbn [snd] in *; [|done].
      destruct (status_code response =? 200)%Z; cbn [negb snd]; [|done].
      apply parse_object_attempts. by apply (attempted_same _ _ _ w1).
Qed.

(** X4. What a task makes a worker of any of the four classes send,
    whatever the server answers. When the file of the task is in the output
    directory (and the task is not a directory of the recursive worker) it
    sends nothing. Otherwise it sends a GET of the URL of the file, and
    another after each answer of 403 and after no other answer, five at most;
    after each answer of 403, the fifth included, it starts a new session and
    sleeps ten seconds, and it does neither at any other time; so it sleeps
    fifty seconds at most. Nothing is sent through [url_get]. *)
Theorem task_retries_bounded kind task (w : World) :
  let u := url +++ "/" +++ task_path kind task in
  let answers := if cached kind task w then [] else asked 5 (server w) u in
  let forbidden := List.filter (fun r => (status_code r =? 403)%Z) answers in
  exists events,
    trace (snd (do_task kind task w)) = trace w ++ events /\
    unprinted events = flat_map (attempt u) answers /\
    (cached kind task w = false -> answers <> []) /\
    length answers <= 5 /\
    replies (length answers) (server w) u = answers /\
    Forall (fun r => status_code r = 403%Z) (removelast answers) /\
    (forall r, last answers = Some r -> status_code r = 403%Z -> length answers = 5) /\
    gets events = replicate (length answers) u /\
    probes events = [] /\
    inits events = length forbidden /\
    slept events = (10 * Z.of_nat (length forbidden))%Z /\
    (slept events <= 50)%Z.
Proof.
  intros u answers forbidden.
  destruct (do_task_attempts kind task w) as (events & Htr & Hun).
  fold u in Hun. fold answers in Hun.
  exists events. split; [done|]. split; [done|].
  assert (Hanswers : (cached kind task w = false -> answers <> []) /\
                     length answers <= 5 /\
                     replies (length answers) (server w) u = answers /\
                     Forall (fun r => status_code r = 403%Z) (removelast answers) /\
                     (forall r, last answers = Some r -> status_code r = 403%Z ->
                                length answers = 5)).
  { subst answers. destruct (cached kind task w).
    - split; [done|]. split; [simpl; lia|]. split; [done|]. split; [constructor | done].
    - destruct (asked_replies 5 (server w) u) as (Hlen & Hrep & Hall & Hne & Hlast).
      split; [intros _; apply Hne; lia | done]. }
  destruct Hanswers as (Hne & Hlen & Hrep & Hall & Hlast).
  split; [done|]. split; [done|]. split; [done|]. split; [done|]. split; [done|].
  destruct (attempts_count u answers) as (Hg & Hp & Hi & Hs & Hl).
  cbn zeta in *. fold forbidden in Hi, Hs, Hl.
  rewrite <- gets_unprinted, <- probes_unprinted, <- inits_unprinted, <- slept_unprinted.
  rewrite Hun, Hg, Hp, Hi, Hs.
  split; [done|]. split; [done|]. split; [done|]. split; [done | lia].
Qed.

(** X5. What a task does to the output directory, for the four worker
    classes: nothing; or, when the file of the task was not there, it creates
    the missing directories above it and stores in it the body of an answer
    with status 200, one of the first five answers of the server to GETs of
    its URL. So no file that is there is changed or removed, and nothing is
    created when none of these answers has status 200. *)
Theorem task_stores_one_answer kind task (w : World) :
  let u := url +++ "/" +++ task_path kind task in
  let abspath := abspath_join directory (task_path kind task) in
  let after := fs (snd (do_task kind task w)) in
  (after = fs w \/
   exists response,
     response ∈ replies 5 (server w) u /\
     status_code response = 200%Z /\
     path_exists abspath (fs w) = false /\
     after = write abspath (text response) (create_intermediate_dirs abspath (fs w))) /\
  retains (fs w) after /\
  (Forall (fun response => status_code response <> 200%Z) (replies 5 (server w) u) ->
   after = fs w).
Proof.
  intros u abspath after.
  destruct (do_task_effects kind task w) as [_ Hst].
  change (after = fs w \/
          exists response,
            response ∈ replies 5 (server w) u /\
            status_code response = 200%Z /\
            path_exists abspath (fs w) = false /\
            after = write abspath (text response)
                      (create_intermediate_dirs abspath (fs w))) in Hst.
  split; [exact Hst|]. split.
  - destruct Hst as [->|(r & _ & _ & Hex & ->)]; [apply retains_refl|].
    by apply retains_store.
  - intros Hnone. destruct Hst as [?|(r & Hin & H200 & _)]; [done|].
    rewrite Forall_forall in Hnone. by destruct (Hnone r Hin).
Qed.


(** *** The follow-ups of the recursive worker *)

Lemma listed_name (response : Response) (filename : string) :
  In filename (get_indexed_files find_all_a_href urlparse response) ->
  filename <> "".
Proof.
  rewrite ListingFacts.get_indexed_files_filter, in_map_iff.
  intros (link & <- & Hin). apply filter_In in Hin as [_ Hkeep].
  by apply ListingFacts.keep_spec in Hkeep as (? & _).
Qed.

Lemma recursive_loop_follow_ups fuel count filepath abspath (w : World) l u :
  fst (recursive_loop fuel count filepath abspath w) = Some l -> u ∈ l ->
  exists name, name <> "" /\ u = filepath +++ name.
Proof.
  revert count w. induction fuel as [|fuel IH]; intros count w;
    cbn [Workers.recursive_loop].
  { intros [= <-] Hu. by apply elem_of_nil in Hu. }
  destruct (count <? 5)%Z; [|intros [= <-] Hu; by apply elem_of_nil in Hu].
  destruct (request Get (url +++ "/" +++ filepath) w) as [r w1].
  destruct (_ && _); cbn [fst].
  { intros [= <-] ->%list_elem_of_singleton. by exists "/". }
  destruct (status_code r =? 403)%Z; [apply IH|].
  destruct (negb (status_code r =? 200)%Z); cbn [fst];
    [intros [= <-] Hu; by apply elem_of_nil in Hu|].
  destruct (endswith filepath "/"); cbn [fst];
    [|intros [= <-] Hu; by apply elem_of_nil in Hu].
  destruct (is_html r); cbn [fst]; [|done].
  intros [= <-] Hu. apply list_elem_of_In, in_map_iff in Hu as (filename & <- & Hin).
  exists filename. split; [by eapply listed_name | done].
Qed.

(** X6. Every follow-up of a task of the recursive worker extends the path
    of the task by at least one character: by a slash after a redirect to the
    directory of that name, by the name of a link of the listing otherwise.
    No task is its own follow-up. *)
Theorem recursive_follow_ups_extend task (w : World) l u :
  fst (recursive_do_task task w) = Some l ->
  u ∈ l ->
  (exists name, name <> "" /\ u = task +++ name) /\ u <> task.
Proof.
  intros Hl Hu.
  assert (Hname : exists name, name <> "" /\ u = task +++ name).
  { unfold Workers.recursive_do_task in Hl.
    destruct (negb (endswith task "/") && path_exists _ (fs w)).
    - injection Hl as <-. by apply elem_of_nil in Hu.
    - by eapply recursive_loop_follow_ups. }
  split; [done|]. destruct Hname as (name & Hne & ->). intros Heq.
  apply Hne. apply (String.app_inj task).
  by rewrite Heq, append_nil_r.
Qed.

(** *** The follow-ups of the refs worker *)

Lemma ref_word_begins (m : Re.chars) :
  ref_word m -> exists rest, string_of_list_ascii m = "refs/" +++ rest.
Proof.
  intros (groups & Hne & Hgroups & ->).
  destruct groups as [|g groups]; [done|].
  apply Forall_cons in Hgroups as [(run & -> & _) _].
  exists (string_of_list_ascii (run ++ concat groups)). reflexivity.
Qed.

Lemma ref_tasks_under_git (response_text u : string) :
  u ∈ ref_tasks response_text ->
  exists rest, u = ".git/refs/" +++ rest \/ u = ".git/logs/refs/" +++ rest.
Proof.
  rewrite ref_tasks_paths. intros Hu.
  apply list_elem_of_In, in_flat_map in Hu as (ref & Href & Hu).
  destruct (find_refs_scans response_text) as (found & _ & Hwords & Hfound).
  rewrite Hfound in Href. apply list_elem_of_In, list_elem_of_fmap in Href
    as (m & -> & Hm).
  rewrite Forall_forall in Hwords.
  destruct (ref_word_begins m (Hwords m Hm)) as [rest Hrest].
  exists rest. unfold ref_paths in Hu. rewrite Hrest in Hu.
  destruct (endswith _ "*"); simpl in Hu; [done|].
  destruct Hu as [<-|[<-|[]]]; [by left | by right].
Qed.

(** X7. Every follow-up of a task of the refs worker is a path below
    [.git/refs/] or below [.git/logs/refs/], whatever text the file or the
    server holds. *)
Theorem refs_follow_ups_under_git filepath (w : World) l u :
  fst (find_refs_do_task filepath w) = Some l ->
  u ∈ l ->
  exists rest, u = ".git/refs/" +++ rest \/ u = ".git/logs/refs/" +++ rest.
Proof.
  unfold Workers.find_refs_do_task.
  destruct (path_exists _ (fs w)).
  - destruct (read _ _) as [response_text|]; cbn [fst]; [|done].
    intros [= <-]. apply ref_tasks_under_git.
  - destruct (get_loop loop_fuel 0 filepath None w) as [[response|] w1];
      cbn [fst]; [|done].
    destruct (negb (status_code response =? 200)%Z); cbn [fst].
    + intros [= <-] Hu. by apply elem_of_nil in Hu.
    + intros [= <-]. apply ref_tasks_under_git.
Qed.


(** *** A task whose file is in the output directory *)

Lemma parse_object_fst abspath (w w' : World) :
  fs w = fs w' -> fst (parse_object abspath w) = fst (parse_object abspath w').
Proof.
  intros Hfs. unfold Workers.parse_object. rewrite Hfs.
  destruct (read abspath (fs w') ≫= from_path) as [obj|]; [|done].
  by destruct (get_referenced_sha1 obj) as [[objs|code] report].
Qed.

Lemma parse_object_prints abspath (w : World) :
  fs (snd (parse_object abspath w)) = fs w /\
  server (snd (parse_object abspath w)) = server w /\
  exists lines, trace (snd (parse_object abspath w)) = trace w ++ (Print <$> lines).
Proof.
  unfold Workers.parse_object.
  destruct (read abspath (fs w) ≫= from_path) as [obj|].
  - destruct (get_referenced_sha1 obj) as [[objs|code] report]; cbn [snd].
    + split; [done|]. split; [done|]. exists []. by rewrite app_nil_r.
    + split; [done|]. split; [done|]. by exists [Error "error: unexpected object type"].
  - split; [done|]. split; [done|]. exists []. by rewrite app_nil_r.
Qed.

Lemma recursive_loop_stored fuel count filepath abspath (w : World) :
  path_exists abspath (fs w) = false ->
  path_exists abspath (fs (snd (recursive_loop fuel count filepath abspath w))) = true ->
  fst (recursive_loop fuel count filepath abspath w) = Some [].
Proof.
  revert count w. induction fuel as [|fuel IH]; intros count w Hex;
    cbn [Workers.recursive_loop]; [done|].
  destruct (count <? 5)%Z; [|done].
  destruct (request_spec Server serve Get (url +++ "/" +++ filepath) w)
    as (r & srv & Hs & ->).
  destruct (_ && _); cbn [fst snd fs Workers.emit]; [congruence|].
  destruct (status_code r =? 403)%Z; [by apply IH|].
  destruct (negb (status_code r =? 200)%Z); cbn [fst snd fs Workers.emit]; [done|].
  destruct (endswith filepath "/"); [|done].
  destruct (is_html r); cbn [fst snd fs Workers.emit]; congruence.
Qed.

(** X8. A task whose file is in the output directory when its run ends,
    because it was there or because the run stored it, is answered from the
    directory when it is run again: the second run sends no request, changes
    no file, prints and nothing else, and returns what the first run
    returned. For the recursive worker this is so for the tasks that name a
    file, not for those that name a directory. *)
Theorem stored_task_replays kind task (w : World) :
  let abspath := abspath_join directory (task_path kind task) in
  let first := do_task kind task w in
  let second := do_task kind task (snd first) in
  path_exists abspath (fs (snd first)) = true ->
  (kind = RecursiveDownloadWorker -> endswith task "/" = false) ->
  fst second = fst first /\
  fs (snd second) = fs (snd first) /\
  server (snd second) = server (snd first) /\
  exists lines, trace (snd second) = trace (snd first) ++ (Print <$> lines).
Proof.
  intros abspath first second Hex Hfile. subst second.
  assert (Hprinted : forall (w1 : World) line,
    fs (emit [Print line] w1) = fs w1 /\
    server (emit [Print line] w1) = server w1 /\
    exists lines, trace (emit [Print line] w1) = trace w1 ++ (Print <$> lines)).
  { intros w1 line. split; [done|]. split; [done|]. by exists [line]. }
  destruct kind; cbn [Workers.do_task task_path] in *.
  - assert (Hsecond : download_do_task task (snd first)
                      = (Some [], emit [Print (AlreadyFetched url task)] (snd first))).
    { unfold Workers.download_do_task. fold abspath. by rewrite Hex. }
    rewrite Hsecond. cbn [fst snd].
    split; [|apply Hprinted]. subst first. by rewrite download_no_follow_ups.
  - specialize (Hfile eq_refl).
    assert (Hsecond : recursive_do_task task (snd first)
                      = (Some [], emit [Print (AlreadyFetched url task)] (snd first))).
    { unfold Workers.recursive_do_task. fold abspath. by rewrite Hfile, Hex. }
    rewrite Hsecond. cbn [fst snd].
    split; [|apply Hprinted]. subst first.
    unfold Workers.recursive_do_task in *. fold abspath in Hex |- *.
    rewrite Hfile in *. cbn [negb andb] in *.
    destruct (path_exists abspath (fs w)) eqn:Hw; [done|].
    symmetry. by apply recursive_loop_stored.
  - assert (Hsecond : find_refs_do_task task (snd first)
                      = (match read abspath (fs (snd first)) with
                         | Some response_text => Some (ref_tasks response_text)
                         | None => None
                         end,
                         emit [Print (AlreadyFetched url task)] (snd first))).
    { unfold Workers.find_refs_do_task. fold abspath. rewrite Hex.
      cbn [fs Workers.emit]. by destruct (read abspath (fs (snd first))). }
    rewrite Hsecond. cbn [fst snd]. split; [|apply Hprinted].
    subst first. unfold Workers.find_refs_do_task in *. fold abspath in Hex |- *.
    destruct (path_exists abspath (fs w)) eqn:Hw.
    + cbn [fs Workers.emit].
      destruct (read abspath (fs w)) eqn:Hr; cbn [fst snd fs Workers.emit];
        by rewrite Hr.
    + destruct (get_loop_effects loop_fuel 0 task None w) as (_ & Hfs & _).
      destruct (get_loop loop_fuel 0 task None w) as [[response|] w1];
        cbn [fst snd] in *; [|congruence].
      destruct (status_code response =? 200)%Z; cbn [negb fst snd] in *;
        [|congruence].
      unfold Workers.on_fs. cbn [fs]. by rewrite read_write.
  - assert (Hfirst : exists w2 : World, first = parse_object abspath w2).
    { subst first. unfold Workers.find_objects_do_task in *. fold abspath in Hex |- *.
      destruct (path_exists abspath (fs w)) eqn:Hw; [by eexists|].
      destruct (get_loop_effects loop_fuel 0 (object_path task) None w)
        as (_ & Hfs1 & _).
      destruct (get_loop loop_fuel 0 (object_path task) None w)
        as [[response|] w1]; cbn [fst snd] in *; [|congruence].
      destruct (status_code response =? 200)%Z; cbn [negb fst snd] in *;
        [by eexists | congruence]. }
    destruct Hfirst as [w2 Hfirst].
    set (again := emit [Print (AlreadyFetched url (object_path task))] (snd first)).
    assert (Hsecond : find_objects_do_task task (snd first)
                      = parse_object abspath again).
    { unfold Workers.find_objects_do_task. fold abspath. by rewrite Hex. }
    rewrite Hsecond.
    destruct (parse_object_prints abspath again) as (Hfs & Hsrv & lines & Htr).
    split; [|split; [done|split; [done|]]].
    + rewrite Hfirst. apply parse_object_fst. subst again. rewrite Hfirst.
      exact (proj1 (parse_object_prints abspath w2)).
    + exists (AlreadyFetched url (object_path task) :: lines).
      rewrite Htr. subst again. cbn [trace Workers.emit]. by rewrite <- app_assoc.
Qed.

End Bodies.

(** *** The workers on the sample servers *)

Import Samples.

Lemma recursive_follow_ups_extend_witness :
  fst (recursive_do_task nat listing sample_abspath sample_hrefs sample_urlparse
         "http://h" "/out" ".git/" mirrored_run)
  = Some [".git/HEAD"; ".git/refs/"] /\
  ".git/HEAD" ∈ [".git/HEAD"; ".git/refs/"] /\
  ".git/HEAD" <> ".git/".
Proof.
  split; [reflexivity|]. split; [by left|].
  exact (proj2 (recursive_follow_ups_extend nat listing sample_abspath sample_hrefs
                  sample_urlparse "http://h" "/out" ".git/" mirrored_run
                  [".git/HEAD"; ".git/refs/"] ".git/HEAD" eq_refl
                  (list_elem_of_here _ _))).
Defined.

Lemma refs_follow_ups_under_git_witness :
  fst (find_refs_do_task nat nothing sample_abspath "http://h" "/out" ".git/info/refs"
         second_run)
  = Some [".git/refs/heads/feature/x"; ".git/logs/refs/heads/feature/x"] /\
  exists rest,
    ".git/logs/refs/heads/feature/x" = ".git/refs/" +++ rest \/
    ".git/logs/refs/heads/feature/x" = ".git/logs/refs/" +++ rest.
Proof.
  split; [reflexivity|].
  exact (refs_follow_ups_under_git nat nothing sample_abspath "http://h" "/out"
           ".git/info/refs" second_run
           [".git/refs/heads/feature/x"; ".git/logs/refs/heads/feature/x"]
           ".git/logs/refs/heads/feature/x" eq_refl
           (list_elem_of_further _ _ _ (list_elem_of_here _ _))).
Defined.

(** The refs worker against the server that answers 200 to the fifth GET,
    and then again on the directory the first run left. *)
Lemma stored_task_replays_witness :
  let first := do_task nat throttling sample_abspath sample_hrefs sample_urlparse
                 no_object "http://h" "/out" FindRefsWorker ".git/config" first_run in
  let second := do_task nat throttling sample_abspath sample_hrefs sample_urlparse
                  no_object "http://h" "/out" FindRefsWorker ".git/config" (snd first) in
  path_exists (sample_abspath "/out" ".git/config") (fs (snd first)) = true /\
  fst second = fst first /\
  server (snd second) = server (snd first).
Proof.
  intros first second.
  assert (Hex : path_exists (sample_abspath "/out" ".git/config") (fs (snd first)) = true)
    by (vm_compute; reflexivity).
  split; [exact Hex|].
  destruct (stored_task_replays nat throttling sample_abspath sample_hrefs
              sample_urlparse no_object "http://h" "/out" FindRefsWorker ".git/config"
              first_run Hex (fun H : FindRefsWorker = RecursiveDownloadWorker =>
                               ltac:(discriminate H)))
    as (Hfst & _ & Hsrv & _).
  split; [exact Hfst | exact Hsrv].
Defined.

End EffectsFacts.

(** ** Where a run sends its requests, and what it keeps *)

Module ReachFacts.
Import Py Re OS Http ObjectRefs Listing Workers Dumper Effects Reach.
Import PyFacts ReFacts OSFacts WorkersFacts EffectsFacts LedgerFacts DumperFacts.

Section Phases.

Variable Server : Type.
Variable serve : Server -> string -> Response * Server.
Variable abspath_join : string -> string -> string.
Variable find_all_a_href : string -> list (option string).
Variable urlparse : option string -> ParseResult.
Variable from_path : string -> option ShaFile.
Variable index_iterblobs : string -> option (list (string * string * Z)).
Variable pack_iterobjects
  : option string -> option string -> option (list (string * ShaFile)).
Variable directory : string.

Local Abbreviation World := (World Server).
Local Abbreviation emit := (@emit Server).
Local Abbreviation confined := (@confined Server).
Local Abbreviation url_get := (url_get Server serve).
Local Abbreviation phase :=
  (phase Server serve abspath_join find_all_a_href urlparse from_path directory).
Local Abbreviation fetch_git :=
  (fetch_git Server serve abspath_join find_all_a_href urlparse from_path
             index_iterblobs pack_iterobjects directory).
Local Abbreviation do_task base :=
  (do_task Server serve abspath_join find_all_a_href urlparse from_path base directory).

Lemma confined_refl base (w : World) : confined base w w.
Proof. split; [apply retains_refl|]. exists []. by rewrite app_nil_r. Qed.

Lemma confined_trans base (w1 w2 w3 : World) :
  confined base w1 w2 -> confined base w2 w3 -> confined base w1 w3.
Proof.
  intros [Hr1 (e1 & He1 & Hb1)] [Hr2 (e2 & He2 & Hb2)].
  split; [by eapply retains_trans|]. exists (e1 ++ e2).
  split; [by rewrite He2, He1, app_assoc | by apply Forall_app].
Qed.

Lemma confined_print_r base line (w w' : World) :
  confined base w w' -> confined base w (emit [Print line] w').
Proof.
  intros Hw. eapply confined_trans; [exact Hw|].
  split; [apply retains_refl|]. exists [Print line]. split; [done|].
  by repeat constructor.
Qed.

Lemma confined_prints_r base line line' (w w' : World) :
  confined base w w' -> confined base w (emit [Print line; Print line'] w').
Proof.
  intros Hw. eapply confined_trans; [exact Hw|].
  split; [apply retains_refl|]. exists [Print line; Print line']. split; [done|].
  by repeat constructor.
Qed.

(** A probe of [url_get] below [base/.git]. *)
Lemma confined_url_get base rest (w0 w w1 : World) response :
  confined base w0 w ->
  url_get (base +++ "/.git" +++ rest) w = (response, w1) ->
  confined base w0 w1.
Proof.
  intros Hw Hget. eapply confined_trans; [exact Hw|].
  destruct (url_get_probed Server serve (base +++ "/.git" +++ rest) w)
    as (r & w' & Hr & Hfs & events & Htr & Hg & Hp & _).
  rewrite Hget in Hr. injection Hr as _ <-.
  split; [rewrite Hfs; apply retains_refl|]. exists events. split; [done|].
  apply Forall_forall. intros e He. destruct e as [u|u| | |]; simpl; try done.
  - assert (Hu : u ∈ gets events).
    { unfold gets. apply list_elem_of_omap. by exists (Get u). }
    rewrite Hg in Hu. by apply elem_of_nil in Hu.
  - exists rest. apply Hp. unfold probes. apply list_elem_of_omap. by exists (Probe u).
Qed.

(** A task whose file is below [.git]: its requests are below [base/.git],
    and so are the files of its follow-ups. *)
Lemma do_task_confined base kind task (w : World) :
  git_task kind task ->
  confined base w (snd (do_task base kind task w)) /\
  forall l u, fst (do_task base kind task w) = Some l -> u ∈ l -> git_task kind u.
Proof.
  intros [rest Hrest]. split.
  - destruct (EffectsFacts.do_task_effects Server serve abspath_join find_all_a_href
                urlparse from_path base directory kind task w)
      as [(events & Htr & Hev & _) Hst].
    split.
    + destruct Hst as [->|(r & _ & _ & Hex & ->)]; [apply retains_refl|].
      by apply retains_store.
    + exists events. split; [done|]. eapply Forall_impl; [exact Hev|].
      intros e He. destruct e as [u|u| | |]; simpl in *; try done.
      exists rest. rewrite He, Hrest. reflexivity.
  - intros l u Hl Hu. destruct kind; cbn [Workers.do_task] in Hl.
    + rewrite download_no_follow_ups in Hl. injection Hl as <-.
      by apply elem_of_nil in Hu.
    + unfold git_task in *. cbn [task_path] in *.
      assert (Hname : exists name, name <> "" /\ u = task +++ name).
      { unfold Workers.recursive_do_task in Hl.
        destruct (negb (endswith task "/") && path_exists _ (fs w)).
        - injection Hl as <-. by apply elem_of_nil in Hu.
        - by eapply recursive_loop_follow_ups. }
      destruct Hname as (name & _ & ->). exists (rest +++ name).
      by rewrite Hrest, append_assoc.
    + unfold git_task. cbn [task_path].
      assert (Hgit : exists rest', u = ".git/refs/" +++ rest' \/
                                   u = ".git/logs/refs/" +++ rest').
      { unfold Workers.find_refs_do_task in Hl.
        destruct (path_exists _ (fs w)).
        - destruct (read _ _) as [response_text|]; cbn [fst] in Hl; [|done].
          injection Hl as <-. by eapply ref_tasks_under_git.
        - destruct (Workers.get_loop _ _ _ _ _ _ _ _) as [[response|] w1];
            cbn [fst] in Hl; [|done].
          destruct (negb (status_code response =? 200)%Z); cbn [fst] in Hl.
          + injection Hl as <-. by apply elem_of_nil in Hu.
          + injection Hl as <-. by eapply ref_tasks_under_git. }
      destruct Hgit as [rest' [->| ->]]; eexists; reflexivity.
    + eexists. reflexivity.
Qed.

Lemma confined_phase base jobs kind tasks done (w0 w : World) r :
  (forall t, t ∈ tasks -> git_task kind t) ->
  confined base w0 w ->
  phase base jobs kind tasks done w r ->
  confined base w0 (Pool.run_world r).
Proof.
  intros Htasks Hw Hphase. eapply confined_trans; [exact Hw|].
  destruct Hphase as [_ | final _ Hrtc _]; cbn [Pool.run_world];
    [apply confined_refl|].
  eapply (LedgerFacts.carries_reachable _ _ (git_task kind) (confined base));
    [apply confined_refl | apply confined_trans | | exact Htasks | exact Hrtc].
  intros t w1 Ht. by apply do_task_confined.
Qed.


Lemma common_files_git t : t ∈ common_files -> git_task DownloadWorker t.
Proof.
  unfold common_files. intros Ht.
  repeat (apply elem_of_cons in Ht as [->|Ht]; [eexists; reflexivity|]).
  by apply elem_of_nil in Ht.
Qed.

Lemma ref_files_git t : t ∈ ref_files -> git_task FindRefsWorker t.
Proof.
  unfold ref_files. intros Ht.
  repeat (apply elem_of_cons in Ht as [->|Ht]; [eexists; reflexivity|]).
  by apply elem_of_nil in Ht.
Qed.

Lemma listing_seeds_git t :
  t ∈ [".git/"; ".gitignore"] -> git_task RecursiveDownloadWorker t.
Proof.
  intros Ht.
  repeat (apply elem_of_cons in Ht as [->|Ht]; [eexists; reflexivity|]).
  by apply elem_of_nil in Ht.
Qed.

Lemma pack_tasks_git disk tasks t :
  pack_tasks abspath_join directory disk = Some tasks ->
  t ∈ tasks -> git_task DownloadWorker t.
Proof.
  unfold pack_tasks. destruct (path_exists _ disk).
  2: { intros [= <-] Ht. by apply elem_of_nil in Ht. }
  destruct (read _ disk) as [info_packs|]; [|done]. intros [= <-].
  generalize (find_packs info_packs). intros hashes.
  enough (Hacc : forall acc,
    (forall t, t ∈ acc -> git_task DownloadWorker t) ->
    t ∈ fold_left
          (fun tasks sha1 =>
             (tasks ++ [".git/objects/pack/pack-" +++ sha1 +++ ".idx"])
                    ++ [".git/objects/pack/pack-" +++ sha1 +++ ".pack"])
          hashes acc ->
    git_task DownloadWorker t).
  { apply Hacc. intros t' Ht'. by apply elem_of_nil in Ht'. }
  induction hashes as [|h hashes IH]; intros acc Hacc; simpl; [apply Hacc|].
  apply IH. intros t' [[Ht'| ->%list_elem_of_singleton]%elem_of_app
                      | ->%list_elem_of_singleton]%elem_of_app;
    [by apply Hacc | eexists; reflexivity | eexists; reflexivity].
Qed.

Lemma object_tasks_git t : git_task FindObjectsWorker t.
Proof. eexists. reflexivity. Qed.

Ltac confine :=
  repeat first
    [ assumption
    | apply confined_refl
    | apply confined_print_r
    | apply confined_prints_r
    | match goal with
      | H : phase _ _ _ _ _ _ ?r |- confined _ _ (Pool.run_world ?r) =>
          eapply confined_phase; [ | | exact H];
          [first [ apply common_files_git | apply ref_files_git
                 | apply listing_seeds_git | intros ? _; apply object_tasks_git
                 | intros ? ?; eapply pack_tasks_git; eassumption ]
          | ]
      | H : url_get (_ +++ "/.git/HEAD") _ = (_, ?w) |- confined _ _ ?w =>
          eapply (confined_url_get _ "/HEAD"); [|exact H]
      | H : url_get (_ +++ "/.git/") _ = (_, ?w) |- confined _ _ ?w =>
          eapply (confined_url_get _ "/"); [|exact H]
      end ].

(** A call of [fetch_git] keeps every file with its content and requests
    nothing but URLs below [base/.git]. *)
Lemma fetch_git_confined url jobs retry timeout (w0 w' : World) outcome :
  fetch_git url jobs retry timeout w0 outcome w' ->
  confined (base_url url) w0 w'.
Proof.
  intros Hrun. destruct Hrun; confine.
Qed.


(** X9. Every request of a run of [fetch_git], by a worker or by [url_get],
    is of a URL that starts with the base URL followed by [/.git]: the run
    asks for nothing outside the [.git] directory of the site but files
    beside it whose name starts with [.git], such as [.gitignore]. *)
Theorem fetch_git_requests_below_git url jobs retry timeout (w0 w' : World) outcome :
  fetch_git url jobs retry timeout w0 outcome w' ->
  exists events,
    trace w' = trace w0 ++ events /\
    forall u, u ∈ gets events \/ u ∈ probes events ->
      exists rest, u = base_url url +++ "/.git" +++ rest.
Proof.
  intros Hrun. destruct (fetch_git_confined _ _ _ _ _ _ _ Hrun) as [_ (events & Htr & Hev)].
  exists events. split; [done|]. rewrite Forall_forall in Hev.
  intros u [Hu|Hu]; apply list_elem_of_omap in Hu as (e & He & Hsome);
    specialize (Hev e He); destruct e; simpl in *; try done;
    by injection Hsome as <-.
Qed.

(** X10. A run of [fetch_git] changes no file that is in the output
    directory when it starts: at the end, whatever the outcome, every such
    file is there with the content it had. *)
Theorem fetch_git_retains_files url jobs retry timeout (w0 w' : World) outcome
    (p content : string) :
  fetch_git url jobs retry timeout w0 outcome w' ->
  read p (fs w0) = Some content ->
  read p (fs w') = Some content.
Proof.
  intros Hrun Hp. destruct (fetch_git_confined _ _ _ _ _ _ _ Hrun) as [Hr _].
  by apply Hr.
Qed.

(** *** The exit status *)

Lemma pack_objects_exit (objects : list (string * ShaFile)) acc code :
  (forall code', acc = Exit code' -> code' = 1%Z) ->
  fold_left pack_object objects acc = Exit code -> code = 1%Z.
Proof.
  revert acc. induction objects as [|entry objects IH]; intros acc Hacc; simpl.
  - apply Hacc.
  - apply IH. intros code'. unfold pack_object.
    destruct acc as [[objs packed]|c]; [|by apply Hacc].
    destruct (snd entry); simpl; try done. by intros [= <-].
Qed.

Lemma find_objects_exit disk code :
  find_objects abspath_join index_iterblobs pack_iterobjects directory disk
  = Some (Exit code) ->
  code = 1%Z.
Proof.
  unfold find_objects. destruct (_ ≫= _) as [objs|]; [|done].
  unfold scan_packs. destruct (isdir _ disk); [|done].
  generalize (listdir (local abspath_join directory ".git/objects/pack") disk).
  intros names.
  enough (Hacc : forall acc,
    (forall code', acc = Some (Exit code') -> code' = 1%Z) ->
    fold_left
      (fun acc filename =>
         match acc with
         | Some (Ok found) =>
             if startswith filename "pack-" && endswith filename ".pack" then
               let pack_data_path :=
                 local abspath_join directory ".git/objects/pack" +++ "/" +++ filename in
               let pack_idx_path :=
                 local abspath_join directory ".git/objects/pack" +++ "/"
                   +++ drop_last 5 filename +++ ".idx" in
               match pack_iterobjects (read pack_data_path disk)
                                      (read pack_idx_path disk) with
               | Some objects => Some (fold_left pack_object objects (Ok found))
               | None => None
               end
             else acc
         | _ => acc
         end) names acc = Some (Exit code) -> code = 1%Z).
  { apply Hacc. intros code' [=]. }
  induction names as [|name names IH]; intros acc Hacc; simpl; [apply Hacc|].
  apply IH. intros code'.
  destruct acc as [[found|c]|]; [|apply Hacc | done].
  destruct (_ && _); [|done].
  destruct (pack_iterobjects _ _) as [objects|]; [|done].
  intros [= Hfold]. eapply pack_objects_exit; [|exact Hfold]. by intros c [=].
Qed.

(** X11. A call of [fetch_git] ends in one of four ways: it returns 0, it
    returns 1, it ends the process with status 1 through [sys.exit], or it
    raises; it returns 1 if and only if the first probe, of [.git/HEAD],
    does not end with a status of 200 and a body that starts with [ref:],
    given that the asserts hold. *)
Theorem fetch_git_exit_status url jobs retry timeout (w0 w' : World) outcome :
  fetch_git url jobs retry timeout w0 outcome w' ->
  (outcome = Return 0 \/ outcome = Return 1 \/ outcome = SysExit 1 \/ outcome = Raise) /\
  (outcome = Return 1 <->
   preconditions Server abspath_join directory jobs retry timeout w0 = true /\
   exists response w1,
     url_get (base_url url +++ "/.git/HEAD") w0 = (Some response, w1) /\
     ((status_code response =? 200)%Z && startswith (text response) "ref:") = false).
Proof.
  intros Hrun.
  destruct Hrun as [Hpre | head w1 Hpre Hget H200 | head w1 Hpre Hget H200 Href
                   | head w1 ? ? ? Hpre Hget H200 Href
                   | head w1 ? ? ? ? ? ? ? ? ? Hpre Hget H200 Href
                   | head w1 ? ? ? ? ? ? ? Hpre Hget H200 Href ? ? ? ? ? ? Hexit
                   | head w1 ? ? ? ? Hpre Hget H200 Href
                   | head w1 ? ? ? ? ? ? Hpre Hget H200 Href].
  - split; [auto|]. split; [done|]. intros [Hp _]. congruence.
  - split; [auto|]. split; [|done]. intros _. split; [done|].
    exists head, w1. by rewrite H200.
  - split; [auto|]. split; [|done]. intros _. split; [done|].
    exists head, w1. by rewrite H200, Href.
  - split; [auto|]. split; [done|]. intros (_ & rr & ww & Hget' & Hbad).
    rewrite Hget in Hget'. injection Hget' as <- <-. by rewrite H200, Href in Hbad.
  - split; [auto|]. split; [done|]. intros (_ & rr & ww & Hget' & Hbad).
    rewrite Hget in Hget'. injection Hget' as <- <-. by rewrite H200, Href in Hbad.
  - apply find_objects_exit in Hexit as ->.
    split; [auto|]. split; [done|]. intros (_ & rr & ww & Hget' & Hbad).
    rewrite Hget in Hget'. injection Hget' as <- <-. by rewrite H200, Href in Hbad.
  - split; [auto|]. split; [done|]. intros (_ & rr & ww & Hget' & Hbad).
    rewrite Hget in Hget'. injection Hget' as <- <-. by rewrite H200, Href in Hbad.
  - split; [auto|]. split; [done|]. intros (_ & rr & ww & Hget' & Hbad).
    rewrite Hget in Hget'. injection Hget' as <- <-. by rewrite H200, Href in Hbad.
Qed.

End Phases.

(** *** The runs against the sample servers *)

Import Samples.

Lemma fetch_git_requests_below_git_witness :
  exists w' events,
    Dumper.fetch_git nat listing sample_abspath sample_hrefs sample_urlparse no_object
      no_blobs no_packed "/out" "http://h/.git/" 10 3 3 mirrored_run (Return 0) w' /\
    trace w' = trace mirrored_run ++ events /\
    forall u, u ∈ gets events \/ u ∈ probes events ->
      exists rest, u = "http://h" +++ "/.git" +++ rest.
Proof.
  destruct mirrored_run_returns as [w' Hrun]. exists w'.
  destruct (fetch_git_requests_below_git nat listing sample_abspath sample_hrefs
              sample_urlparse no_object no_blobs no_packed "/out" "http://h/.git/" 10 3 3
              mirrored_run w' (Return 0) Hrun) as (events & Htr & Hev).
  exists events. split; [exact Hrun|]. split; [exact Htr | exact Hev].
Defined.

Lemma fetch_git_retains_files_witness :
  exists w',
    Dumper.fetch_git nat listing sample_abspath sample_hrefs sample_urlparse no_object
      no_blobs no_packed "/out" "http://h/.git/" 10 3 3 mirrored_run (Return 0) w' /\
    read "/out/.git/HEAD" (fs mirrored_run) = Some ("ref: refs/heads/master" +++ nl) /\
    read "/out/.git/HEAD" (fs w') = Some ("ref: refs/heads/master" +++ nl).
Proof.
  destruct mirrored_run_returns as [w' Hrun]. exists w'.
  split; [exact Hrun|]. split; [reflexivity|].
  exact (fetch_git_retains_files nat listing sample_abspath sample_hrefs
           sample_urlparse no_object no_blobs no_packed "/out" "http://h/.git/" 10 3 3
           mirrored_run w' (Return 0) "/out/.git/HEAD" ("ref: refs/heads/master" +++ nl)
           Hrun eq_refl).
Defined.

Lemma fetch_git_exit_status_witness :
  Dumper.fetch_git nat nothing sample_abspath sample_hrefs sample_urlparse no_object
    no_blobs no_packed "/out" "http://h/.git/" 10 3 3 second_run (Return 1)
    (emit nat [Print (Error ("error: http://h/.git/HEAD does not exist" +++ nl))]
       (snd (url_get nat nothing "http://h/.git/HEAD" second_run))) /\
  (Return 1 = Return 0 \/ Return 1 = Return 1 \/ Return 1 = SysExit 1 \/
   Return 1 = Raise).
Proof.
  split; [exact aborted_run|].
  exact (proj1 (fetch_git_exit_status nat nothing sample_abspath sample_hrefs
                  sample_urlparse no_object no_blobs no_packed "/out" "http://h/.git/"
                  10 3 3 second_run _ (Return 1) aborted_run)).
Defined.

End ReachFacts.

(** ** [url_get] *)

Module ProbeFacts.
Import Py Re OS Http ObjectRefs Listing Workers Dumper Effects.
Import OSFacts WorkersFacts EffectsFacts DumperFacts.

Section Probe.

Variable Server : Type.
Variable serve : Server -> string -> Response * Server.

Local Abbreviation World := (World Server).
Local Abbreviation emit := (@emit Server).
Local Abbreviation request := (request Server serve).
Local Abbreviation url_get_loop := (url_get_loop Server serve).
Local Abbreviation url_get := (url_get Server serve).
Local Abbreviation replies := (replies Server serve).

Lemma url_get_loop_answers fuel count u response0 (w : World) :
  (count < 5)%Z -> Z.to_nat (5 - count) <= fuel ->
  exists earlier response events,
    replies (S (length earlier)) (server w) u = earlier ++ [response] /\
    Forall (fun r => status_code r = 403%Z) earlier /\
    (S (length earlier) < Z.to_nat (5 - count) -> status_code response <> 403%Z) /\
    S (length earlier) <= Z.to_nat (5 - count) /\
    fst (url_get_loop fuel count u response0 w) = Some response /\
    fs (snd (url_get_loop fuel count u response0 w)) = fs w /\
    trace (snd (url_get_loop fuel count u response0 w)) = trace w ++ events /\
    gets events = [] /\
    inits events = 0 /\
    probes events = replicate (S (length earlier)) u /\
    slept events
    = (10 * (Z.of_nat (length earlier)
             + if (status_code response =? 403)%Z then 1 else 0))%Z.
Proof.
  revert count response0 w. induction fuel as [|fuel IH]; intros count response0 w Hc Hfuel;
    [lia|].
  cbn [Dumper.url_get_loop]. apply Z.ltb_lt in Hc as Hc'. rewrite Hc'.
  destruct (request_spec Server serve Probe u (emit [Print (Testing u)] w))
    as (r & srv & Hs & ->). cbn [server Workers.emit] in Hs.
  destruct (status_code r =? 403)%Z eqn:H403.
  - apply Z.eqb_eq in H403.
    destruct (decide (count + 1 < 5)%Z) as [Hmore|Hlast].
    + match goal with |- context [url_get_loop fuel _ _ _ ?w1] =>
        destruct (IH (count + 1)%Z (Some r) w1 Hmore ltac:(lia))
          as (earlier & response & events & Hrep & Hall & Hstop & Hlen & Hres & Hfs
              & Htr & Hg & Hi & Hp & Hsl) end.
      cbn [server fs trace Workers.emit] in *.
      exists (r :: earlier), response,
        ([Print (Testing u); Probe u; Print (Status (status_code r)); Sleep 10] ++ events).
      split; [cbn [length]; by rewrite (replies_S Server serve _ _ _ _ _ Hs), Hrep|].
      split; [by constructor|]. split; [simpl; intros ?; apply Hstop; lia|].
      split; [simpl; lia|]. split; [done|]. split; [done|].
      split; [rewrite Htr; by rewrite <- !app_assoc|].
      rewrite gets_app, inits_app, probes_app, slept_app, Hg, Hi, Hp, Hsl.
      split; [done|]. split; [done|]. split; [done|].
      change (slept [Print (Testing u); Probe u; Print (Status (status_code r)); Sleep 10])
        with 10%Z.
      cbn [length]. lia.
    + destruct fuel as [|fuel']; cbn [Dumper.url_get_loop];
        [|replace (count + 1 <? 5)%Z with false by (symmetry; apply Z.ltb_ge; lia)];
        cbn [fst snd fs trace Workers.emit].
      all: exists [], r,
             [Print (Testing u); Probe u; Print (Status (status_code r)); Sleep 10].
      all: split; [by rewrite (replies_S Server serve _ _ _ _ _ Hs)|].
      all: split; [constructor|]. all: split; [simpl; lia|]. all: split; [simpl; lia|].
      all: split; [done|]. all: split; [done|].
      all: split; [by rewrite <- !app_assoc|].
      all: split; [done|]. all: split; [done|]. all: split; [done|].
      all: rewrite H403; reflexivity.
  - cbn [fst snd fs trace Workers.emit].
    exists [], r, [Print (Testing u); Probe u; Print (Status (status_code r))].
    split; [by rewrite (replies_S Server serve _ _ _ _ _ Hs)|].
    split; [constructor|]. split; [intros _; by apply Z.eqb_neq|].
    split; [simpl; lia|]. split; [done|]. split; [done|].
    split; [by rewrite <- !app_assoc|].
    split; [done|]. split; [done|]. split; [done|]. rewrite H403. reflexivity.
Qed.

(** X12. [url_get] asks for the URL until an answer is not 403, five times
    at most, and returns the last answer it got: the answers before it all
    have status 403, and after each answer of 403, the last included, it
    sleeps ten seconds. It sends nothing else, starts no session and leaves
    the output directory as it is. *)
Theorem url_get_first_answer_not_403 u (w : World) :
  exists earlier response events,
    replies (S (length earlier)) (server w) u = earlier ++ [response] /\
    Forall (fun r => status_code r = 403%Z) earlier /\
    length earlier < 5 /\
    (status_code response = 403%Z -> length earlier = 4) /\
    url_get u w = (Some response, snd (url_get u w)) /\
    fs (snd (url_get u w)) = fs w /\
    trace (snd (url_get u w)) = trace w ++ events /\
    gets events = [] /\
    inits events = 0 /\
    probes events = replicate (S (length earlier)) u /\
    slept events
    = (10 * (Z.of_nat (length earlier)
             + if (status_code response =? 403)%Z then 1 else 0))%Z.
Proof.
  destruct (url_get_loop_answers loop_fuel 0 u None w ltac:(lia) ltac:(unfold loop_fuel; simpl; lia))
    as (earlier & response & events & Hrep & Hall & Hstop & Hlen & Hres & Hfs
        & Htr & Hg & Hi & Hp & Hsl).
  change (Z.to_nat (5 - 0)) with 5 in *.
  exists earlier, response, events. unfold Dumper.url_get.
  split; [done|]. split; [done|]. split; [lia|]. split.
  { intros H403. destruct (decide (S (length earlier) < 5)) as [Hlt|]; [|lia].
    by destruct (Hstop Hlt). }
  split; [by rewrite <- Hres, <- surjective_pairing|]. done.
Qed.

End Probe.
End ProbeFacts.

(** ** The base URL *)

Module BaseUrlFacts.
Import Py Dumper PyFacts.

(** The URL with nothing stripped at its end but [.git/HEAD]. *)
Lemma base_url_head (b : string) :
  endswith b "/" = false -> base_url (b +++ "/.git/HEAD") = b.
Proof.
  intros Hb. unfold base_url.
  assert (H1 : rstrip_slash (b +++ "/.git/HEAD") = b +++ "/.git/HEAD").
  { apply rstrip_slash_fixed. unfold endswith. by rewrite rev_append. }
  rewrite H1.
  assert (H2 : endswith (b +++ "/.git/HEAD") "HEAD" = true).
  { change (b +++ "/.git/HEAD") with (b +++ "/.git/" +++ "HEAD").
    rewrite <- append_assoc. apply endswith_append. }
  rewrite H2.
  assert (H3 : drop_last 4 (b +++ "/.git/HEAD") = b +++ "/.git/").
  { change (b +++ "/.git/HEAD") with (b +++ "/.git/" +++ "HEAD").
    rewrite <- append_assoc. apply (drop_last_append _ "HEAD"). }
  rewrite H3.
  assert (H4 : rstrip_slash (b +++ "/.git/") = b +++ "/.git").
  { change (b +++ "/.git/") with (b +++ "/.git" +++ "/").
    rewrite <- append_assoc, rstrip_slash_slash.
    apply rstrip_slash_fixed. unfold endswith. by rewrite rev_append. }
  rewrite H4.
  assert (H5 : endswith (b +++ "/.git") ".git" = true).
  { change (b +++ "/.git") with (b +++ "/" +++ ".git").
    rewrite <- append_assoc. apply endswith_append. }
  rewrite H5.
  assert (H6 : drop_last 4 (b +++ "/.git") = b +++ "/").
  { change (b +++ "/.git") with (b +++ "/" +++ ".git").
    rewrite <- append_assoc. apply (drop_last_append _ ".git"). }
  rewrite H6, rstrip_slash_slash. by apply rstrip_slash_fixed.
Qed.

Lemma base_url_git (b : string) :
  endswith b "/" = false -> base_url (b +++ "/.git") = b.
Proof.
  intros Hb. unfold base_url.
  assert (H1 : rstrip_slash (b +++ "/.git") = b +++ "/.git").
  { apply rstrip_slash_fixed. unfold endswith. by rewrite rev_append. }
  rewrite H1.
  assert (H2 : endswith (b +++ "/.git") "HEAD" = false).
  { unfold endswith. by rewrite rev_append. }
  rewrite H2, H1.
  assert (H5 : endswith (b +++ "/.git") ".git" = true).
  { change (b +++ "/.git") with (b +++ "/" +++ ".git").
    rewrite <- append_assoc. apply endswith_append. }
  rewrite H5.
  assert (H6 : drop_last 4 (b +++ "/.git") = b +++ "/").
  { change (b +++ "/.git") with (b +++ "/" +++ ".git").
    rewrite <- append_assoc. apply (drop_last_append _ ".git"). }
  rewrite H6, rstrip_slash_slash. by apply rstrip_slash_fixed.
Qed.

Lemma base_url_slash (u : string) : base_url (u +++ "/") = base_url u.
Proof. unfold base_url. by rewrite rstrip_slash_slash. Qed.

(** X13. The base URL (lines 381-387) is the same for the spellings of the
    URL the tool accepts: for a URL [b] that does not end with a slash,
    [b/.git/HEAD], [b/.git/], [b/.git], and each of them followed by a slash,
    all give [b]; a URL that ends with none of a slash, [.git] and [HEAD] is
    its own base; a slash at the end of a URL never matters; and no base URL
    ends with a slash. *)
Theorem base_url_spellings (b : string) :
  endswith b "/" = false ->
  base_url (b +++ "/.git/HEAD") = b /\
  base_url (b +++ "/.git/") = b /\
  base_url (b +++ "/.git") = b /\
  base_url (b +++ "/.git/HEAD/") = b /\
  (endswith b "HEAD" = false -> endswith b ".git" = false -> base_url b = b) /\
  (forall u, base_url (u +++ "/") = base_url u) /\
  (forall u, endswith (base_url u) "/" = false).
Proof.
  intros Hb. split; [by apply base_url_head|]. split.
  { change (b +++ "/.git/") with (b +++ "/.git" +++ "/").
    rewrite <- append_assoc, base_url_slash. by apply base_url_git. }
  split; [by apply base_url_git|]. split.
  { change (b +++ "/.git/HEAD/") with (b +++ "/.git/HEAD" +++ "/").
    rewrite <- append_assoc, base_url_slash. by apply base_url_head. }
  split.
  { intros Hhead Hgit. unfold base_url.
    rewrite (rstrip_slash_fixed b Hb), Hhead, (rstrip_slash_fixed b Hb), Hgit.
    by apply rstrip_slash_fixed. }
  split; [apply base_url_slash|].
  intros u. unfold base_url. apply rstrip_slash_stripped.
Qed.

Lemma base_url_spellings_witness :
  endswith "http://h" "/" = false /\
  base_url ("http://h" +++ "/.git/HEAD") = "http://h" /\
  base_url ("http://h" +++ "/.git/") = "http://h" /\
  base_url ("http://h" +++ "/.git") = "http://h".
Proof.
  split; [reflexivity|].
  destruct (base_url_spellings "http://h" eq_refl) as (H1 & H2 & H3 & _).
  split; [exact H1|]. split; [exact H2 | exact H3].
Defined.

End BaseUrlFacts.

(** ** The ids and the packs the scans find *)

Module IdsFacts.
Import Py Re OS Http ObjectRefs Listing Workers Dumper Ids.
Import ReFacts OSFacts WorkersFacts.

Lemma findall_go_captures (m : matcher) (Q : chars -> Prop) :
  (forall at_start s n capture, m at_start s = Some (n, capture) -> Q capture) ->
  forall s at_start skip, Forall Q (findall_go m at_start skip s).
Proof.
  intros Hm. induction s as [|c s IH]; intros at_start skip; simpl; [constructor|].
  destruct skip as [|k]; [|apply IH].
  destruct (m at_start (c :: s)) as [[n capture]|] eqn:E; [|apply IH].
  constructor; [by eapply Hm | apply IH].
Qed.

Lemma length_string_of_list_ascii (l : chars) :
  String.length (string_of_list_ascii l) = length l.
Proof. induction l as [|c l IH]; simpl; [done | by rewrite IH]. Qed.

Lemma hex40_sha1 (s h rest : chars) :
  hex40 s = Some (h, rest) -> is_sha1 (string_of_list_ascii h).
Proof.
  unfold hex40. destruct (_ && _) eqn:E; [|done]. intros [= <- _].
  apply andb_true_iff in E as [Hlen Hhex]. apply Nat.eqb_eq in Hlen.
  split; [by rewrite length_string_of_list_ascii|].
  by rewrite list_ascii_of_string_of_list_ascii.
Qed.

Lemma find_packs_sha1 (text : string) : Forall is_sha1 (find_packs text).
Proof.
  unfold find_packs, findall. apply Forall_forall. intros h Hh.
  apply list_elem_of_In, in_map_iff in Hh as (capture & <- & Hin).
  apply list_elem_of_In in Hin. revert capture Hin. apply Forall_forall.
  apply (findall_go_captures pack_matcher (fun c => is_sha1 (string_of_list_ascii c))).
  intros at_start s n capture. unfold pack_matcher.
  destruct (starts_with _ s) as [rest|]; [|done].
  destruct (hex40 rest) as [[h rest']|] eqn:E; [|done].
  destruct (starts_with _ rest'); [|done]. intros [= _ <-]. by eapply hex40_sha1.
Qed.

Lemma find_oids_sha1 (text : string) : Forall is_sha1 (find_oids text).
Proof.
  unfold find_oids, findall. apply Forall_forall. intros h Hh.
  apply list_elem_of_In, in_map_iff in Hh as (capture & <- & Hin).
  apply list_elem_of_In in Hin. revert capture Hin. apply Forall_forall.
  apply (findall_go_captures oid_matcher (fun c => is_sha1 (string_of_list_ascii c))).
  assert (Hbody : forall s n capture,
    oid_body s = Some (n, capture) -> is_sha1 (string_of_list_ascii capture)).
  { intros s n capture. unfold oid_body.
    destruct (hex40 s) as [[h rest]|] eqn:E; [|done].
    destruct (oid_end rest); [|done]. intros [= _ <-]. by eapply hex40_sha1. }
  intros at_start s n capture. unfold oid_matcher.
  assert (Hblank : match s with
                   | c :: s' =>
                       if is_space c then
                         match oid_body s' with
                         | Some (n, h) => Some (S n, h)
                         | None => None
                         end
                       else None
                   | [] => None
                   end = Some (n, capture) -> is_sha1 (string_of_list_ascii capture)).
  { destruct s as [|c s']; [done|]. destruct (is_space c); [|done].
    destruct (oid_body s') as [[k h]|] eqn:E; [|done]. intros [= _ <-].
    by eapply Hbody. }
  destruct at_start; [|exact Hblank].
  destruct (oid_body s) as [[k h]|] eqn:E; [|exact Hblank].
  intros [= _ <-]. by eapply Hbody.
Qed.

Lemma hex40_spec (s h rest : chars) :
  hex40 s = Some (h, rest) <->
  s = h ++ rest /\ length h = 40 /\ forallb is_hex h = true.
Proof.
  unfold hex40. split.
  - destruct (_ && _) eqn:E; [|done]. intros [= <- <-].
    apply andb_true_iff in E as [Hlen Hhex]. apply Nat.eqb_eq in Hlen.
    split; [by rewrite take_drop | done].
  - intros (-> & Hlen & Hhex).
    rewrite take_app_length' by done. rewrite drop_app_length' by done.
    by rewrite Hlen, Hhex.
Qed.

Lemma pack_matcher_spec (b : bool) (s : chars) :
  match pack_matcher b s with
  | Some (n, h) =>
      n = 50 /\ length h = 40 /\ forallb is_hex h = true /\
      exists rest, s = pack_name h rest
  | None =>
      forall h rest, length h = 40 -> forallb is_hex h = true -> s <> pack_name h rest
  end.
Proof.
  unfold pack_matcher.
  destruct (starts_with (list_ascii_of_string "pack-") s) as [s1|] eqn:E1.
  2: { intros h rest _ _ ->.
       assert (Hs : starts_with (list_ascii_of_string "pack-") (pack_name h rest)
                    = Some (h ++ list_ascii_of_string ".pack" ++ rest))
         by by apply starts_with_spec.
       congruence. }
  apply starts_with_spec in E1 as ->.
  destruct (hex40 s1) as [[h s2]|] eqn:E2.
  2: { intros h rest Hlen Hhex Heq. apply app_inv_head in Heq. subst s1.
       assert (Hs : hex40 (h ++ list_ascii_of_string ".pack" ++ rest)
                    = Some (h, list_ascii_of_string ".pack" ++ rest))
         by by apply hex40_spec.
       congruence. }
  apply hex40_spec in E2 as (-> & Hlen & Hhex).
  destruct (starts_with (list_ascii_of_string ".pack") s2) as [s3|] eqn:E3.
  - apply starts_with_spec in E3 as ->. split; [done|]. split; [done|]. split; [done|].
    by exists s3.
  - intros h' rest Hlen' Hhex' Heq. apply app_inv_head in Heq.
    apply app_inj_1 in Heq as [-> Heq]; [|congruence]. subst s2.
    assert (Hs : starts_with (list_ascii_of_string ".pack")
                   (list_ascii_of_string ".pack" ++ rest) = Some rest)
      by by apply starts_with_spec.
    congruence.
Qed.

Lemma scans_listed_packs b (s : chars) (found : list chars) :
  scans pack_matcher b s found -> listed_packs s (string_of_list_ascii <$> found).
Proof.
  induction 1 as [|b c s found Hmiss _ IH|b c s n capture found Hhit _ IH].
  - constructor.
  - apply listed_packs_miss; [|done].
    pose proof (pack_matcher_spec b (c :: s)) as Hm. by rewrite Hmiss in Hm.
  - pose proof (pack_matcher_spec b (c :: s)) as Hm. rewrite Hhit in Hm.
    destruct Hm as (Hn & Hlen & Hhex & rest & Heq). injection Hn as ->.
    csimpl. rewrite Heq. apply listed_packs_hit; [done | done |].
    assert (Hrest : drop 49 s = rest).
    { change (drop 49 s) with (drop 50 (c :: s)). rewrite Heq. unfold pack_name.
      rewrite !app_assoc. rewrite drop_app_length'; [done|].
      rewrite !length_app, Hlen. reflexivity. }
    by rewrite <- Hrest.
Qed.

Lemma listed_packs_unique (s : chars) (ids ids' : list string) :
  listed_packs s ids -> listed_packs s ids' -> ids = ids'.
Proof.
  intros Hids. revert ids'.
  induction Hids as [|h rest ids Hlen Hhex _ IH|c s ids Hmiss _ IH]; intros ids' Hids'.
  - by inversion Hids'.
  - inversion Hids' as [|h' rest' ids0 Hlen' Hhex' Hrest' Heq|c s0 ids0 Hmiss' _ Heq].
    + apply app_inj_1 in Heq as [-> Heq]; [|congruence].
      injection Heq as ->. f_equal. by apply IH.
    + by destruct (Hmiss' h rest Hlen Hhex).
  - inversion Hids' as [|h' rest' ids0 Hlen' Hhex' Hrest' Heq|c0 s0 ids0 Hmiss' Hs0 Heq].
    + subst. by destruct (Hmiss h' rest' Hlen' Hhex').
    + subst. by apply IH.
Qed.

Lemma find_packs_listed (text : string) :
  listed_packs (list_ascii_of_string text) (find_packs text).
Proof.
  unfold find_packs, findall. apply (scans_listed_packs true).
  apply findall_go_scans. intros b t capture Hz.
  pose proof (pack_matcher_spec b t) as Hm. rewrite Hz in Hm. by destruct Hm.
Qed.

Section Scans.

Variable abspath_join : string -> string -> string.
Variable directory : string.

(** X14. The tasks the packs phase starts from (lines 473-483) are read
    off [.git/objects/info/packs]: for each [pack-<sha1>.pack] in its text,
    where [<sha1>] is forty characters among [0-9] and [a-f], from left to
    right and skipping one that begins inside the one before, the index
    [.git/objects/pack/pack-<sha1>.idx] and then the pack
    [.git/objects/pack/pack-<sha1>.pack]; there is no task when the output
    directory has no such file. *)
Theorem pack_tasks_pairs (disk : FS) (tasks : list string) :
  pack_tasks abspath_join directory disk = Some tasks ->
  (path_exists (local abspath_join directory ".git/objects/info/packs") disk = false ->
   tasks = []) /\
  (forall info_packs,
     read (local abspath_join directory ".git/objects/info/packs") disk
     = Some info_packs ->
     exists ids,
       listed_packs (list_ascii_of_string info_packs) ids /\
       (forall ids', listed_packs (list_ascii_of_string info_packs) ids' -> ids' = ids) /\
       Forall is_sha1 ids /\
       tasks = flat_map (fun sha1 => [".git/objects/pack/pack-" +++ sha1 +++ ".idx";
                                      ".git/objects/pack/pack-" +++ sha1 +++ ".pack"])
                        ids).
Proof.
  unfold pack_tasks. destruct (path_exists _ disk) eqn:Hex.
  2: { intros [= <-]. split; [done|]. intros info_packs Hread.
       rewrite path_exists_file in Hex; [done | by eexists]. }
  destruct (read _ disk) as [text|]; [|done]. intros [= <-].
  split; [done|]. intros info_packs [= <-].
  exists (find_packs text). split; [apply find_packs_listed|]. split.
  { intros ids' Hids'. symmetry.
    by apply (listed_packs_unique _ _ _ (find_packs_listed text)). }
  split; [apply find_packs_sha1|].
  generalize (find_packs text). intros hashes.
  enough (Hacc : forall acc,
    fold_left
      (fun tasks sha1 =>
         (tasks ++ [".git/objects/pack/pack-" +++ sha1 +++ ".idx"])
                ++ [".git/objects/pack/pack-" +++ sha1 +++ ".pack"])
      hashes acc
    = acc ++ flat_map (fun sha1 => [".git/objects/pack/pack-" +++ sha1 +++ ".idx";
                                    ".git/objects/pack/pack-" +++ sha1 +++ ".pack"])
                      hashes) by apply Hacc.
  induction hashes as [|h hashes IH]; intros acc; simpl; [by rewrite app_nil_r|].
  rewrite IH. by rewrite <- !app_assoc.
Qed.

(** X15. Every object id that the scan of the refs files finds (lines
    496-518) is forty characters among [0-9] and [a-f], whatever the files
    hold. *)
Theorem scan_files_sha1 (disk : FS) (objs : gset string) (obj : string) :
  scan_files abspath_join directory disk ∅ = Some objs ->
  obj ∈ objs ->
  is_sha1 obj.
Proof.
  unfold scan_files. generalize (scanned_files abspath_join directory disk).
  intros paths.
  enough (Hacc : forall acc : option (gset string),
    (forall found o, acc = Some found -> o ∈ found -> is_sha1 o) ->
    fold_left
      (fun acc filepath =>
         match acc with
         | None => None
         | Some objs =>
             if negb (path_exists filepath disk) then Some objs
             else
               match read filepath disk with
               | Some content =>
                   Some (fold_left (fun objs obj => objs ∪ {[obj]})
                                   (find_oids content) objs)
               | None => None
               end
         end) paths acc = Some objs ->
    obj ∈ objs -> is_sha1 obj).
  { apply Hacc. intros found o [= <-] Ho. by apply elem_of_empty in Ho. }
  induction paths as [|p paths IH]; intros acc Hacc; simpl.
  { intros Hobjs. by apply Hacc. }
  apply IH. intros found o.
  destruct acc as [seen|]; [|done].
  destruct (negb (path_exists p disk)); [by apply Hacc|].
  destruct (read p disk) as [content|]; [|done]. intros [= <-].
  pose proof (find_oids_sha1 content) as Hsha.
  revert seen Hacc. induction Hsha as [|h hs Hh _ IHs]; intros seen Hacc; simpl.
  - by apply Hacc.
  - apply IHs. intros found o' [= <-] [Ho'| ->%elem_of_singleton]%elem_of_union;
      [by eapply Hacc | done].
Qed.

End Scans.

Import Samples.

Lemma pack_tasks_pairs_witness :
  pack_tasks sample_abspath "/out" packs_out
  = Some [".git/objects/pack/pack-0123456789abcdef0123456789abcdef01234567.idx";
          ".git/objects/pack/pack-0123456789abcdef0123456789abcdef01234567.pack"] /\
  exists ids,
    listed_packs
      (list_ascii_of_string
         ("P pack-0123456789abcdef0123456789abcdef01234567.pack" +++ nl)) ids /\
    [".git/objects/pack/pack-0123456789abcdef0123456789abcdef01234567.idx";
     ".git/objects/pack/pack-0123456789abcdef0123456789abcdef01234567.pack"]
    = flat_map (fun sha1 => [".git/objects/pack/pack-" +++ sha1 +++ ".idx";
                             ".git/objects/pack/pack-" +++ sha1 +++ ".pack"])
               ids.
Proof.
  assert (Hrun : pack_tasks sample_abspath "/out" packs_out
    = Some [".git/objects/pack/pack-0123456789abcdef0123456789abcdef01234567.idx";
            ".git/objects/pack/pack-0123456789abcdef0123456789abcdef01234567.pack"])
    by (vm_compute; reflexivity).
  split; [exact Hrun|].
  destruct (proj2 (pack_tasks_pairs sample_abspath "/out" packs_out _ Hrun)
              ("P pack-0123456789abcdef0123456789abcdef01234567.pack" +++ nl) eq_refl)
    as (ids & Hids & _ & _ & Htasks).
  exists ids. split; [exact Hids | exact Htasks].
Defined.

Lemma scan_files_sha1_witness :
  scan_files sample_abspath "/out" earlier_out ∅
  = Some {["0123456789abcdef0123456789abcdef01234567"]} /\
  is_sha1 "0123456789abcdef0123456789abcdef01234567".
Proof.
  assert (Hrun : scan_files sample_abspath "/out" earlier_out ∅
                 = Some {["0123456789abcdef0123456789abcdef01234567"]})
    by (vm_compute; reflexivity).
  split; [exact Hrun|].
  refine (scan_files_sha1 sample_abspath "/out" earlier_out _
            "0123456789abcdef0123456789abcdef01234567" Hrun _).
  by apply elem_of_singleton.
Defined.

End IdsFacts.

(** ** Directories, listings and object files *)

Module DirsFacts.
Import Py Re OS Http Listing Workers Ids Paths Samples.
Import PyFacts OSFacts ListingFacts EffectsFacts.

Lemma mkdir_exists name (d : FS) : path_exists name (mkdir name d) = true.
Proof.
  unfold mkdir. destruct (path_exists name d) eqn:E; [done|].
  apply path_exists_spec. right. simpl. by apply elem_of_union_l, elem_of_singleton.
Qed.

Lemma makedirs_exists fuel name (d : FS) : path_exists name (makedirs fuel name d) = true.
Proof.
  destruct fuel as [|fuel]; simpl; [apply mkdir_exists|].
  destruct (split name) as [head tail].
  destruct (if truthy tail then (head, tail) else split head) as [head' tail'].
  destruct (truthy head' && truthy tail' && negb (path_exists head' d));
    apply mkdir_exists.
Qed.

Lemma dirs_of_mkdir name (d : FS) : dirs d ⊆ dirs (mkdir name d).
Proof.
  unfold mkdir. destruct (path_exists name d); [done|]. simpl.
  apply union_subseteq_r.
Qed.

Lemma dirs_of_makedirs fuel name (d : FS) : dirs d ⊆ dirs (makedirs fuel name d).
Proof.
  revert name d. induction fuel as [|fuel IH]; intros name d; simpl.
  - apply dirs_of_mkdir.
  - destruct (split name) as [head tail].
    destruct (if truthy tail then (head, tail) else split head) as [head' tail'].
    destruct (truthy head' && truthy tail' && negb (path_exists head' d)).
    + etrans; [apply IH | apply dirs_of_mkdir].
    + apply dirs_of_mkdir.
Qed.

(** X16. Where no regular file stands on the path above [path] (where one
    does, [os.makedirs] raises): [create_intermediate_dirs] touches no regular
    file and removes no directory; after it the directory part of the path
    exists, when the path has one; and a second call changes nothing. *)
Theorem create_intermediate_dirs_parent (path : string) (d : FS) :
  clear_above path d ->
  let after := create_intermediate_dirs path d in
  files after = files d /\
  dirs d ⊆ dirs after /\
  clear_above path after /\
  (fst (split path) <> "" -> path_exists (fst (split path)) after = true) /\
  create_intermediate_dirs path after = after.
Proof.
  intros Hclear after. subst after.
  assert (Hfiles : files (create_intermediate_dirs path d) = files d)
    by apply files_create_intermediate_dirs.
  split; [done|].
  assert (Hkeep : clear_above path (create_intermediate_dirs path d)).
  { intros q Hq. rewrite Hfiles. by apply Hclear. }
  unfold create_intermediate_dirs in *.
  destruct (split path) as [dirname basename]. cbn [fst].
  destruct (truthy dirname && negb (path_exists dirname d)) eqn:E.
  - split; [apply dirs_of_makedirs|]. split; [done|].
    split; [intros _; apply makedirs_exists|].
    by rewrite makedirs_exists, andb_false_r.
  - split; [done|]. split; [done|]. split; [|by rewrite E].
    intros Hne. apply andb_false_iff in E as [E|E].
    + unfold truthy in E. apply negb_false_iff, String.eqb_eq in E. done.
    + by apply negb_false_iff in E.
Qed.

Section Parser.

Variable find_all_a_href : string -> list (option string).
Variable urlparse : option string -> ParseResult.

Lemma keep_iff (url : ParseResult) :
  keep url = true <->
  path url <> "" /\ path url <> "." /\ path url <> ".." /\
  startswith (path url) "/" = false /\ scheme url = "" /\ netloc url = "".
Proof.
  unfold keep, truthy. rewrite !andb_true_iff, !negb_true_iff, !negb_false_iff.
  rewrite !String.eqb_neq, !String.eqb_eq. tauto.
Qed.

(** X17. The directory-listing parser returns the path of an anchor if and
    only if the parsed href has a path that is not empty, is neither [.] nor
    [..] and does not start with a slash, and has neither scheme nor host; it
    returns them in document order, repeated when the page repeats them, so
    never more paths than the page has anchors. *)
Theorem get_indexed_files_complete (response : Response) :
  get_indexed_files find_all_a_href urlparse response
  = map (fun link => path (urlparse link))
        (List.filter (fun link => keep (urlparse link))
                     (find_all_a_href (text response))) /\
  length (get_indexed_files find_all_a_href urlparse response)
  <= length (find_all_a_href (text response)) /\
  forall p,
    In p (get_indexed_files find_all_a_href urlparse response) <->
    exists link,
      In link (find_all_a_href (text response)) /\
      path (urlparse link) = p /\
      p <> "" /\ p <> "." /\ p <> ".." /\ startswith p "/" = false /\
      scheme (urlparse link) = "" /\ netloc (urlparse link) = "".
Proof.
  rewrite get_indexed_files_filter. split; [done|]. split.
  { rewrite length_map. apply filter_length_le. }
  intros p. rewrite in_map_iff. split.
  - intros (link & <- & Hin). apply filter_In in Hin as [Hin Hkeep].
    apply keep_iff in Hkeep. by exists link.
  - intros (link & Hin & <- & Hkeep). exists link. split; [done|].
    apply filter_In. split; [done|]. by apply keep_iff.
Qed.

End Parser.

Lemma parts_no_slash (s : string) : no_slash s -> parts s = [s].
Proof.
  unfold no_slash. induction s as [|c s IH]; [done|]. simpl.
  intros [Hc Hs]%andb_true_iff. apply negb_true_iff in Hc. rewrite Hc.
  by rewrite (IH Hs).
Qed.

Lemma parts_slash (x y : string) :
  no_slash x -> parts (x +++ String "/" y) = x :: parts y.
Proof.
  unfold no_slash. induction x as [|c x IH]; [done|].
  rewrite append_cons. simpl.
  intros [Hc Hx]%andb_true_iff. apply negb_true_iff in Hc. rewrite Hc.
  by rewrite (IH Hx).
Qed.

Lemma hex_no_slash (s : string) :
  forallb is_hex (list_ascii_of_string s) = true -> no_slash s.
Proof.
  unfold no_slash. induction s as [|c s IH]; [done|]. simpl.
  intros [Hc Hs]%andb_true_iff. rewrite (IH Hs), andb_true_r.
  destruct (Ascii.eqb_spec c "/") as [->|]; [discriminate Hc | done].
Qed.

Lemma object_path_sha1 (a : string) :
  is_sha1 a ->
  exists a1 a2 rest,
    a = String a1 (String a2 rest) /\
    String.length rest = 38 /\
    is_hex a1 = true /\ is_hex a2 = true /\
    forallb is_hex (list_ascii_of_string rest) = true /\
    object_path a = ".git/objects/" +++ String a1 (String a2 (String "/" rest)).
Proof.
  intros [Hlen Hhex]. destruct a as [|a1 [|a2 rest]]; [done | done |].
  simpl in Hlen, Hhex. apply andb_true_iff in Hhex as [H1 [H2 Hrest]%andb_true_iff].
  exists a1, a2, rest. split; [done|]. split; [lia|].
  split; [done|]. split; [done|]. split; [done|].
  unfold object_path, slice_to, slice_from.
  cbn [String.length String.substring Nat.sub].
  replace (String.length rest - 0) with (String.length rest) by lia.
  rewrite substring_all.
  assert (Hempty : forall s, String.substring 0 0 s = "") by (by intros []).
  by rewrite Hempty.
Qed.

Lemma object_path_plain (a : string) : is_sha1 a -> plain (object_path a).
Proof.
  intros (a1 & a2 & rest & -> & Hlen & H1 & H2 & Hrest & ->)%object_path_sha1.
  unfold plain.
  change (".git/objects/" +++ String a1 (String a2 (String "/" rest)))
    with (".git" +++ String "/" ("objects" +++ String "/"
            (String a1 (String a2 "") +++ String "/" rest))).
  rewrite (parts_slash ".git") by done.
  rewrite (parts_slash "objects") by done.
  rewrite (parts_slash (String a1 (String a2 ""))).
  2: { apply hex_no_slash. simpl. by rewrite H1, H2. }
  rewrite (parts_no_slash rest) by by apply hex_no_slash.
  repeat constructor; try done.
  - intros [= -> ->]. discriminate H1.
  - intros ->. discriminate Hlen.
  - intros ->. discriminate Hlen.
  - intros ->. discriminate Hlen.
Qed.

Lemma object_path_inj (a b : string) :
  2 <= String.length a -> 2 <= String.length b ->
  object_path a = object_path b -> a = b.
Proof.
  intros Ha Hb. destruct a as [|a1 [|a2 a]]; simpl in Ha; try lia.
  destruct b as [|b1 [|b2 b]]; simpl in Hb; try lia.
  unfold object_path, slice_to, slice_from.
  cbn [String.length String.substring Nat.sub].
  replace (String.length a - 0) with (String.length a) by lia.
  replace (String.length b - 0) with (String.length b) by lia.
  rewrite !substring_all.
  assert (Hempty : forall s, String.substring 0 0 s = "") by (by intros []).
  rewrite !Hempty. intros Heq. apply (String.app_inj ".git/objects/") in Heq.
  change (String a1 (String a2 (String "/" a)) = String b1 (String b2 (String "/" b)))
    in Heq.
  by injection Heq as -> -> ->.
Qed.

Lemma sample_abspath_separates : separates sample_abspath "/out".
Proof.
  intros p q Hp Hq. unfold sample_abspath.
  assert (Hne : forall s, plain s -> String.eqb s "" = false).
  { intros s Hs. apply String.eqb_neq. intros ->. unfold plain in Hs. simpl in Hs.
    apply Forall_cons in Hs as [[Hs _] _]. done. }
  rewrite (Hne p Hp), (Hne q Hq). intros Heq.
  apply (String.app_inj "/out") in Heq. by apply (String.app_inj "/") in Heq.
Qed.

Section Objects.

Variable abspath_join : string -> string -> string.
Variable url : string.
Variable directory : string.

(** X18. Two object ids, each forty characters among [0-9] and [a-f], are
    fetched from the same URL or stored in the same file of the output
    directory (lines 320-321) only if they are the same id; for the file,
    given that [os.path.abspath] gives plain relative paths that differ files
    that differ. *)
Theorem object_path_injective (a b : string) :
  separates abspath_join directory ->
  is_sha1 a -> is_sha1 b ->
  (abspath_join directory (object_path a) = abspath_join directory (object_path b) ->
   a = b) /\
  (url +++ "/" +++ object_path a = url +++ "/" +++ object_path b -> a = b).
Proof.
  intros Hsep Ha Hb.
  assert (Hinj : object_path a = object_path b -> a = b).
  { apply object_path_inj; [destruct Ha as [-> _] | destruct Hb as [-> _]]; lia. }
  split.
  - intros Heq. apply Hinj. by apply Hsep; [apply object_path_plain.. |].
  - intros Heq. apply Hinj. apply String.app_inj in Heq.
    by apply (String.app_inj "/") in Heq.
Qed.

End Objects.

Lemma object_path_injective_witness :
  separates sample_abspath "/out" /\
  is_sha1 "0123456789abcdef0123456789abcdef01234567" /\
  sample_abspath "/out" (object_path "0123456789abcdef0123456789abcdef01234567")
  = "/out/.git/objects/01/23456789abcdef0123456789abcdef01234567" /\
  "0123456789abcdef0123456789abcdef01234567"
  = "0123456789abcdef0123456789abcdef01234567".
Proof.
  assert (Hsha : is_sha1 "0123456789abcdef0123456789abcdef01234567")
    by (split; reflexivity).
  split; [exact sample_abspath_separates|]. split; [exact Hsha|].
  split; [reflexivity|].
  exact (proj1 (object_path_injective sample_abspath "http://h" "/out"
                  "0123456789abcdef0123456789abcdef01234567"
                  "0123456789abcdef0123456789abcdef01234567"
                  sample_abspath_separates Hsha Hsha) eq_refl).
Defined.

Lemma create_intermediate_dirs_parent_witness :
  clear_above "/out/.git/config" empty_out /\
  path_exists "/out/.git" (create_intermediate_dirs "/out/.git/config" empty_out) = true.
Proof.
  assert (Hclear : clear_above "/out/.git/config" empty_out)
    by (intros q _; apply lookup_empty).
  split; [exact Hclear|].
  exact (proj1 (proj2 (proj2 (proj2
           (create_intermediate_dirs_parent "/out/.git/config" empty_out Hclear))))
           ltac:(discriminate)).
Defined.

End DirsFacts.


(** ** The command line *)

Module MainFacts.
Import Py Re OS Http Workers Dumper Main.
Import PyFacts OSFacts EffectsFacts DirsFacts.


Lemma rsplit_colon_last (host port : chars) :
  rsplit_colon port = None ->
  rsplit_colon (host ++ ":"%char :: port) = Some (host, port).
Proof.
  intros Hport. induction host as [|c host IH]; simpl.
  - by rewrite Hport.
  - by rewrite IH.
Qed.

Lemma digit_not_colon (c : ascii) : is_digit c = true -> Ascii.eqb c ":" = false.
Proof.
  intros Hc. destruct (Ascii.eqb c ":") eqn:E; [|done].
  apply Ascii.eqb_eq in E as ->. vm_compute in Hc. discriminate.
Qed.

Lemma digit_not_newline (c : ascii) : is_digit c = true -> Ascii.eqb c "010" = false.
Proof.
  intros Hc. destruct (Ascii.eqb c "010") eqn:E; [|done].
  apply Ascii.eqb_eq in E as ->. vm_compute in Hc. discriminate.
Qed.

Lemma rsplit_colon_digits (port : chars) :
  forallb is_digit port = true -> rsplit_colon port = None.
Proof.
  induction port as [|c port IH]; simpl; [done|].
  intros [Hc Hport]%andb_true_iff. rewrite (IH Hport). by rewrite digit_not_colon.
Qed.


Lemma chomp_newline (s : chars) : chomp (s ++ ["010"%char]) = s.
Proof.
  induction s as [|c s IH]; [done|].
  destruct (s ++ ["010"%char]) as [|c' rest] eqn:E; [by destruct s|].
  change ((c :: s) ++ ["010"%char]) with (c :: (s ++ ["010"%char])). rewrite E.
  change (chomp (c :: c' :: rest)) with (c :: chomp (c' :: rest)).
  by rewrite IH.
Qed.

Lemma chomp_digits (host port : chars) :
  port <> [] -> forallb is_digit port = true ->
  chomp (host ++ port) = host ++ port.
Proof.
  intros Hne Hport.
  assert (Hp : chomp port = port).
  { clear Hne. induction port as [|c port IH]; [done|].
    apply andb_true_iff in Hport as [Hc Hport].
    destruct port as [|c' port].
    - simpl. by rewrite digit_not_newline.
    - change (chomp (c :: c' :: port)) with (c :: chomp (c' :: port)).
      by rewrite IH. }
  induction host as [|c host IH]; [done|].
  destruct (host ++ port) as [|c' rest] eqn:E.
  { destruct host; [simpl in E; by subst | done]. }
  change ((c :: host) ++ port) with (c :: (host ++ port)). rewrite E.
  change (chomp (c :: c' :: rest)) with (c :: chomp (c' :: rest)).
  by rewrite IH.
Qed.

Lemma host_port_accepts (host port : chars) :
  forallb (fun c => negb (Ascii.eqb c "010")) host = true ->
  port <> [] -> forallb is_digit port = true ->
  host_port (host ++ ":"%char :: port) = Some (host, port) /\
  host_port (host ++ ":"%char :: port ++ ["010"%char]) = Some (host, port).
Proof.
  intros Hhost Hne Hport.
  assert (Hok : match rsplit_colon (host ++ ":"%char :: port) with
                | Some (host, port) =>
                    if forallb (fun c => negb (Ascii.eqb c "010")) host
                       && negb (bool_decide (port = [])) && forallb is_digit port
                    then Some (host, port)
                    else None
                | None => None
                end = Some (host, port)).
  { rewrite rsplit_colon_last by by apply rsplit_colon_digits.
    rewrite Hhost, Hport. by rewrite bool_decide_eq_false_2. }
  unfold host_port. split.
  - change (host ++ ":"%char :: port) with (host ++ [":"%char] ++ port).
    rewrite app_assoc, chomp_digits by done. by rewrite <- app_assoc.
  - change (host ++ ":"%char :: port ++ ["010"%char])
      with (host ++ (":"%char :: port) ++ ["010"%char]).
    by rewrite app_assoc, chomp_newline.
Qed.

Lemma list_ascii_of_append (a b : string) :
  list_ascii_of_string (a +++ b) = list_ascii_of_string a ++ list_ascii_of_string b.
Proof.
  induction a as [|c a IH]; [done|]. rewrite append_cons. simpl. by rewrite IH.
Qed.


Lemma list_ascii_nil (s : string) : list_ascii_of_string s = [] -> s = "".
Proof. by destruct s. Qed.

(** What is left of a text that ends in a colon and digits, with or without
    a final newline, when it is cut at its last colon. *)
Lemma split_shape (x p t : chars) :
  p <> [] -> forallb is_digit p = true -> t = [] \/ t = ["010"%char] ->
  rsplit_colon (chomp (x ++ ":"%char :: p ++ t)) = Some (x, p).
Proof.
  intros Hne Hp Ht.
  assert (Hcut : chomp (x ++ ":"%char :: p ++ t) = x ++ ":"%char :: p).
  { destruct Ht as [-> | ->].
    - rewrite app_nil_r. change (x ++ ":"%char :: p) with (x ++ [":"%char] ++ p).
      by rewrite app_assoc, chomp_digits.
    - change (x ++ ":"%char :: p ++ ["010"%char])
        with (x ++ (":"%char :: p) ++ ["010"%char]).
      by rewrite app_assoc, chomp_newline. }
  rewrite Hcut. apply rsplit_colon_last. by apply rsplit_colon_digits.
Qed.


Lemma tail_chars (tail : string) :
  tail = "" \/ tail = nl ->
  list_ascii_of_string tail = [] \/ list_ascii_of_string tail = ["010"%char].
Proof. intros [-> | ->]; [by left | by right]. Qed.

Lemma shape_chars (x port tail : string) :
  list_ascii_of_string (x +++ ":" +++ port +++ tail)
  = list_ascii_of_string x
    ++ ":"%char :: list_ascii_of_string port ++ list_ascii_of_string tail.
Proof. by rewrite !list_ascii_of_append. Qed.

(** A text of the form host, colon, digits, with or without a final
    newline, matches the pattern with [prefix] in front. *)
Lemma match_proxy_accepts (prefix host port tail : string) :
  no_newline host -> all_digits port -> tail = "" \/ tail = nl ->
  match_proxy prefix (prefix +++ host +++ ":" +++ port +++ tail) = Some (host, port).
Proof.
  intros Hhost [Hne Hport] Htail. unfold match_proxy.
  rewrite list_ascii_of_append.
  rewrite (proj2 (ReFacts.starts_with_spec _ _ _) eq_refl).
  rewrite shape_chars. unfold host_port.
  rewrite split_shape; [| by intros ?%list_ascii_nil | done | by apply tail_chars].
  unfold no_newline in Hhost. rewrite Hhost, Hport.
  rewrite bool_decide_eq_false_2 by by intros ?%list_ascii_nil.
  cbn [andb negb]. by rewrite !string_of_list_ascii_of_string.
Qed.





Section Limit.

Variable int_max_str_digits : nat.

Local Abbreviation within_limit := (within_limit int_max_str_digits).
Local Abbreviation find_proxy := (find_proxy int_max_str_digits).
Local Abbreviation proxy_setting := (proxy_setting int_max_str_digits).



(** X20. With a host without newline and a port of one digit or more, no
    more than [int] converts: the argument [socks5:<host>:<port>] sets a SOCKS
    5 proxy, [socks4:<host>:<port>] a SOCKS 4 proxy and [http://<host>:<port>]
    an HTTP proxy, with that host and the number the digits spell. *)
Theorem proxy_forms (host port : string) :
  no_newline host -> all_digits port -> within_limit port = true ->
  let setting ty := ProxySet (Some (ty, host, int_of_digits (list_ascii_of_string port))) in
  find_proxy proxy_patterns ("socks5:" +++ host +++ ":" +++ port)
  = setting PROXY_TYPE_SOCKS5 /\
  find_proxy proxy_patterns ("socks4:" +++ host +++ ":" +++ port)
  = setting PROXY_TYPE_SOCKS4 /\
  find_proxy proxy_patterns ("http://" +++ host +++ ":" +++ port)
  = setting PROXY_TYPE_HTTP.
Proof.
  intros Hh Hd Hw setting. subst setting.
  assert (Hm : forall prefix,
    match_proxy prefix (prefix +++ host +++ ":" +++ port) = Some (host, port)).
  { intros prefix.
    pose proof (match_proxy_accepts prefix host port "" Hh Hd (or_introl eq_refl)) as H.
    by rewrite append_nil_r in H. }
  unfold proxy_patterns. cbn [Main.find_proxy]. unfold int.
  split; [by rewrite Hm, Hw|]. split.
  - assert (Hno : match_proxy "socks5:" ("socks4:" +++ host +++ ":" +++ port) = None)
      by reflexivity.
    by rewrite Hno, Hm, Hw.
  - assert (H5 : match_proxy "socks5:" ("http://" +++ host +++ ":" +++ port) = None)
      by reflexivity.
    assert (H4 : match_proxy "socks4:" ("http://" +++ host +++ ":" +++ port) = None)
      by reflexivity.
    by rewrite H5, H4, Hm, Hw.
Qed.

Variable Server : Type.
Variable abspath_join : string -> string -> string.

Local Abbreviation start := (start int_max_str_digits abspath_join).

(** X21. How the script gets from the command line to [fetch_git] (lines
    577-623). It calls [fetch_git] without creating the output directory
    exactly when the proxy argument, if there is one, sets a proxy and the
    asserts at the head of [fetch_git] hold for the arguments it passes: the
    directory is a directory, and the numbers of jobs and of retries and the
    timeout are at least 1. It reaches [os.makedirs] exactly when the three
    numbers are at least 1, the proxy argument is valid and the directory
    does not exist. It raises the [ValueError] of line 602 exactly when the
    three numbers are at least 1 and the port of the proxy has more digits
    than [int] converts. It ends in [parser.error] in the cases that are left:
    a number below 1, a proxy argument of another form, or a path that
    exists and is not a directory. *)
Theorem start_fetch_iff (args : Args) (w : World Server) :
  let run := start args (fs w) in
  let d := abspath_join (directory args) "" in
  let numbers := (1 <= jobs args /\ 1 <= retry args /\ 1 <= timeout args)%Z in
  (forall setting,
     run = Fetch setting <->
     proxy_setting args = ProxySet setting /\
     preconditions Server abspath_join (directory args)
                   (jobs args) (retry args) (timeout args) w = true) /\
  (forall setting,
     run = Makedirs setting <->
     numbers /\ proxy_setting args = ProxySet setting /\ path_exists d (fs w) = false) /\
  (run = Raises <-> numbers /\ proxy_setting args = ProxyValueError) /\
  ((exists message, run = ParserError message) <->
   ~ numbers \/
   proxy_setting args = ProxyInvalid \/
   exists setting,
     proxy_setting args = ProxySet setting /\
     path_exists d (fs w) = true /\ isdir d (fs w) = false).
Proof.
  intros run d numbers. subst run numbers.
  unfold Main.start, preconditions, local. fold d.
  assert (Hdir : isdir d (fs w) = true -> path_exists d (fs w) = true).
  { unfold isdir. intros Hd%bool_decide_eq_true. apply path_exists_spec. by right. }
  destruct (Z.ltb_spec (jobs args) 1) as [Hj|Hj].
  { split; [|split; [|split]].
    - intros setting. split; [done|]. rewrite !andb_true_iff, !Z.leb_le. lia.
    - intros setting. split; [done | lia].
    - split; [done | lia].
    - split; [intros _; left; lia | by eexists]. }
  destruct (Z.ltb_spec (retry args) 1) as [Hr|Hr].
  { split; [|split; [|split]].
    - intros setting. split; [done|]. rewrite !andb_true_iff, !Z.leb_le. lia.
    - intros setting. split; [done | lia].
    - split; [done | lia].
    - split; [intros _; left; lia | by eexists]. }
  destruct (Z.ltb_spec (timeout args) 1) as [Ht|Ht].
  { split; [|split; [|split]].
    - intros setting. split; [done|]. rewrite !andb_true_iff, !Z.leb_le. lia.
    - intros setting. split; [done | lia].
    - split; [done | lia].
    - split; [intros _; left; lia | by eexists]. }
  assert (Hnum : (1 <= jobs args /\ 1 <= retry args /\ 1 <= timeout args)%Z) by lia.
  assert (Hpre : forall b : bool,
    b && (1 <=? jobs args)%Z && (1 <=? retry args)%Z && (1 <=? timeout args)%Z = b).
  { intros b. destruct Hnum as (H1 & H2 & H3).
    apply Z.leb_le in H1, H2, H3. rewrite H1, H2, H3. by destruct b. }
  rewrite Hpre.
  destruct (proxy_setting args) as [setting| |].
  - destruct (path_exists d (fs w)) eqn:Hex; cbn [negb].
    + destruct (isdir d (fs w)) eqn:Hd; cbn [negb].
      * split; [|split; [|split]].
        -- intros s. split; [by intros [= ->] | by intros [[= ->] _]].
        -- intros s. split; [done | by intros (_ & _ & ?)].
        -- split; [done | by intros [_ ?]].
        -- split; [by intros [? ?]|]. intros [?|[?|(s & _ & _ & ?)]]; done.
      * split; [|split; [|split]].
        -- intros s. split; [done | by intros [_ ?]].
        -- intros s. split; [done | by intros (_ & _ & ?)].
        -- split; [done | by intros [_ ?]].
        -- split; [|by eexists]. intros _. right. right. by exists setting.
    + assert (Hd : isdir d (fs w) = false).
      { destruct (isdir d (fs w)) eqn:E; [|done]. by specialize (Hdir eq_refl). }
      rewrite Hd. split; [|split; [|split]].
      * intros s. split; [done | by intros [_ ?]].
      * intros s. split; [by intros [= ->] | by intros (_ & [= ->] & _)].
      * split; [done | by intros [_ ?]].
      * split; [by intros [? ?]|]. intros [?|[?|(s & _ & ? & _)]]; done.
  - split; [|split; [|split]].
    + intros s. split; [done | by intros [? _]].
    + intros s. split; [done | by intros (_ & ? & _)].
    + split; [done | by intros [_ ?]].
    + split; [|by eexists]. intros _. right. by left.
  - split; [|split; [|split]].
    + intros s. split; [done | by intros [? _]].
    + intros s. split; [done | by intros (_ & ? & _)].
    + split; [done | done].
    + split; [by intros [? ?]|]. intros [?|[?|(s & ? & _)]]; done.
Qed.

End Limit.

Lemma proxy_forms_witness :
  no_newline "127.0.0.1" /\ all_digits "9050" /\ within_limit 4300 "9050" = true /\
  find_proxy 4300 proxy_patterns "socks4:127.0.0.1:9050"
  = ProxySet (Some (PROXY_TYPE_SOCKS4, "127.0.0.1", 9050%Z)).
Proof.
  split; [reflexivity|]. split; [by split|]. split; [reflexivity|].
  apply (proxy_forms 4300 "127.0.0.1" "9050"); [reflexivity | by split | reflexivity].
Defined.

End MainFacts.
